(** * urd: the tracking engine (store.go) and the delete path of main.go

    A shallow embedding of the Store of the urd time tracker: streams,
    wall-clock sessions, the operations that toggle, stop, continue, add
    and delete streams, and persistence with its load-time validation.

    Conventions.
    - [time.Time] is an instant in nanoseconds, [time.Duration] a signed
      64-bit count of nanoseconds; both are [Z], with saturation and
      wrap-around written where Go has them.
    - [time.Now], [crypto/rand] and the outcome of file writes are read
      from tapes held in a [World]; every call consumes one entry, so two
      calls of [time.Now] inside one operation may return different
      instants, as in the program.
    - A slice is a [list]; the nil slice and the empty slice are both [[]].
    - A JSON text is represented by the document it denotes ([Json]). *)

From Stdlib Require Import ZArith Lia.
From Stdlib.Strings Require Import Byte.
From Stdlib.Floats Require Import SpecFloat.
From stdpp Require Import base list strings gmap pretty.

Local Open Scope Z_scope.

(** ** Machine integers *)

Module Int64.
Definition min : Z := - 2 ^ 63.
Definition max : Z := 2 ^ 63 - 1.

(** Two's complement wrap-around of Go's [int64] arithmetic. *)
Definition wrap (z : Z) : Z := (z + 2 ^ 63) mod 2 ^ 64 - 2 ^ 63.

Definition add (a b : Z) : Z := wrap (a + b).
Definition mul (a b : Z) : Z := wrap (a * b).

Definition inRange (z : Z) : bool := (min <=? z) && (z <=? max).
End Int64.

(** ** Floating point

    Go's [float64] is IEEE 754 binary64, rounding to nearest, ties to
    even: the operations are those of the standard library's [SpecFloat]
    at precision 53 and exponent 1024. *)

Module Float64.
Definition prec : Z := 53.
Definition emax : Z := 1024.

(** [float64(z)] for an integer [z]. *)
Definition ofInt (z : Z) : spec_float := binary_normalize prec emax z 0 false.

Definition add : spec_float -> spec_float -> spec_float := SFadd prec emax.
Definition div : spec_float -> spec_float -> spec_float := SFdiv prec emax.

(** [int64(f)]: the fraction is discarded. (A value that is not finite
    gives the smallest [int64] on amd64; no duration converts to one.) *)
Definition toInt64 (f : spec_float) : Z :=
  match f with
  | S754_zero _ => 0
  | S754_finite s m e =>
      let v := if 0 <=? e then Z.pos m * 2 ^ e else Z.quot (Z.pos m) (2 ^ (- e)) in
      if s then - v else v
  | _ => - 2 ^ 63
  end.
End Float64.

(** ** Package time *)

Module Time.
Definition Second : Z := 1000000000.

(** The zero [time.Time] (January 1, year 1), counted from the Unix epoch. *)
Definition zero : Z := - 62135596800 * Second.

(** [t.Sub(u)]: the difference, saturated to the range of [Duration]. *)
Definition Sub (t u : Z) : Z :=
  if t - u <? Int64.min then Int64.min
  else if Int64.max <? t - u then Int64.max
  else t - u.

(** [d.Truncate(m)]: [d - d%m], and [d] itself when [m <= 0]. *)
Definition Truncate (d m : Z) : Z :=
  if m <=? 0 then d else d - Z.rem d m.

(** [d.Seconds()]: [float64(d / Second) + float64(d % Second) / 1e9]. *)
Definition Seconds (d : Z) : spec_float :=
  Float64.add (Float64.ofInt (Z.quot d Second))
    (Float64.div (Float64.ofInt (Z.rem d Second)) (Float64.ofInt 1000000000)).

(** [int64(d.Seconds())]: the seconds of [d] as the conversion through
    [float64] gives them. From 2^24 seconds on the sum is rounded to a
    whole number when the nanoseconds are close to a full second, and the
    result is one more than the whole seconds of [d]. *)
Definition wholeSeconds (d : Z) : Z := Float64.toInt64 (Seconds d).

(** [t.MarshalJSON()] returns an error when the year of [t] is outside
    0..9999. Every time is taken in UTC: the year is in range from
    0000-01-01T00:00:00Z to 9999-12-31T23:59:59.999999999Z. *)
Definition marshals (t : Z) : bool :=
  (-62167219200 * Second <=? t) && (t <? 253402300800 * Second).
End Time.

(** ** Data model *)

Record Stream := mkStream {
  ID : string;
  Name : string;
  Seconds : Z;
  Active : bool;
  StartedAt : option Z;
  CreatedAt : Z
}.

Record Session := mkSession {
  Start : Z;
  End : option Z
}.

Record Store := mkStore {
  Streams : list Stream;
  Sessions : list Session;
  LastActive : list string;
  FilePath : string
}.

Definition setStreams (l : list Stream) (s : Store) : Store :=
  mkStore l (Sessions s) (LastActive s) (FilePath s).
Definition setSessions (l : list Session) (s : Store) : Store :=
  mkStore (Streams s) l (LastActive s) (FilePath s).
Definition setLastActive (l : list string) (s : Store) : Store :=
  mkStore (Streams s) (Sessions s) l (FilePath s).

(** ** JSON documents and files *)

(** A document as the decoder of encoding/json reads it: the keys and
    the strings are the decoded ones (escapes resolved, and bytes that are
    not UTF-8 replaced by U+FFFD); the keys of an object come in the order
    of the text, repeated keys included. [JNum] is an integer literal.
    [JTime t] is a string standing where a time is decoded, holding an
    RFC 3339 text of the instant [t]; a string there that is no such text
    is a [JStr]. *)
#[warnings="-register-all"]
Inductive Json :=
| JNull
| JBool (b : bool)
| JNum (n : Z)
| JStr (s : string)
| JTime (t : Z)
| JArr (l : list Json)
| JObj (fields : list (string * Json)).

(** The bytes of a file: a JSON text, or something that does not parse. *)
Inductive Data :=
| Garbage
| Doc (j : Json).

Inductive DiskEntry :=
| Absent
| Unreadable
| Holds (d : Data).

Inductive error :=
| ErrIO
| ErrMalformed
| ErrMarshal
| ErrInconsistent (path : string) (streamTotal wallClock : Z).

Inductive Result (A : Type) :=
| Ok (a : A)
| Err (e : error).
Arguments Ok {A} a.
Arguments Err {A} e.

(** ** The world the program runs in *)

Record World := mkWorld {
  clock : nat -> Z;
  entropy : nat -> byte;
  faults : nat -> bool;
  disk : string -> DiskEntry
}.

Definition IO (A : Type) : Type := World -> A * World.

Definition ret {A} (a : A) : IO A := fun w => (a, w).
Definition bind {A B} (m : IO A) (k : A -> IO B) : IO B :=
  fun w => let (a, w') := m w in k a w'.

Notation "'do' x <- m ; k" := (bind m (fun x => k))
  (at level 10, x name, m at level 100, k at level 200).
Notation "'do' ' pat <- m ; k" := (bind m (fun x => match x with pat => k end))
  (at level 10, pat pattern, m at level 100, k at level 200).

Definition tail_tape {A} (f : nat -> A) : nat -> A := fun n => f (S n).

(** [time.Now()] *)
Definition timeNow : IO Z := fun w =>
  (clock w 0%nat, mkWorld (tail_tape (clock w)) (entropy w) (faults w) (disk w)).

(** One byte of [rand.Read]. *)
Definition randByte : IO byte := fun w =>
  (entropy w 0%nat, mkWorld (clock w) (tail_tape (entropy w)) (faults w) (disk w)).

(** [time.Since(t)] is [time.Now().Sub(t)]. *)
Definition timeSince (t : Z) : IO Z :=
  do now <- timeNow; ret (Time.Sub now t).

(** [os.ReadFile] *)
Definition osReadFile (path : string) : IO DiskEntry := fun w => (disk w path, w).

Definition putFile (path : string) (e : DiskEntry) (d : string -> DiskEntry)
  : string -> DiskEntry :=
  fun p => if String.eqb p path then e else d p.

(** [os.WriteFile]: on failure the disk is left as it was. *)
Definition osWriteFile (path : string) (data : Data) : IO (option error) := fun w =>
  let w' := mkWorld (clock w) (entropy w) (tail_tape (faults w)) in
  if faults w 0%nat then (Some ErrIO, w' (disk w))
  else (None, w' (putFile path (Holds data) (disk w))).

(** [os.Rename]: the new path takes the entry of the old one. *)
Definition osRename (old new : string) : IO (option error) := fun w =>
  let w' := mkWorld (clock w) (entropy w) (tail_tape (faults w)) in
  if faults w 0%nat then (Some ErrIO, w' (disk w))
  else (None, w' (putFile new (disk w old) (putFile old Absent (disk w)))).

(** ** store.go: queries *)

(** [HasActive] *)
Definition HasActive (s : Store) : bool := existsb Active (Streams s).

(** The loop of [TotalWallClock]; [time.Now] is called for every session,
    closed or not. *)
Fixpoint wallClockLoop (l : list Session) (total : Z) : IO Z :=
  match l with
  | [] => ret total
  | sess :: rest =>
      do now <- timeNow;
      let e := match End sess with Some e => e | None => now end in
      wallClockLoop rest (Int64.add total (Time.Sub e (Start sess)))
  end.

Definition TotalWallClock (s : Store) : IO Z :=
  do total <- wallClockLoop (Sessions s) 0;
  ret (Time.Truncate total Time.Second).

(** ** store.go: the stream state machine *)

(** [flushStream] *)
Definition flushStream (st : Stream) : IO Stream :=
  match StartedAt st with
  | Some t0 =>
      do d <- timeSince t0;
      ret (mkStream (ID st) (Name st) (Int64.add (Seconds st) (Time.wholeSeconds d))
             (Active st) (StartedAt st) (CreatedAt st))
  | None => ret st
  end.

(** [st.Active = false; st.StartedAt = nil] *)
Definition deactivate (st : Stream) : Stream :=
  mkStream (ID st) (Name st) (Seconds st) false None (CreatedAt st).

(** [st.Active = true; st.StartedAt = &now] *)
Definition activate (now : Z) (st : Stream) : Stream :=
  mkStream (ID st) (Name st) (Seconds st) true (Some now) (CreatedAt st).

(** The index loop of [closeCurrentSession]: [i] counts down from [n]. *)
Fixpoint closeLoop (now : Z) (n : nat) (l : list Session) : list Session :=
  match n with
  | O => l
  | S i =>
      match l !! i with
      | Some sess =>
          match End sess with
          | None => <[i := mkSession (Start sess) (Some now)]> l
          | Some _ => closeLoop now i l
          end
      | None => closeLoop now i l
      end
  end.

(** [closeCurrentSession] *)
Definition closeCurrentSession (s : Store) : IO Store :=
  do now <- timeNow;
  ret (setSessions (closeLoop now (length (Sessions s)) (Sessions s)) s).

(** ** store.go: identifiers *)

Definition hextable : string := "0123456789abcdef".

Definition hexDigit (n : N) : Ascii.ascii :=
  match String.get (N.to_nat n) hextable with
  | Some c => c
  | None => Ascii.zero
  end.

(** [hex.EncodeToString] *)
Fixpoint EncodeToString (bs : list byte) : string :=
  match bs with
  | [] => String.EmptyString
  | b :: rest =>
      String.String (hexDigit (N.shiftr (Byte.to_N b) 4))
        (String.String (hexDigit (N.land (Byte.to_N b) 15)) (EncodeToString rest))
  end.

(** [newID]: three random bytes, in hexadecimal; nothing is compared with
    the ids already in use. *)
Definition newID : IO string :=
  do b0 <- randByte;
  do b1 <- randByte;
  do b2 <- randByte;
  ret (EncodeToString [b0; b1; b2]).

(** ** store.go: operations on the store *)

(** [AddStream] *)
Definition AddStream (name : string) (at_ : Z) (s : Store) : IO Store :=
  do id <- newID;
  do now <- timeNow;
  let st := mkStream id name 0 false None now in
  let at_ := if at_ <? 0 then 0 else at_ in
  if Z.of_nat (length (Streams s)) <=? at_ then
    ret (setStreams (Streams s ++ [st]) s)
  else
    let i := Z.to_nat at_ in
    ret (setStreams (<[i := st]> (take (S i) (Streams s) ++ drop i (Streams s))) s).

(** The index of the first stream with the given id. *)
Fixpoint findID (id : string) (l : list Stream) : option nat :=
  match l with
  | [] => None
  | st :: rest =>
      if String.eqb (ID st) id then Some O
      else match findID id rest with Some i => Some (S i) | None => None end
  end.

(** [DeleteStream] *)
Definition DeleteStream (id : string) (s : Store) : Store :=
  match findID id (Streams s) with
  | Some i => setStreams (take i (Streams s) ++ drop (S i) (Streams s)) s
  | None => s
  end.

(** The loop of [ToggleStream], which stops at the first stream with the id. *)
Fixpoint toggleLoop (id : string) (l : list Stream) : IO (list Stream) :=
  match l with
  | [] => ret []
  | st :: rest =>
      if String.eqb (ID st) id then
        if Active st then
          do st' <- flushStream st;
          ret (deactivate st' :: rest)
        else
          do now <- timeNow;
          ret (activate now st :: rest)
      else
        do rest' <- toggleLoop id rest;
        ret (st :: rest')
  end.

(** [ToggleStream] *)
Definition ToggleStream (id : string) (s : Store) : IO Store :=
  let hadActive := HasActive s in
  do sts <- toggleLoop id (Streams s);
  let s1 := setStreams sts s in
  let hasActive := HasActive s1 in
  if negb hadActive && hasActive then
    do now <- timeNow;
    ret (setSessions (Sessions s1 ++ [mkSession now None]) s1)
  else if hadActive && negb hasActive then
    closeCurrentSession s1
  else ret s1.

(** The loop of [StopAll]: [last] is [s.LastActive] as built so far. *)
Fixpoint stopLoop (l : list Stream) (last : list string)
  : IO (list Stream * list string) :=
  match l with
  | [] => ret ([], last)
  | st :: rest =>
      if Active st then
        do st' <- flushStream st;
        do '(rest', last') <- stopLoop rest (last ++ [ID st]);
        ret (deactivate st' :: rest', last')
      else
        do '(rest', last') <- stopLoop rest last;
        ret (st :: rest', last')
  end.

(** [StopAll] *)
Definition StopAll (s : Store) : IO Store :=
  let hadActive := HasActive s in
  do '(sts, last) <- stopLoop (Streams s) [];
  let s1 := mkStore sts (Sessions s) last (FilePath s) in
  if hadActive then closeCurrentSession s1 else ret s1.

(** The [map[string]bool] built by [ContinueAll]. *)
Definition idSet (l : list string) : gmap string bool :=
  foldl (fun m id => <[id := true]> m) ∅ l.

(** [ids[k]], false on a missing key. *)
Definition inIDs (ids : gmap string bool) (k : string) : bool :=
  default false (ids !! k).

(** [ContinueAll] *)
Definition ContinueAll (s : Store) : IO Store :=
  if Nat.eqb (length (LastActive s)) 0 then ret s
  else
    let ids := idSet (LastActive s) in
    let hadActive := HasActive s in
    do now <- timeNow;
    let sts :=
      (fun st => if inIDs ids (ID st) && negb (Active st) then activate now st else st)
        <$> Streams s in
    let s1 := setStreams sts s in
    let s2 :=
      if negb hadActive && HasActive s1
      then setSessions (Sessions s1 ++ [mkSession now None]) s1
      else s1 in
    ret (setLastActive [] s2).

(** ** Package unicode/utf8, and the strings of encoding/json *)

Module Utf8.
Definition code (c : Ascii.ascii) : Z := Z.of_N (Ascii.N_of_ascii c).

(** Whether [s] has a first byte, and it lies in [lo .. hi]. *)
Definition headIn (lo hi : Z) (s : string) : bool :=
  match s with
  | String c _ => (lo <=? code c) && (code c <=? hi)
  | EmptyString => false
  end.

Definition tail (s : string) : string :=
  match s with
  | String _ rest => rest
  | EmptyString => EmptyString
  end.

(** The size [utf8.DecodeRuneInString] finds for the sequence at the head
    of [s]; 0 where it returns [RuneError] with size 1, that is on a byte
    that starts no valid sequence. *)
Definition runeSize (s : string) : nat :=
  match s with
  | EmptyString => 0%nat
  | String c rest =>
      let b := code c in
      if b <? 128 then 1%nat
      else if b <? 194 then 0%nat
      else if b <? 224 then
        if headIn 128 191 rest then 2%nat else 0%nat
      else if b <? 240 then
        let lo := if b =? 224 then 160 else 128 in
        let hi := if b =? 237 then 159 else 191 in
        if headIn lo hi rest && headIn 128 191 (tail rest) then 3%nat else 0%nat
      else if b <? 245 then
        let lo := if b =? 240 then 144 else 128 in
        let hi := if b =? 244 then 143 else 191 in
        if headIn lo hi rest && headIn 128 191 (tail rest)
           && headIn 128 191 (tail (tail rest))
        then 4%nat else 0%nat
      else 0%nat
  end.

(** U+FFFD in UTF-8. *)
Definition replacement : string :=
  String (Ascii.ascii_of_nat 239)
    (String (Ascii.ascii_of_nat 191) (String (Ascii.ascii_of_nat 189) EmptyString)).

(** The string a JSON text written by [json.Marshal] holds for [s]: a
    valid sequence is kept, a byte that starts none is written as U+FFFD.
    [pending] bytes of the sequence at hand are still to be copied. *)
Fixpoint toValidFrom (pending : nat) (s : string) : string :=
  match s with
  | EmptyString => EmptyString
  | String c rest =>
      match pending with
      | S k => String c (toValidFrom k rest)
      | O =>
          match runeSize (String c rest) with
          | O => (replacement +:+ toValidFrom 0 rest)%string
          | S k => String c (toValidFrom k rest)
          end
      end
  end.

Definition toValid (s : string) : string := toValidFrom 0 s.

(** The strings [json.Marshal] writes as they are. *)
Definition valid (s : string) : Prop := toValid s = s.

(** The key of a struct field that a key of the document stands for, as
    [strings.EqualFold] matches them: a name in lower-case ASCII is matched
    by the key whose letters A-Z are lowered, with U+212A (the Kelvin
    sign) for k and U+017F (the long s) for s. *)
Fixpoint foldKey (s : string) : string :=
  match s with
  | EmptyString => EmptyString
  | String c rest =>
      let b := code c in
      if (65 <=? b) && (b <=? 90)
      then String (Ascii.ascii_of_N (Z.to_N (b + 32))) (foldKey rest)
      else
        match rest with
        | String c1 rest1 =>
            if (b =? 197) && (code c1 =? 191) then String (Ascii.ascii_of_nat 115) (foldKey rest1)
            else
              match rest1 with
              | String c2 rest2 =>
                  if (b =? 226) && (code c1 =? 132) && (code c2 =? 170)
                  then String (Ascii.ascii_of_nat 107) (foldKey rest2)
                  else String c (foldKey rest)
              | EmptyString => String c (foldKey rest)
              end
        | EmptyString => String c EmptyString
        end
  end.
End Utf8.

(** ** store.go: persistence *)

(** A field tagged [omitempty] is left out when it has no value. *)
Definition omitempty (k : string) (o : option Json) : list (string * Json) :=
  match o with
  | Some j => [(k, j)]
  | None => []
  end.

Definition marshalStream (st : Stream) : Json :=
  JObj ([("id", JStr (Utf8.toValid (ID st))); ("name", JStr (Utf8.toValid (Name st)));
         ("seconds", JNum (Seconds st)); ("active", JBool (Active st))]
        ++ omitempty "started_at" (JTime <$> StartedAt st)
        ++ [("created_at", JTime (CreatedAt st))]).

Definition marshalSession (x : Session) : Json :=
  JObj ([("start", JTime (Start x))] ++ omitempty "end" (JTime <$> End x)).

(** The document [json.MarshalIndent(s, ...)] writes when it returns no
    error: [FilePath] is tagged ["-"]. (A nil slice is written as [null]
    and an empty one as [[]]; they decode alike, and the model writes
    [[]].) *)
Definition marshalStore (s : Store) : Json :=
  JObj ([("streams", JArr (marshalStream <$> Streams s));
         ("sessions", JArr (marshalSession <$> Sessions s))]
        ++ omitempty "last_active"
             (match LastActive s with
              | [] => None
              | l => Some (JArr ((fun id => JStr (Utf8.toValid id)) <$> l))
              end)).

(** Whether [json.MarshalIndent(s, ...)] returns no error: every time of
    the store can be written. *)
Definition timeMarshals (o : option Z) : bool :=
  match o with
  | Some t => Time.marshals t
  | None => true
  end.

Definition streamMarshals (st : Stream) : bool :=
  timeMarshals (StartedAt st) && Time.marshals (CreatedAt st).

Definition sessionMarshals (x : Session) : bool :=
  Time.marshals (Start x) && timeMarshals (End x).

Definition storeMarshals (s : Store) : bool :=
  forallb streamMarshals (Streams s) && forallb sessionMarshals (Sessions s).

(** Whether a key of the document names the field tagged [name]. *)
Definition keyIs (name key : string) : bool :=
  String.eqb (Utf8.foldKey key) name.

(** Decoding a value into a field that holds [cur]: [null] leaves a
    field that is no pointer as it is and clears a pointer; a value of
    another kind is an error. *)
Definition intoString (cur : string) (v : Json) : option string :=
  match v with
  | JNull => Some cur
  | JStr s => Some s
  | _ => None
  end.

Definition intoInt64 (cur : Z) (v : Json) : option Z :=
  match v with
  | JNull => Some cur
  | JNum n => if Int64.inRange n then Some n else None
  | _ => None
  end.

Definition intoBool (cur : bool) (v : Json) : option bool :=
  match v with
  | JNull => Some cur
  | JBool b => Some b
  | _ => None
  end.

Definition intoTime (cur : Z) (v : Json) : option Z :=
  match v with
  | JNull => Some cur
  | JTime t => Some t
  | _ => None
  end.

Definition intoTimePtr (cur : option Z) (v : Json) : option (option Z) :=
  match v with
  | JNull => Some None
  | JTime t => Some (Some t)
  | _ => None
  end.

(** The keys of an object are decoded one after the other, each into the
    field it names; a key that names no field is skipped. *)
Fixpoint decodeFields {S} (step : S -> string * Json -> option S)
    (fs : list (string * Json)) (s : S) : option S :=
  match fs with
  | [] => Some s
  | kv :: rest =>
      s' ← step s kv;
      decodeFields step rest s'
  end.

Definition streamField (st : Stream) (kv : string * Json) : option Stream :=
  let (k, v) := kv in
  if keyIs "id" k then
    x ← intoString (ID st) v;
    Some (mkStream x (Name st) (Seconds st) (Active st) (StartedAt st) (CreatedAt st))
  else if keyIs "name" k then
    x ← intoString (Name st) v;
    Some (mkStream (ID st) x (Seconds st) (Active st) (StartedAt st) (CreatedAt st))
  else if keyIs "seconds" k then
    x ← intoInt64 (Seconds st) v;
    Some (mkStream (ID st) (Name st) x (Active st) (StartedAt st) (CreatedAt st))
  else if keyIs "active" k then
    x ← intoBool (Active st) v;
    Some (mkStream (ID st) (Name st) (Seconds st) x (StartedAt st) (CreatedAt st))
  else if keyIs "started_at" k then
    x ← intoTimePtr (StartedAt st) v;
    Some (mkStream (ID st) (Name st) (Seconds st) (Active st) x (CreatedAt st))
  else if keyIs "created_at" k then
    x ← intoTime (CreatedAt st) v;
    Some (mkStream (ID st) (Name st) (Seconds st) (Active st) (StartedAt st) x)
  else Some st.

Definition intoStream (cur : Stream) (j : Json) : option Stream :=
  match j with
  | JNull => Some cur
  | JObj fs => decodeFields streamField fs cur
  | _ => None
  end.

Definition sessionField (x : Session) (kv : string * Json) : option Session :=
  let (k, v) := kv in
  if keyIs "start" k then
    t ← intoTime (Start x) v;
    Some (mkSession t (End x))
  else if keyIs "end" k then
    t ← intoTimePtr (End x) v;
    Some (mkSession (Start x) t)
  else Some x.

Definition intoSession (cur : Session) (j : Json) : option Session :=
  match j with
  | JNull => Some cur
  | JObj fs => decodeFields sessionField fs cur
  | _ => None
  end.

(** The elements of an array are decoded into the elements the slice
    already has in its backing array, and into zero values beyond. *)
Fixpoint intoElems {A} (into : A -> Json -> option A) (zero : A)
    (backing : list A) (items : list Json) : option (list A) :=
  match items with
  | [] => Some []
  | j :: items' =>
      x ← into (match backing with b :: _ => b | [] => zero end) j;
      rest ← intoElems into zero (match backing with _ :: bs => bs | [] => [] end) items';
      Some (x :: rest)
  end.

(** Decoding into a slice: the slice it gives, and the elements left
    behind it in the backing array (those of an earlier, longer array of
    the same document). [null] gives the nil slice and [[]] a new empty
    one. *)
Definition intoSlice {A} (into : A -> Json -> option A) (zero : A)
    (backing : list A) (v : Json) : option (list A * list A) :=
  match v with
  | JNull => Some ([], [])
  | JArr [] => Some ([], [])
  | JArr items =>
      l ← intoElems into zero backing items;
      Some (l, drop (length items) backing)
  | _ => None
  end.

(** The store being decoded into, with what lies behind its slices. *)
Record Decoding := mkDecoding {
  decoded : Store;
  behindStreams : list Stream;
  behindSessions : list Session;
  behindLastActive : list string
}.

Definition storeField (d : Decoding) (kv : string * Json) : option Decoding :=
  let (k, v) := kv in
  let s := decoded d in
  if keyIs "streams" k then
    r ← intoSlice intoStream (mkStream "" "" 0 false None Time.zero)
          (Streams s ++ behindStreams d) v;
    Some (mkDecoding (setStreams r.1 s) r.2 (behindSessions d) (behindLastActive d))
  else if keyIs "sessions" k then
    r ← intoSlice intoSession (mkSession Time.zero None)
          (Sessions s ++ behindSessions d) v;
    Some (mkDecoding (setSessions r.1 s) (behindStreams d) r.2 (behindLastActive d))
  else if keyIs "last_active" k then
    r ← intoSlice intoString "" (LastActive s ++ behindLastActive d) v;
    Some (mkDecoding (setLastActive r.1 s) (behindStreams d) (behindSessions d) r.2)
  else Some d.

(** [json.Unmarshal(data, s)]: the values found are decoded into [s]. *)
Definition Unmarshal (data : Data) (s : Store) : option Store :=
  match data with
  | Garbage => None
  | Doc JNull => Some s
  | Doc (JObj fs) => decoded <$> decodeFields storeField fs (mkDecoding s [] [] [])
  | Doc _ => None
  end.

(** The sum computed by [validate], in nanoseconds. *)
Definition streamTotal (l : list Stream) : Z :=
  foldl (fun total st => Int64.add total (Int64.mul (Seconds st) Time.Second)) 0 l.

(** [validate] *)
Definition validate (s : Store) : IO (option error) :=
  let total := streamTotal (Streams s) in
  do wallClock <- TotalWallClock s;
  if (0 <? wallClock) && (total <? wallClock)
  then ret (Some (ErrInconsistent (FilePath s) total wallClock))
  else ret None.

(** The safety fallback of [LoadStore]. *)
Definition repair (now : Z) (st : Stream) : Stream :=
  if Active st then
    match StartedAt st with
    | None => mkStream (ID st) (Name st) (Seconds st) (Active st) (Some now) (CreatedAt st)
    | Some _ => st
    end
  else st.

(** [LoadStore] *)
Definition LoadStore (path : string) : IO (Result Store) :=
  let s := mkStore [] [] [] path in
  do r <- osReadFile path;
  match r with
  | Absent => ret (Ok s)
  | Unreadable => ret (Err ErrIO)
  | Holds data =>
      match Unmarshal data s with
      | None => ret (Err ErrMalformed)
      | Some s1 =>
          do e <- validate s1;
          match e with
          | Some err => ret (Err err)
          | None =>
              do now <- timeNow;
              ret (Ok (setStreams (repair now <$> Streams s1) s1))
          end
      end
  end.

(** [Save]: marshal, write to a temporary path, then rename over the real
    one. *)
Definition Save (s : Store) : IO (option error) :=
  if negb (storeMarshals s) then ret (Some ErrMarshal)
  else
    let data := Doc (marshalStore s) in
    let tmp := (FilePath s +:+ ".tmp")%string in
    do e <- osWriteFile tmp data;
    match e with
    | Some err => ret (Some err)
    | None => osRename tmp (FilePath s)
    end.

(** The loop of [SaveForBackground]: an active stream is flushed and its
    period restarted at [now]; it stays active. *)
Fixpoint backgroundLoop (now : Z) (l : list Stream) : IO (list Stream) :=
  match l with
  | [] => ret []
  | st :: rest =>
      if Active st then
        do st' <- flushStream st;
        do rest' <- backgroundLoop now rest;
        ret (mkStream (ID st') (Name st') (Seconds st') (Active st') (Some now)
               (CreatedAt st') :: rest')
      else
        do rest' <- backgroundLoop now rest;
        ret (st :: rest')
  end.

(** [SaveForBackground]; the store it leaves and the error of [Save]. *)
Definition SaveForBackground (s : Store) : IO (Store * option error) :=
  do now <- timeNow;
  do sts <- backgroundLoop now (Streams s);
  let s1 := setStreams sts s in
  do e <- Save s1;
  ret (s1, e).

(** [Elapsed] *)
Definition Elapsed (st : Stream) : IO Z :=
  let d := Int64.mul (Seconds st) Time.Second in
  match StartedAt st with
  | Some t0 =>
      if Active st then
        do since <- timeSince t0;
        ret (Int64.add d (Time.Truncate since Time.Second))
      else ret d
  | None => ret d
  end.

(** The comparison passed to [sort.SliceStable] by [SortStreams]. *)
Definition lessStream (a b : Stream) : IO bool :=
  if negb (eqb (Active a) (Active b)) then ret (Active a)
  else
    do ea <- Elapsed a;
    do eb <- Elapsed b;
    ret (eb <? ea).

(** ** main.go: the delete path

    [sort.SliceStable] belongs to the Go library; it is a parameter here.
    It takes the comparison and the slice and leaves the sorted slice. *)

Section Sorting.
Variable SliceStable : (Stream -> Stream -> IO bool) -> list Stream -> IO (list Stream).

(** [SortStreams] *)
Definition SortStreams (s : Store) : IO Store :=
  do sts <- SliceStable lessStream (Streams s);
  ret (setStreams sts s).

(** [performDelete], as far as the store goes; [cursor] is [m.cursor].
    [None] is the panic of an index out of range. *)
Definition performDelete (cursor : nat) (s : Store) : IO (option Store) :=
  if Nat.eqb (length (Streams s)) 0 then ret (Some s)
  else
    match Streams s !! cursor with
    | None => ret None
    | Some stream =>
        let wasActive := Active stream in
        let s1 :=
          if wasActive
          then setStreams (<[cursor := deactivate stream]> (Streams s)) s
          else s in
        let s2 := DeleteStream (ID stream) s1 in
        do s3 <- (if wasActive && negb (HasActive s2)
                  then closeCurrentSession s2 else ret s2);
        do s4 <- SortStreams s3;
        do _ <- Save s4;
        ret (Some s4)
    end.
End Sorting.

(** A stable insertion sort, one function that [SliceStable] may be: an
    element moves left while it is less than its left neighbour. [rp] is
    the sorted prefix, last element first. *)
Fixpoint insertLeft (less : Stream -> Stream -> IO bool) (x : Stream)
    (rp : list Stream) : IO (list Stream) :=
  match rp with
  | [] => ret [x]
  | y :: rp' =>
      do b <- less x y;
      if b then
        do r <- insertLeft less x rp';
        ret (y :: r)
      else ret (x :: y :: rp')
  end.

Fixpoint insertionLoop (less : Stream -> Stream -> IO bool) (l rp : list Stream)
  : IO (list Stream) :=
  match l with
  | [] => ret (reverse rp)
  | x :: rest =>
      do rp' <- insertLeft less x rp;
      insertionLoop less rest rp'
  end.

Definition insertionSort (less : Stream -> Stream -> IO bool) (l : list Stream)
  : IO (list Stream) :=
  insertionLoop less l [].

(** ** main.go: the update loop

    The program is a Bubble Tea model: [Update] takes a message and gives
    the next model and a command. What it takes from its libraries (the
    text input of bubbles, [strings.TrimSpace], [sort.SliceStable]) is
    gathered in a [Library]; a message is a window size, a tick, a key (by
    its [String()]) or anything else. An index out of range panics: a
    function that may panic returns [None] then. *)

Inductive Msg :=
| WindowSizeMsg (Width Height : Z)
| tickMsg
| KeyMsg (key : string)
| OtherMsg.

Record Library := mkLibrary {
  TextInput : Type;
  LibCmd : Type;
  tiNew : TextInput;
  tiValue : TextInput -> string;
  tiReset : TextInput -> TextInput;
  tiFocus : TextInput -> TextInput;
  tiUpdate : Msg -> TextInput -> TextInput * LibCmd;
  TrimSpace : string -> string;
  SliceStable : (Stream -> Stream -> IO bool) -> list Stream -> IO (list Stream)
}.

(** [l[i]] for a Go [int] index. *)
Definition index {A} (l : list A) (i : Z) : option A :=
  if i <? 0 then None else l !! Z.to_nat i.

(** The place of [key] in a list of keys. *)
Fixpoint keyIndex (key : string) (keys : list string) : option Z :=
  match keys with
  | [] => None
  | k :: rest =>
      if String.eqb key k then Some 0
      else match keyIndex key rest with Some i => Some (i + 1) | None => None end
  end.

Definition keyIn (key : string) (keys : list string) : bool :=
  existsb (String.eqb key) keys.

Module Main.
Section WithLibrary.
Context (L : Library).

(** The commands [Update] returns: [nil], [tickCmd()], [tea.Quit],
    [textinput.Blink], and what [textinput.Update] returns. *)
Inductive Cmd :=
| CmdNil
| tickCmd
| Quit
| Blink
| CmdOf (c : LibCmd L).

Record model := mkModel {
  store : Store;
  cursor : Z;
  adding : bool;
  addAbove : bool;
  pendingD : bool;
  confirmDel : bool;
  textinput : TextInput L;
  ticking : bool;
  width : Z;
  height : Z
}.

Definition setStore (s : Store) (m : model) : model :=
  mkModel s (cursor m) (adding m) (addAbove m) (pendingD m) (confirmDel m)
    (textinput m) (ticking m) (width m) (height m).
Definition setCursor (c : Z) (m : model) : model :=
  mkModel (store m) c (adding m) (addAbove m) (pendingD m) (confirmDel m)
    (textinput m) (ticking m) (width m) (height m).
Definition setAdding (b above : bool) (m : model) : model :=
  mkModel (store m) (cursor m) b above (pendingD m) (confirmDel m)
    (textinput m) (ticking m) (width m) (height m).
Definition setPendingD (b : bool) (m : model) : model :=
  mkModel (store m) (cursor m) (adding m) (addAbove m) b (confirmDel m)
    (textinput m) (ticking m) (width m) (height m).
Definition setConfirmDel (b : bool) (m : model) : model :=
  mkModel (store m) (cursor m) (adding m) (addAbove m) (pendingD m) b
    (textinput m) (ticking m) (width m) (height m).
Definition setTextinput (t : TextInput L) (m : model) : model :=
  mkModel (store m) (cursor m) (adding m) (addAbove m) (pendingD m) (confirmDel m)
    t (ticking m) (width m) (height m).
Definition setTicking (b : bool) (m : model) : model :=
  mkModel (store m) (cursor m) (adding m) (addAbove m) (pendingD m) (confirmDel m)
    (textinput m) b (width m) (height m).
Definition setSize (w h : Z) (m : model) : model :=
  mkModel (store m) (cursor m) (adding m) (addAbove m) (pendingD m) (confirmDel m)
    (textinput m) (ticking m) w h.

(** [len(m.store.Streams)] *)
Definition len (m : model) : Z := Z.of_nat (length (Streams (store m))).

(** Running [k] on the result of [c] unless [c] panicked. *)
Definition andThen {A B} (c : IO (option A)) (k : A -> IO (option B)) : IO (option B) :=
  do r <- c;
  match r with
  | Some a => k a
  | None => ret None
  end.

(** [initialModel] *)
Definition initialModel (s : Store) : IO model :=
  do s' <- SortStreams (SliceStable L) s;
  ret (mkModel s' 0 false false false false (tiNew L) (HasActive s') 0 0).

(** [Init] *)
Definition Init (m : model) : Cmd :=
  if ticking m then tickCmd else CmdNil.

(** [cursorID] *)
Definition cursorID (m : model) : option string :=
  if (len m =? 0) || (len m <=? cursor m) then Some ""
  else ID <$> index (Streams (store m)) (cursor m).

(** [sortAndFollow] *)
Definition sortAndFollow (m : model) : IO (option model) :=
  match cursorID m with
  | None => ret None
  | Some id =>
      do s' <- SortStreams (SliceStable L) (store m);
      let m1 := setStore s' m in
      ret (Some (match findID id (Streams s') with
                 | Some i => setCursor (Z.of_nat i) m1
                 | None => m1
                 end))
  end.

(** [updateAdding] *)
Definition updateAdding (key : string) (m : model) : IO (option (model * Cmd)) :=
  if String.eqb key "enter" then
    let name := TrimSpace L (tiValue L (textinput m)) in
    let finish (m : model) : IO (option (model * Cmd)) :=
      ret (Some (setTextinput (tiReset L (textinput m)) (setAdding false (addAbove m) m),
                 CmdNil)) in
    if negb (String.eqb name "") then
      let pos := if addAbove m then cursor m else cursor m + 1 in
      let pos := if len m <=? pos then len m else pos in
      do s1 <- AddStream name pos (store m);
      let m1 := setStore s1 m in
      let pos := if len m1 <=? pos then len m1 - 1 else pos in
      andThen (sortAndFollow (setCursor pos m1)) (fun m2 =>
        do _ <- Save (store m2);
        finish m2)
    else finish m
  else if String.eqb key "esc" then
    ret (Some (setTextinput (tiReset L (textinput m)) (setAdding false (addAbove m) m),
               CmdNil))
  else
    let (t, c) := tiUpdate L (KeyMsg key) (textinput m) in
    ret (Some (setTextinput t m, CmdOf c)).

(** [performDelete]: the store goes through [performDelete] above, then
    the cursor and the ticking flag are adjusted. *)
Definition performDelete (m : model) : IO (option (model * Cmd)) :=
  if len m =? 0 then ret (Some (m, CmdNil))
  else if cursor m <? 0 then ret None
  else
    andThen (performDelete (SliceStable L) (Z.to_nat (cursor m)) (store m))
      (fun s' =>
         let m1 := setStore s' m in
         let m2 := if (len m1 <=? cursor m1) && (0 <? cursor m1)
                   then setCursor (cursor m1 - 1) m1 else m1 in
         let m3 := if negb (HasActive (store m2)) then setTicking false m2 else m2 in
         ret (Some (m3, CmdNil))).

(** [updateConfirmDel] *)
Definition updateConfirmDel (key : string) (m : model) : IO (option (model * Cmd)) :=
  if String.eqb key "y" then performDelete (setConfirmDel false m)
  else ret (Some (setConfirmDel false m, CmdNil)).

(** The end of the cases "enter" and "c" of [updateNormal]. *)
Definition startTicking (m : model) (stopWhenIdle : bool) : model * Cmd :=
  if negb (ticking m) && HasActive (store m) then (setTicking true m, tickCmd)
  else if stopWhenIdle && negb (HasActive (store m)) then (setTicking false m, CmdNil)
  else (m, CmdNil).

(** [updateNormal] *)
Definition updateNormal (key : string) (m : model) : IO (option (model * Cmd)) :=
  let m := if negb (String.eqb key "d") then setPendingD false m else m in
  if keyIn key ["q"; "ctrl+c"] then
    do s1 <- StopAll (store m);
    do _ <- Save s1;
    ret (Some (setStore s1 m, Quit))
  else if keyIn key ["j"; "down"; "ctrl+j"] then
    let m := if 0 <? len m then setCursor (Z.rem (cursor m + 1) (len m)) m else m in
    ret (Some (setPendingD false m, CmdNil))
  else if keyIn key ["k"; "up"; "ctrl+k"] then
    let m := if 0 <? len m
             then setCursor (Z.rem (cursor m - 1 + len m) (len m)) m else m in
    ret (Some (setPendingD false m, CmdNil))
  else if String.eqb key "o" then
    ret (Some (setTextinput (tiFocus L (textinput m)) (setAdding true false m), Blink))
  else if String.eqb key "O" then
    ret (Some (setTextinput (tiFocus L (textinput m)) (setAdding true true m), Blink))
  else if keyIn key ["enter"; " "] then
    if len m =? 0 then ret (Some (m, CmdNil))
    else
      match index (Streams (store m)) (cursor m) with
      | None => ret None
      | Some st =>
          do s1 <- ToggleStream (ID st) (store m);
          andThen (sortAndFollow (setStore s1 m)) (fun m1 =>
            do _ <- Save (store m1);
            ret (Some (startTicking m1 true)))
      end
  else if String.eqb key "s" then
    do s1 <- StopAll (store m);
    andThen (sortAndFollow (setStore s1 m)) (fun m1 =>
      do _ <- Save (store m1);
      ret (Some (setTicking false m1, CmdNil)))
  else if String.eqb key "c" then
    do s1 <- ContinueAll (store m);
    andThen (sortAndFollow (setStore s1 m)) (fun m1 =>
      do _ <- Save (store m1);
      ret (Some (startTicking m1 false)))
  else if String.eqb key "d" then
    if negb (pendingD m) then ret (Some (setPendingD true m, CmdNil))
    else
      let m := setPendingD false m in
      if len m =? 0 then ret (Some (m, CmdNil))
      else
        match index (Streams (store m)) (cursor m) with
        | None => ret None
        | Some st =>
            do e <- Elapsed st;
            if 0 <? e then ret (Some (setConfirmDel true m, CmdNil))
            else performDelete m
        end
  else
    match keyIndex key ["1"; "2"; "3"; "4"; "5"; "6"; "7"; "8"; "9"] with
    | Some n =>
        ret (Some ((if n <? len m then setCursor n m else m), CmdNil))
    | None => ret (Some (m, CmdNil))
    end.

(** [Update] *)
Definition Update (msg : Msg) (m : model) : IO (option (model * Cmd)) :=
  match msg with
  | WindowSizeMsg w h => ret (Some (setSize w h m, CmdNil))
  | tickMsg =>
      if HasActive (store m) then
        andThen (sortAndFollow m) (fun m1 => ret (Some (m1, tickCmd)))
      else ret (Some (setTicking false m, CmdNil))
  | KeyMsg key =>
      if confirmDel m then updateConfirmDel key m
      else if adding m then updateAdding key m
      else updateNormal key m
  | OtherMsg => ret (Some (m, CmdNil))
  end.

End WithLibrary.

Arguments store {L} m.
Arguments cursor {L} m.
Arguments adding {L} m.
Arguments addAbove {L} m.
Arguments pendingD {L} m.
Arguments confirmDel {L} m.
Arguments textinput {L} m.
Arguments ticking {L} m.
Arguments width {L} m.
Arguments height {L} m.
Arguments setStore {L} s m.
Arguments setCursor {L} c m.
Arguments setAdding {L} b above m.
Arguments setPendingD {L} b m.
Arguments setConfirmDel {L} b m.
Arguments setTextinput {L} t m.
Arguments setTicking {L} b m.
Arguments setSize {L} w h m.
Arguments len {L} m.
Arguments Init {L} m.
Arguments cursorID {L} m.
Arguments sortAndFollow {L} m.
Arguments updateAdding {L} key m.
Arguments performDelete {L} m.
Arguments updateConfirmDel {L} key m.
Arguments startTicking {L} m stopWhenIdle.
Arguments updateNormal {L} key m.
Arguments Update {L} msg m.
Arguments CmdNil {L}.
Arguments tickCmd {L}.
Arguments Quit {L}.
Arguments Blink {L}.
Arguments CmdOf {L} c.
End Main.

(** [formatDuration]: the hours, and the minutes and seconds on two
    digits at least, as ["%dh %02dm %02ds"] prints them. *)
Definition pad2 (n : Z) : string :=
  if (0 <=? n) && (n <? 10) then ("0" +:+ pretty n)%string else pretty n.

Definition formatDuration (total : Z) : string :=
  let s := Time.wholeSeconds total in
  let h := Z.quot s 3600 in
  let min := Z.quot (Z.rem s 3600) 60 in
  let sec := Z.rem s 60 in
  (pretty h +:+ "h " +:+ pad2 min +:+ "m " +:+ pad2 sec +:+ "s")%string.

(** * Vocabulary of the statements *)

(** ** Sessions that are open or closed *)

Definition isOpen (x : Session) : bool :=
  match End x with
  | None => true
  | Some _ => false
  end.

(** [closed_at now old new]: the most recent open session of [old] has its
    end set to [now] and nothing else changes; a log without an open
    session stays as it is. *)
Inductive closed_at (now : Z) : list Session -> list Session -> Prop :=
| closed_last pre x post :
    End x = None ->
    Forall (fun y => isOpen y = false) post ->
    closed_at now (pre ++ x :: post) (pre ++ mkSession (Start x) (Some now) :: post)
| closed_none l :
    Forall (fun y => isOpen y = false) l ->
    closed_at now l l.

(** ** The flush, as a function of the instant read *)

(** What [flushStream] makes of a stream when [time.Now] returns [now]. *)
Definition flushAt (now : Z) (st : Stream) : Stream :=
  match StartedAt st with
  | Some t0 =>
      mkStream (ID st) (Name st)
        (Int64.add (Seconds st) (Time.wholeSeconds (Time.Sub now t0)))
        (Active st) (StartedAt st) (CreatedAt st)
  | None => st
  end.

(** A stream whose flush reads the clock. *)
Definition running (st : Stream) : bool :=
  Active st && match StartedAt st with Some _ => true | None => false end.

(** The number of clock readings a loop that flushes the active streams
    of [l] takes. *)
Fixpoint flushReads (l : list Stream) : nat :=
  match l with
  | [] => O
  | st :: rest => ((if running st then 1 else 0) + flushReads rest)%nat
  end.

(** [shifted k w w']: [w'] is [w] after [k] readings of the clock, and
    nothing else has changed. *)
Definition shifted (k : nat) (w w' : World) : Prop :=
  (forall n, clock w' n = clock w (k + n)%nat) /\
  entropy w' = entropy w /\ faults w' = faults w /\ disk w' = disk w.


(** ** Worlds and stores to run the program on *)

(** A world whose clock gives one reading per second from [t0] on, whose
    random source repeats the byte [b], whose writes succeed and whose
    disk is empty. *)
Definition steady_world (t0 : Z) (b : byte) : World :=
  mkWorld (fun n => t0 + Z.of_nat n * Time.Second) (fun _ => b) (fun _ => false)
    (fun _ => Absent).

Definition empty_store : Store := mkStore [] [] [] "urd.json".

(** The position [AddStream] inserts at: [at_] clamped to [0 .. len]. *)
Definition clampPos (at_ : Z) (len : nat) : nat :=
  Z.to_nat (Z.max 0 (Z.min at_ (Z.of_nat len))).

(** ** How the accumulated seconds of a stream may change *)

(** [flushed st st']: [st] was active, and the seconds of [st'] are those
    of [st] plus the seconds from its start to some instant, as
    [int64(d.Seconds())] converts them. *)
Definition flushed (st st' : Stream) : Prop :=
  Active st = true /\
  exists t0 now, StartedAt st = Some t0 /\
    Seconds st' = Int64.add (Seconds st) (Time.wholeSeconds (Time.Sub now t0)).

(** The seconds are kept, or flushed while the stream goes inactive. *)
Definition banked_on_deactivation (st st' : Stream) : Prop :=
  Seconds st' = Seconds st \/ (flushed st st' /\ Active st' = false).

(** The seconds are kept or flushed, and the stream keeps its activity. *)
Definition banked_in_background (st st' : Stream) : Prop :=
  Active st' = Active st /\ (Seconds st' = Seconds st \/ flushed st st').

(** A store with one stream, active since instant 0, and its session. *)
Definition one_running_store : Store :=
  mkStore [mkStream "0a0b0c" "A" 0 true (Some 0) 0] [mkSession 0 None] [] "urd.json".

(** The number of sessions without an end. *)
Definition openCount (l : list Session) : nat :=
  length (List.filter isOpen l).

(** What is asked of [sort.SliceStable]: it permutes the slice. *)
Definition permutes
    (sort : (Stream -> Stream -> IO bool) -> list Stream -> IO (list Stream)) : Prop :=
  forall less l w, (sort less l w).1 ≡ₚ l.

(** A store with no stream active, one closed session and a remembered id. *)
Definition idle_store : Store :=
  mkStore [mkStream "0a0b0c" "A" 5 false None 0]
    [mkSession 0 (Some 5000000000)] ["0a0b0c"] "urd.json".

(** ** Histories of the store *)

(** The mutations of the engine. *)
Inductive Op :=
| OpAddStream (name : string) (at_ : Z)
| OpDeleteStream (id : string)
| OpToggleStream (id : string)
| OpStopAll
| OpContinueAll.

Definition runOp (o : Op) (s : Store) : IO Store :=
  match o with
  | OpAddStream name at_ => AddStream name at_ s
  | OpDeleteStream id => ret (DeleteStream id s)
  | OpToggleStream id => ToggleStream id s
  | OpStopAll => StopAll s
  | OpContinueAll => ContinueAll s
  end.

Fixpoint runOps (os : list Op) (s : Store) : IO Store :=
  match os with
  | [] => ret s
  | o :: rest => do s1 <- runOp o s; runOps rest s1
  end.

(** The contract [DeleteStream] leaves to its caller: it is not used to
    take away the last active stream (the caller deactivates the stream
    and closes the session itself). The other operations are free. *)
Definition keeps_contract (o : Op) (s : Store) : bool :=
  match o with
  | OpDeleteStream id => eqb (HasActive (DeleteStream id s)) (HasActive s)
  | _ => true
  end.

(** The stores, with the world they live in, that the operations reach
    from the empty store in the world [w0], the contract kept. *)
Inductive reachable (w0 : World) : Store -> World -> Prop :=
| reach_empty path : reachable w0 (mkStore [] [] [] path) w0
| reach_step s w o :
    reachable w0 s w -> keeps_contract o s = true ->
    reachable w0 (runOp o s w).1 (runOp o s w).2.

(** The clock never goes back. *)
Definition monotone (w : World) : Prop :=
  forall n, clock w n <= clock w (S n).

(** [t] lies in the interval of [x]: [[start, end)], unbounded while the
    session is open. *)
Definition covers (x : Session) (t : Z) : Prop :=
  Start x <= t /\ match End x with Some e => t < e | None => True end.

Definition non_overlapping (l : list Session) : Prop :=
  forall i j x y t, i <> j -> l !! i = Some x -> l !! j = Some y ->
    ~ (covers x t /\ covers y t).

(** The log only grows: every session stays at its index with its start,
    and an end that is set stays as it is. *)
Definition log_grows (old new : list Session) : Prop :=
  (length old <= length new)%nat /\
  forall i x, old !! i = Some x ->
    exists y, new !! i = Some y /\ Start y = Start x /\
      forall e, End x = Some e -> End y = Some e.

(** The shape of the log the engine keeps: sessions in order of time
    between [lo] and [hi], each closed one ending before the next starts,
    and only the last one possibly open, which [open_] tells. *)
Fixpoint chain (lo : Z) (l : list Session) (hi : Z) (open_ : bool) : Prop :=
  match l with
  | [] => lo <= hi /\ open_ = false
  | x :: rest =>
      lo <= Start x /\
      match End x with
      | Some e => Start x <= e /\ chain e rest hi open_
      | None => rest = [] /\ Start x <= hi /\ open_ = true
      end
  end.

(** The invariant: the log is a chain up to the next reading of the
    clock, and its last session is open exactly when a stream is active. *)
Definition Inv (s : Store) (w : World) : Prop :=
  monotone w /\ exists lo, chain lo (Sessions s) (clock w 0%nat) (HasActive s).

(** [w'] is [w] after some readings of the clock. *)
Definition later (w w' : World) : Prop :=
  exists k, forall n, clock w' n = clock w (k + n)%nat.

(** What one operation does to the activity of the store and to its log,
    from the world [w] to the world [w']: nothing; or the store goes from
    idle to active and a session is opened at the instant read in [w1]; or
    it goes from active to idle and the current session is closed at the
    instant read in [w1]. *)
Inductive transition (s : Store) (w : World) (s' : Store) (w' : World) : Prop :=
| tr_same :
    Sessions s' = Sessions s -> HasActive s' = HasActive s -> later w w' ->
    transition s w s' w'
| tr_open w1 :
    HasActive s = false -> HasActive s' = true -> later w w1 ->
    Sessions s' = Sessions s ++ [mkSession (clock w1 0%nat) None] ->
    w' = (timeNow w1).2 ->
    transition s w s' w'
| tr_close w1 :
    HasActive s = true -> HasActive s' = false -> later w w1 ->
    Sessions s' = closeLoop (clock w1 0%nat) (length (Sessions s)) (Sessions s) ->
    w' = (timeNow w1).2 ->
    transition s w s' w'.

(** ** Stores on disk *)

(** The seconds of every stream fit the [int64] they are stored in. *)
Definition wellTyped (s : Store) : Prop :=
  Forall (fun st => Int64.inRange (Seconds st) = true) (Streams s).

(** The accumulated seconds of the streams, added up as integers. *)
Definition sumSeconds (l : list Stream) : Z :=
  foldr (fun st acc => Seconds st + acc) 0 l.

(** The store of [TestValidateInconsistentData]: one minute of stream
    time against a session of two hours. *)
Definition inconsistent_store : Store :=
  mkStore [mkStream "" "" 60 false None Time.zero]
    [mkSession 0 (Some (7200 * Time.Second))] [] "urd.json".

(** The store of [TestValidateConsistentData]: two hours of stream time
    against a session of one hour. *)
Definition consistent_store : Store :=
  mkStore [mkStream "" "" 7200 false None Time.zero]
    [mkSession 0 (Some (3600 * Time.Second))] [] "urd.json".

(** ** The scenarios of store_test.go *)

(** A world like [steady_world] whose random source counts 0, 1, 2, ...,
    so that the ids drawn are distinct. *)
Definition counting_world : World :=
  mkWorld (fun n => Z.of_nat n * Time.Second)
    (fun n => default x00 (Byte.of_N (N.of_nat n mod 256)))
    (fun _ => false) (fun _ => Absent).

(** [s.Streams[i].ID] *)
Definition idAt (i : nat) (s : Store) : string :=
  default "" (ID <$> Streams s !! i).

(** [TestAddStreamPositions] *)
Definition scenario_positions : IO Store :=
  do s <- AddStream "A" 0 empty_store;
  do s <- AddStream "B" 0 s;
  AddStream "C" 1 s.

(** [TestAddStreamOutOfBounds] *)
Definition scenario_out_of_bounds : IO Store :=
  do s <- AddStream "A" 100 empty_store;
  AddStream "B" (-5) s.

(** [TestMultipleActiveStreams]: the store after both streams are started,
    after the first is stopped, and after the second is stopped. *)
Definition scenario_two_streams : IO (Store * Store * Store) :=
  do s <- AddStream "A" 0 empty_store;
  do s <- AddStream "B" 1 s;
  do s <- ToggleStream (idAt 0 s) s;
  do s1 <- ToggleStream (idAt 1 s) s;
  do s2 <- ToggleStream (idAt 0 s1) s1;
  do s3 <- ToggleStream (idAt 1 s2) s2;
  ret (s1, s2, s3).

(** [TestStopAllRemembersLastActive] and [TestContinueAll]: the store
    after [StopAll] and after [ContinueAll]. *)
Definition scenario_stop_continue : IO (Store * Store) :=
  do s <- AddStream "A" 0 empty_store;
  do s <- AddStream "B" 1 s;
  do s <- AddStream "C" 2 s;
  do s <- ToggleStream (idAt 0 s) s;
  do s <- ToggleStream (idAt 1 s) s;
  do s1 <- StopAll s;
  do s2 <- ContinueAll s1;
  ret (s1, s2).

(** A stream is started, the store is saved as main.go does after every
    key, and the file is loaded again. *)
Definition scenario_save_while_running : IO (option error * Result Store) :=
  do s <- AddStream "A" 0 empty_store;
  do s <- ToggleStream (idAt 0 s) s;
  do e <- Save s;
  do r <- LoadStore (FilePath s);
  ret (e, r).

(** ** Vocabulary of the further properties *)

(** The stream [ToggleStream] leaves in place of [st] when the clock
    reads [now]. *)
Definition toggled (now : Z) (st : Stream) : Stream :=
  if Active st then deactivate (flushAt now st) else activate now st.

(** [i] is the index of the first stream of [l] with the id. *)
Definition first_with_id (id : string) (l : list Stream) (i : nat) : Prop :=
  (exists st, l !! i = Some st /\ ID st = id) /\
  forall j st', (j < i)%nat -> l !! j = Some st' -> ID st' <> id.

(** The stream [ContinueAll] leaves in place of [st], with [last] the ids
    remembered and [now] the instant read. *)
Definition continued (last : list string) (now : Z) (st : Stream) : Stream :=
  if inIDs (idSet last) (ID st) && negb (Active st) then activate now st else st.

(** The ids of the active streams, in their order. *)
Definition activeIDs (l : list Stream) : list string :=
  ID <$> List.filter Active l.

(** A stream has a start exactly when it is active. *)
Definition well_started (st : Stream) : Prop :=
  Active st = true <-> is_Some (StartedAt st).

(** The value of a hexadecimal digit: its place in [hextable]. *)
Fixpoint indexOf (c : Ascii.ascii) (s : string) : N :=
  match s with
  | String.EmptyString => 0%N
  | String.String c' rest => if Ascii.eqb c' c then 0%N else N.succ (indexOf c rest)
  end.

(** The number that two hexadecimal digits write. *)
Definition hexPair (s : string) : N :=
  match s with
  | String.String c1 (String.String c2 _) =>
      (16 * indexOf c1 hextable + indexOf c2 hextable)%N
  | _ => 0%N
  end.

(** Every character of [s] is a digit of [hextable]. *)
Fixpoint allHex (s : string) : bool :=
  match s with
  | String.EmptyString => true
  | String.String c rest => (indexOf c hextable <? 16)%N && allHex rest
  end.

(** ** Vocabulary for main.go *)

(** The cursor is an index of the list, or 0 on the empty list. *)
Definition cursor_ok {L} (m : Main.model L) : Prop :=
  0 <= Main.cursor m /\ (Main.cursor m = 0 \/ Main.cursor m < Main.len m).

(** The cursor is fine, and the tick is running while a stream is active. *)
Definition ui_ok {L} (m : Main.model L) : Prop :=
  cursor_ok m /\ (HasActive (Main.store m) = true -> Main.ticking m = true).

(** The messages of a session of the program, one [Update] after the other. *)
Fixpoint runMsgs {L} (msgs : list Msg) (m : Main.model L) : IO (option (Main.model L)) :=
  match msgs with
  | [] => ret (Some m)
  | msg :: rest => Main.andThen (Main.Update msg m) (fun r => runMsgs rest r.1)
  end.

(** The program from its start: [initialModel], then the messages. *)
Definition runProgram (L : Library) (s : Store) (msgs : list Msg)
  : IO (option (Main.model L)) :=
  do m <- Main.initialModel L s;
  runMsgs msgs m.

(** A library to run the program with: the text input is its text, a key
    typed is appended to it, nothing is trimmed, and the sort is
    [insertionSort]. *)
Definition plain_library : Library :=
  mkLibrary string unit "" (fun t => t) (fun _ => "") (fun t => t)
    (fun msg t => (match msg with KeyMsg k => (t +:+ k)%string | _ => t end, tt))
    (fun t => t) insertionSort.

(** [st.StartedAt = &now], the stream staying as it is otherwise. *)
Definition restarted (now : Z) (st : Stream) : Stream :=
  mkStream (ID st) (Name st) (Seconds st) (Active st) (Some now) (CreatedAt st).

(** A world whose clock moves by 0.3 s from one reading to the next. *)
Definition brisk_world : World :=
  mkWorld (fun n => Z.of_nat n * 300000000) (fun _ => x00) (fun _ => false)
    (fun _ => Absent).

(** A stream runs twice, 0.6 s each time; the store is saved and the file
    is loaded again. *)
Definition scenario_short_periods : IO (option error * Result Store) :=
  do s <- AddStream "A" 0 empty_store;
  do s <- ToggleStream (idAt 0 s) s;
  do s <- ToggleStream (idAt 0 s) s;
  do s <- ToggleStream (idAt 0 s) s;
  do s <- ToggleStream (idAt 0 s) s;
  do e <- Save s;
  do r <- LoadStore (FilePath s);
  ret (e, r).

(** ** What a file tells of a store *)

(** The stream a file tells of [st]: [json.Marshal] has replaced by U+FFFD
    every byte of the id and of the name that starts no UTF-8 sequence. *)
Definition writtenStream (st : Stream) : Stream :=
  mkStream (Utf8.toValid (ID st)) (Utf8.toValid (Name st)) (Seconds st) (Active st)
    (StartedAt st) (CreatedAt st).

Definition written (s : Store) : Store :=
  mkStore (writtenStream <$> Streams s) (Sessions s) (Utf8.toValid <$> LastActive s)
    (FilePath s).

(** The ids, the names and the remembered ids are valid UTF-8. *)
Definition validText (s : Store) : Prop :=
  Forall (fun st => Utf8.valid (ID st) /\ Utf8.valid (Name st)) (Streams s) /\
  Forall Utf8.valid (LastActive s).

(** A store whose stream has a name that is no UTF-8: the single byte
    255. *)
Definition badly_named_store : Store :=
  mkStore [mkStream "0a0b0c" (String (Ascii.ascii_of_nat 255) EmptyString) 0 false None 0]
    [] [] "urd.json".

(** A store whose stream was created in the year 10000. *)
Definition late_store : Store :=
  mkStore [mkStream "0a0b0c" "A" 0 false None (253402300800 * Time.Second)]
    [] [] "urd.json".

(** A store with an idle stream before a running one, as no sort leaves
    them. *)
Definition two_streams_store : Store :=
  mkStore [mkStream "aaaaaa" "A" 5 false None 0; mkStream "bbbbbb" "B" 0 true (Some 0) 0]
    [mkSession 0 None] [] "urd.json".

(** A store with three idle streams. *)
Definition three_streams_store : Store :=
  mkStore [mkStream "aaaaaa" "A" 5 false None 0; mkStream "bbbbbb" "B" 7 false None 0;
           mkStream "cccccc" "C" 9 false None 0]
    [mkSession 0 (Some (30 * Time.Second))] [] "urd.json".

(** A store whose accumulated seconds, in nanoseconds, leave [int64]: one
    stream with 9223372037 seconds and one session of a second. *)
Definition overflowing_store : Store :=
  mkStore [mkStream "0a0b0c" "A" 9223372037 false None 0]
    [mkSession 0 (Some Time.Second)] [] "urd.json".

(** Two streams that carry the same id, the first with recorded time. *)
Definition twin_store : Store :=
  mkStore [mkStream "aaaaaa" "A" 5 false None 0; mkStream "aaaaaa" "B" 0 false None 0]
    [] [] "urd.json".

(** The position [updateAdding] passes to [AddStream]: below the cursor,
    or at the cursor when the stream is added above, and the end of the
    list at most. *)
Definition addPosition {L} (m : Main.model L) : Z :=
  let pos := if Main.addAbove m then Main.cursor m else Main.cursor m + 1 in
  if Main.len m <=? pos then Main.len m else pos.

(** * Properties *)

(** ** Running a computation *)

Lemma bind_run {A B} (m : IO A) (k : A -> IO B) (w : World) :
  bind m k w = k (m w).1 (m w).2.
Proof. unfold bind. destruct (m w); reflexivity. Qed.

Lemma ret_run {A} (a : A) (w : World) : ret a w = (a, w).
Proof. reflexivity. Qed.

Ltac run := repeat (rewrite ?bind_run, ?ret_run; cbn [fst snd]).

(** ** Closing the current session *)

Lemma closeLoop_app now n (l post : list Session) :
  (n <= length l)%nat ->
  closeLoop now n (l ++ post) = closeLoop now n l ++ post.
Proof.
  induction n as [|i IH]; intros Hn; [reflexivity|].
  cbn [closeLoop].
  assert (Hi : (i < length l)%nat) by lia.
  rewrite (lookup_app_l l post i Hi).
  destruct (l !! i) as [sess|] eqn:E.
  - destruct (End sess).
    + apply IH. lia.
    + rewrite insert_app_l by exact Hi. reflexivity.
  - apply IH. lia.
Qed.

Lemma closed_at_snoc now l l' x :
  isOpen x = false -> closed_at now l l' -> closed_at now (l ++ [x]) (l' ++ [x]).
Proof.
  intros Hx H. destruct H as [pre y post Hy Hpost | l Hl].
  - rewrite <- !app_assoc. cbn [app].
    apply closed_last; [exact Hy|].
    apply Forall_app. split; [exact Hpost|]. constructor; [exact Hx|constructor].
  - apply closed_none. apply Forall_app. split; [exact Hl|].
    constructor; [exact Hx|constructor].
Qed.

Lemma closeLoop_closed_at now (l : list Session) :
  closed_at now l (closeLoop now (length l) l).
Proof.
  induction l as [|x l IH] using rev_ind.
  - apply closed_none. constructor.
  - rewrite length_app. cbn [length]. rewrite Nat.add_1_r. cbn [closeLoop].
    rewrite lookup_app_r by lia. rewrite Nat.sub_diag. cbn [lookup list_lookup].
    destruct (End x) as [e|] eqn:E.
    + rewrite closeLoop_app by lia.
      apply closed_at_snoc; [|exact IH]. unfold isOpen. rewrite E. reflexivity.
    + rewrite insert_app_r_alt by lia. rewrite Nat.sub_diag. cbn [insert list_insert].
      apply closed_last; [exact E|constructor].
Qed.

Lemma closeCurrentSession_run (s : Store) (w : World) :
  closeCurrentSession s w =
    (setSessions (closeLoop (clock w 0%nat) (length (Sessions s)) (Sessions s)) s,
     (timeNow w).2).
Proof. reflexivity. Qed.

(** ** Streams that are active *)

Lemma HasActive_setSessions l s : HasActive (setSessions l s) = HasActive s.
Proof. reflexivity. Qed.

Lemma HasActive_setLastActive l s : HasActive (setLastActive l s) = HasActive s.
Proof. reflexivity. Qed.

(** C1. [ToggleStream] puts a session boundary exactly where the store
    passes between "no stream active" and "some stream active". With [now]
    the instant [time.Now()] returns once the stream loop is done: from
    none active to some active, a session that starts at [now] and has no
    end is appended; from some active to none, the most recent open
    session gets the end [now]; with some stream active before and after,
    and also with none active before and after, the sessions stay as they
    are. *)
Theorem ToggleStream_session_boundary (id : string) (s : Store) (w : World) :
  let now := clock (toggleLoop id (Streams s) w).2 0%nat in
  let s' := (ToggleStream id s w).1 in
  (HasActive s = false -> HasActive s' = true ->
     Sessions s' = Sessions s ++ [mkSession now None]) /\
  (HasActive s = true -> HasActive s' = false ->
     closed_at now (Sessions s) (Sessions s')) /\
  (HasActive s = true -> HasActive s' = true -> Sessions s' = Sessions s) /\
  (HasActive s = false -> HasActive s' = false -> Sessions s' = Sessions s).
Proof.
  cbv zeta. unfold ToggleStream. run.
  destruct (toggleLoop id (Streams s) w) as [sts w1] eqn:E. cbn [fst snd].
  set (s1 := setStreams sts s).
  destruct (HasActive s) eqn:Hhad, (HasActive s1) eqn:Hhas; cbn [negb andb].
  - run. repeat split; intros; try congruence; reflexivity.
  - rewrite closeCurrentSession_run. cbn [fst].
    rewrite HasActive_setSessions, Hhas.
    repeat split; intros; try congruence.
    cbn [Sessions setSessions]. apply (closeLoop_closed_at (clock w1 0%nat) (Sessions s)).
  - run. unfold timeNow. cbn [fst].
    rewrite HasActive_setSessions, Hhas.
    repeat split; intros; try congruence; reflexivity.
  - run. rewrite Hhas. repeat split; intros; try congruence; reflexivity.
Qed.


Lemma shifted_refl w : shifted 0 w w.
Proof. repeat split. Qed.

Lemma shifted_trans j k w1 w2 w3 :
  shifted j w1 w2 -> shifted k w2 w3 -> shifted (j + k) w1 w3.
Proof.
  intros (H1 & He1 & Hf1 & Hd1) (H2 & He2 & Hf2 & Hd2).
  repeat split; try congruence.
  intros n. rewrite H2, H1. f_equal. lia.
Qed.

Lemma timeNow_shifted w : shifted 1 w (timeNow w).2.
Proof. repeat split. Qed.

Lemma flushStream_run (st : Stream) (w : World) :
  (flushStream st w).1 = flushAt (clock w 0%nat) st /\
  shifted (match StartedAt st with Some _ => 1 | None => 0 end) w (flushStream st w).2.
Proof.
  unfold flushStream, flushAt. destruct (StartedAt st) as [t0|].
  - split; [reflexivity|]. repeat split.
  - split; [reflexivity|apply shifted_refl].
Qed.

Lemma flushStream_active (st : Stream) (w : World) :
  Active st = true ->
  (flushStream st w).1 = flushAt (clock w 0%nat) st /\
  shifted (if running st then 1 else 0) w (flushStream st w).2.
Proof.
  intros Ha. unfold running. rewrite Ha. cbn [andb].
  destruct (flushStream_run st w) as [H1 H2]. split; [exact H1|].
  destruct (StartedAt st); exact H2.
Qed.

(** ** StopAll *)

Lemma stopLoop_spec (l : list Stream) :
  forall (last : list string) (w : World),
    (stopLoop l last w).1.2 = last ++ (ID <$> List.filter Active l) /\
    length (stopLoop l last w).1.1 = length l /\
    (forall i st, l !! i = Some st ->
       (stopLoop l last w).1.1 !! i =
         Some (if Active st
               then deactivate (flushAt (clock w (flushReads (take i l))) st)
               else st)) /\
    shifted (flushReads l) w (stopLoop l last w).2.
Proof.
  induction l as [|st l IH]; intros last w.
  - cbn. rewrite app_nil_r. repeat split. intros i st H. discriminate.
  - cbn [stopLoop flushReads List.filter]. destruct (Active st) eqn:Ha.
    + run.
      destruct (flushStream_active st w Ha) as [Hst Hw].
      destruct (flushStream st w) as [st1 w1]. cbn [fst snd] in *.
      specialize (IH (last ++ [ID st]) w1).
      destruct (stopLoop l (last ++ [ID st]) w1) as [[rest' last'] w2].
      cbn [fst snd] in *. destruct IH as (IH1 & IH2 & IH3 & IH4).
      rewrite ret_run. cbn [fst snd].
      split; [|split; [|split]].
      * rewrite IH1, <- app_assoc. reflexivity.
      * cbn [length]. rewrite IH2. reflexivity.
      * intros [|i] st0 H; cbn in H.
        -- inversion H; subst st0. rewrite Ha. cbn. rewrite Hst. reflexivity.
        -- rewrite lookup_cons, (IH3 i st0 H).
           cbn [take flushReads]. destruct Hw as [Hw _]. rewrite Hw. reflexivity.
      * apply (shifted_trans _ _ _ _ _ Hw IH4).
    + run. specialize (IH last w).
      destruct (stopLoop l last w) as [[rest' last'] w2].
      cbn [fst snd] in *. destruct IH as (IH1 & IH2 & IH3 & IH4).
      assert (Hr : running st = false) by (unfold running; rewrite Ha; reflexivity).
      rewrite Hr, ret_run. cbn [Nat.add fst snd].
      split; [|split; [|split]].
      * exact IH1.
      * cbn [length]. rewrite IH2. reflexivity.
      * intros [|i] st0 H; cbn in H.
        -- inversion H; subst st0. rewrite Ha. reflexivity.
        -- rewrite lookup_cons, (IH3 i st0 H).
           cbn [take flushReads]. rewrite Hr. reflexivity.
      * exact IH4.
Qed.






Lemma stopLoop_idle (l : list Stream) :
  existsb Active l = false ->
  forall last w, stopLoop l last w = ((l, last), w).
Proof.
  induction l as [|st l IH]; intros H last w; [reflexivity|].
  cbn in H. apply orb_false_iff in H as [Ha Hl].
  cbn [stopLoop]. rewrite Ha. run. rewrite (IH Hl). reflexivity.
Qed.

Lemma store_eta (s : Store) :
  mkStore (Streams s) (Sessions s) (LastActive s) (FilePath s) = s.
Proof. destruct s; reflexivity. Qed.

(** C10. With no stream active, [StopAll] still empties [LastActive] and
    changes nothing else (neither the streams, nor the sessions, nor the
    world); [ContinueAll] after it is then a no-op. *)
Theorem StopAll_idle_clears (s : Store) (w : World) :
  HasActive s = false ->
  StopAll s w = (setLastActive [] s, w) /\
  LastActive (StopAll s w).1 = [] /\
  Streams (StopAll s w).1 = Streams s /\
  Sessions (StopAll s w).1 = Sessions s /\
  forall w', ContinueAll (StopAll s w).1 w' = ((StopAll s w).1, w').
Proof.
  intros H.
  assert (E : StopAll s w = (setLastActive [] s, w)).
  { unfold StopAll. rewrite H. run. unfold HasActive in H.
    rewrite (stopLoop_idle _ H). reflexivity. }
  rewrite E. cbn [fst]. repeat split.
Qed.

(** The store [idle_store] has no active stream. *)
Lemma StopAll_idle_clears_witness :
  LastActive (StopAll idle_store (steady_world 0 x00)).1 = [] /\
  Sessions (StopAll idle_store (steady_world 0 x00)).1 = Sessions idle_store.
Proof.
  destruct (StopAll_idle_clears idle_store (steady_world 0 x00) eq_refl)
    as (_ & H1 & _ & H2 & _).
  split; [exact H1|exact H2].
Defined.

(** ** ContinueAll *)

Lemma idSet_lookup (l : list string) (k : string) :
  forall m : gmap string bool,
    foldl (fun m id => <[id := true]> m) m l !! k =
      if decide (k ∈ l) then Some true else m !! k.
Proof.
  induction l as [|x l IH]; intros m; cbn [foldl].
  - destruct (decide (k ∈ [])) as [H|H]; [|reflexivity].
    apply elem_of_nil in H. destruct H.
  - rewrite IH. destruct (decide (k ∈ l)) as [Hl|Hl].
    + rewrite decide_True by (apply elem_of_cons; right; exact Hl). reflexivity.
    + destruct (decide (k = x)) as [->|Hne].
      * rewrite lookup_insert_eq, decide_True by (apply elem_of_cons; left; reflexivity).
        reflexivity.
      * rewrite lookup_insert_ne by congruence.
        rewrite decide_False; [reflexivity|].
        intros H. apply elem_of_cons in H as [H|H]; [exact (Hne H)|exact (Hl H)].
Qed.

Lemma inIDs_idSet (l : list string) (k : string) :
  inIDs (idSet l) k = bool_decide (k ∈ l).
Proof.
  unfold inIDs, idSet. rewrite idSet_lookup, lookup_empty.
  destruct (decide (k ∈ l)) as [H|H].
  - rewrite bool_decide_eq_true_2 by exact H. reflexivity.
  - rewrite bool_decide_eq_false_2 by exact H. reflexivity.
Qed.

(** C7. [ContinueAll] changes nothing when [LastActive] is empty.
    Otherwise, with [now] the instant it reads once: a stream whose id is
    in [LastActive] and which is not active becomes active with start
    [now] (its other fields kept), every other stream stays as it is; a
    session that starts at [now] and has no end is appended exactly when
    no stream was active before and one is after; and [LastActive] is
    emptied. *)
Theorem ContinueAll_spec (s : Store) (w : World) :
  (LastActive s = [] -> ContinueAll s w = (s, w)) /\
  (LastActive s <> [] ->
     let now := clock w 0%nat in
     let s' := (ContinueAll s w).1 in
     length (Streams s') = length (Streams s) /\
     (forall i st, Streams s !! i = Some st ->
        exists st', Streams s' !! i = Some st' /\
          if bool_decide (ID st ∈ LastActive s) && negb (Active st)
          then Active st' = true /\ StartedAt st' = Some now /\
               ID st' = ID st /\ Name st' = Name st /\
               Seconds st' = Seconds st /\ CreatedAt st' = CreatedAt st
          else st' = st) /\
     Sessions s' =
       (if negb (HasActive s) && HasActive s'
        then Sessions s ++ [mkSession now None]
        else Sessions s) /\
     LastActive s' = [] /\
     FilePath s' = FilePath s).
Proof.
  split.
  - intros H. unfold ContinueAll. rewrite H. reflexivity.
  - intros H. cbv zeta. unfold ContinueAll.
    destruct (LastActive s) as [|id0 ids] eqn:E; [congruence|]. cbn [length Nat.eqb].
    rewrite bind_run. cbn [timeNow fst snd]. rewrite ret_run. cbn [fst].
    set (f := fun st : Stream =>
                if inIDs (idSet (id0 :: ids)) (ID st) && negb (Active st)
                then activate (clock w 0%nat) st else st).
    set (s1 := setStreams (f <$> Streams s) s).
    assert (Hlen : length (Streams s1) = length (Streams s))
      by (cbn; apply length_fmap).
    assert (Hst : forall i st, Streams s !! i = Some st ->
              Streams s1 !! i = Some (f st)).
    { intros i st Hi. cbn. rewrite list_lookup_fmap, Hi. reflexivity. }
    destruct (negb (HasActive s) && HasActive s1) eqn:Hb;
      cbn [Streams Sessions LastActive FilePath setLastActive setSessions];
      rewrite ?HasActive_setLastActive, ?HasActive_setSessions, ?Hb.
    all: split; [exact Hlen|]; split; [|repeat split].
    all: intros i st Hi; exists (f st); split; [apply Hst, Hi|].
    all: unfold f; rewrite inIDs_idSet;
      destruct (bool_decide (ID st ∈ id0 :: ids) && negb (Active st));
      repeat split.
Qed.

(** ** AddStream *)

Lemma insert_take_drop {A} (l : list A) (i : nat) (x : A) :
  (i < length l)%nat ->
  <[i := x]> (take (S i) l ++ drop i l) = take i l ++ x :: drop i l.
Proof.
  intros Hi. destruct (lookup_lt_is_Some_2 l i Hi) as [y Hy].
  rewrite (take_S_r l i y Hy).
  assert (Hlen : length (take i l) = i) by (rewrite length_take; lia).
  rewrite insert_app_l by (rewrite length_app, Hlen; cbn; lia).
  rewrite insert_app_r_alt by lia.
  rewrite Hlen, Nat.sub_diag. cbn [insert list_insert].
  rewrite <- app_assoc. reflexivity.
Qed.

Lemma newID_run (w : World) :
  (newID w).1 = EncodeToString [entropy w 0%nat; entropy w 1%nat; entropy w 2%nat] /\
  clock (newID w).2 = clock w /\ faults (newID w).2 = faults w /\
  disk (newID w).2 = disk w.
Proof. repeat split. Qed.

(** The stream [AddStream] makes in the world [w]. *)
Lemma AddStream_run (name : string) (at_ : Z) (s : Store) (w : World) :
  let st := mkStream (newID w).1 name 0 false None (clock w 0%nat) in
  let i := clampPos at_ (length (Streams s)) in
  (AddStream name at_ s w).1 =
    setStreams (take i (Streams s) ++ st :: drop i (Streams s)) s /\
  shifted 1 (newID w).2 (AddStream name at_ s w).2.
Proof.
  cbv zeta. unfold AddStream, clampPos. rewrite !bind_run.
  destruct (newID_run w) as (_ & Hc & _). cbn [timeNow fst snd]. rewrite Hc.
  set (st := mkStream (newID w).1 name 0 false None (clock w 0%nat)).
  set (n := length (Streams s)).
  destruct (at_ <? 0) eqn:Hneg.
  - apply Z.ltb_lt in Hneg.
    replace (Z.to_nat (Z.max 0 (Z.min at_ (Z.of_nat n)))) with 0%nat by lia.
    destruct (Z.of_nat n <=? 0) eqn:Hn; rewrite ret_run; cbn [fst snd].
    + apply Z.leb_le in Hn. assert (Hnil : Streams s = []).
      { subst n. destruct (Streams s); [reflexivity|cbn in Hn; lia]. }
      rewrite Hnil. split; [reflexivity|repeat split].
    + apply Z.leb_gt in Hn. split; [|repeat split].
      change (Z.to_nat 0) with 0%nat.
      rewrite insert_take_drop by (subst n; lia). reflexivity.
  - apply Z.ltb_ge in Hneg.
    destruct (Z.of_nat n <=? at_) eqn:Hn; rewrite ret_run; cbn [fst snd].
    + apply Z.leb_le in Hn.
      replace (Z.to_nat (Z.max 0 (Z.min at_ (Z.of_nat n)))) with n by lia.
      subst n. rewrite take_ge, drop_ge by lia. split; [reflexivity|repeat split].
    + apply Z.leb_gt in Hn.
      replace (Z.to_nat (Z.max 0 (Z.min at_ (Z.of_nat n)))) with (Z.to_nat at_) by lia.
      rewrite insert_take_drop by (subst n; lia). split; [reflexivity|repeat split].
Qed.

(** C9, amended. [AddStream] makes a stream with zero seconds, inactive,
    without start, created at the instant read, whose id is the
    hexadecimal text of three bytes of the random source, and inserts it
    at the position clamped to [0 .. len]: at index 0 for a negative
    position, at the end for a position at or past [len]; the streams
    present before keep their order around it, and nothing else in the
    store changes. The id is new when no stream of the store carries that
    text: ids that were pairwise distinct then stay so. *)
Theorem AddStream_spec (name : string) (at_ : Z) (s : Store) (w : World) :
  let st := mkStream (EncodeToString [entropy w 0%nat; entropy w 1%nat; entropy w 2%nat])
              name 0 false None (clock w 0%nat) in
  let i := clampPos at_ (length (Streams s)) in
  let s' := (AddStream name at_ s w).1 in
  Streams s' = take i (Streams s) ++ st :: drop i (Streams s) /\
  (i <= length (Streams s))%nat /\
  (at_ < 0 -> Streams s' = st :: Streams s) /\
  (Z.of_nat (length (Streams s)) <= at_ -> Streams s' = Streams s ++ [st]) /\
  Sessions s' = Sessions s /\ LastActive s' = LastActive s /\
  FilePath s' = FilePath s /\
  (ID st ∉ (ID <$> Streams s) -> NoDup (ID <$> Streams s) ->
     NoDup (ID <$> Streams s')).
Proof.
  cbv zeta. destruct (AddStream_run name at_ s w) as [E _]. cbv zeta in E.
  rewrite E. destruct (newID_run w) as (-> & _).
  cbn [Streams Sessions LastActive FilePath setStreams].
  set (st := mkStream _ name 0 false None (clock w 0%nat)).
  split; [reflexivity|]. split; [unfold clampPos; lia|].
  split; [|split; [|repeat split]].
  - intros H. unfold clampPos.
    replace (Z.to_nat _) with 0%nat by lia. rewrite take_0, drop_0. reflexivity.
  - intros H. unfold clampPos.
    replace (Z.to_nat _) with (length (Streams s)) by lia.
    rewrite take_ge, drop_ge by lia. reflexivity.
  - intros Hfresh Hnd.
    rewrite fmap_app, fmap_cons.
    rewrite <- (take_drop (clampPos at_ (length (Streams s))) (Streams s)) in Hfresh, Hnd.
    rewrite fmap_app in Hfresh, Hnd.
    apply NoDup_app in Hnd as (Hn1 & Hn2 & Hn3).
    apply NoDup_app. split; [exact Hn1|]. split.
    + intros x Hx Hin. apply elem_of_cons in Hin as [->|Hin].
      * apply Hfresh. apply elem_of_app. left. exact Hx.
      * exact (Hn2 x Hx Hin).
    + apply NoDup_cons. split; [|exact Hn3].
      intros Hin. apply Hfresh. apply elem_of_app. right. exact Hin.
Qed.

(** C9 as stated fails: from the empty store, two calls of [AddStream]
    in a world whose random source returns the same three bytes twice give
    two streams with the same id. *)
Lemma AddStream_id_collision :
  ID <$> Streams
    ((do s1 <- AddStream "A" 0 empty_store; AddStream "B" 0 s1)
       (steady_world 0 x00)).1
  = ["000000"; "000000"].
Proof. vm_compute. reflexivity. Qed.

(** ** Accumulated seconds *)

Lemma flushAt_seconds now st :
  Active st = true ->
  Seconds (flushAt now st) = Seconds st \/ flushed st (flushAt now st).
Proof.
  intros Ha. unfold flushAt, flushed. destruct (StartedAt st) as [t0|] eqn:E.
  - right. split; [exact Ha|]. exists t0, now. split; reflexivity.
  - left. reflexivity.
Qed.

Lemma Forall2_diag {A} (R : A -> A -> Prop) (l : list A) :
  (forall x, R x x) -> Forall2 R l l.
Proof. intros H. induction l; constructor; auto. Qed.

Lemma banked_on_deactivation_flush now st :
  Active st = true -> banked_on_deactivation st (deactivate (flushAt now st)).
Proof.
  intros Ha. unfold banked_on_deactivation.
  destruct (flushAt_seconds now st Ha) as [H|(H1 & t0 & n & H2 & H3)].
  - left. exact H.
  - right. split; [|reflexivity]. split; [exact Ha|]. exists t0, n. split; assumption.
Qed.

Lemma toggleLoop_seconds (id : string) (l : list Stream) :
  forall w, Forall2 banked_on_deactivation l (toggleLoop id l w).1.
Proof.
  induction l as [|st l IH]; intros w; cbn [toggleLoop]; [constructor|].
  destruct (String.eqb (ID st) id).
  - destruct (Active st) eqn:Ha; run.
    + destruct (flushStream_run st w) as [-> _].
      constructor; [apply banked_on_deactivation_flush, Ha|].
      apply Forall2_diag. intros x. left. reflexivity.
    + constructor; [left; reflexivity|].
      apply Forall2_diag. intros x. left. reflexivity.
  - run. constructor; [left; reflexivity|apply IH].
Qed.

Lemma backgroundLoop_seconds (now : Z) (l : list Stream) :
  forall w, Forall2 banked_in_background l (backgroundLoop now l w).1.
Proof.
  induction l as [|st l IH]; intros w; cbn [backgroundLoop]; [constructor|].
  destruct (Active st) eqn:Ha; run.
  - destruct (flushStream_run st w) as [-> _].
    constructor; [|apply IH].
    split; [cbn; unfold flushAt; destruct (StartedAt st); reflexivity|].
    destruct (flushAt_seconds (clock w 0%nat) st Ha) as [H|H]; [left|right]; exact H.
  - constructor; [|apply IH]. split; [reflexivity|left; reflexivity].
Qed.

Lemma DeleteStream_streams (id : string) (s : Store) :
  Streams (DeleteStream id s) = Streams s \/
  exists i, Streams (DeleteStream id s) = delete i (Streams s).
Proof.
  unfold DeleteStream. destruct (findID id (Streams s)) as [i|]; [|left; reflexivity].
  right. exists i. cbn. rewrite delete_take_drop. reflexivity.
Qed.

Lemma DeleteStream_sublist (id : string) (s : Store) :
  Streams (DeleteStream id s) `sublist_of` Streams s.
Proof.
  destruct (DeleteStream_streams id s) as [->|[i ->]]; [reflexivity|apply sublist_delete].
Qed.

Lemma DeleteStream_sessions (id : string) (s : Store) :
  Sessions (DeleteStream id s) = Sessions s.
Proof. unfold DeleteStream. destruct (findID id (Streams s)); reflexivity. Qed.

Lemma StopAll_streams (s : Store) (w : World) :
  Streams (StopAll s w).1 = (stopLoop (Streams s) [] w).1.1.
Proof.
  unfold StopAll. run. destruct (stopLoop (Streams s) [] w) as [[sts last] w1].
  cbn [fst snd]. destruct (HasActive s); reflexivity.
Qed.

Lemma ContinueAll_seconds (s : Store) (w : World) :
  Seconds <$> Streams (ContinueAll s w).1 = Seconds <$> Streams s.
Proof.
  unfold ContinueAll. destruct (Nat.eqb (length (LastActive s)) 0); [reflexivity|].
  rewrite bind_run. cbn [timeNow fst snd]. rewrite ret_run. cbn [fst].
  match goal with
  | |- context [if ?b then _ else _] => destruct b
  end; cbn [Streams setLastActive setSessions setStreams].
  all: rewrite <- list_fmap_compose; apply list_fmap_ext; intros i st _; cbn.
  all: destruct (inIDs _ _ && negb _); reflexivity.
Qed.

(** ** Deleting a stream *)

Lemma Forall_inactive_HasActive (l : list Stream) :
  Forall (fun x => Active x = false) l <-> existsb Active l = false.
Proof.
  induction l as [|x l IH]; cbn.
  - split; [reflexivity|constructor].
  - rewrite orb_false_iff, Forall_cons, IH. reflexivity.
Qed.

Lemma findID_Some (id : string) (l : list Stream) (i : nat) (x : Stream) :
  l !! i = Some x -> ID x = id ->
  exists j, findID id l = Some j /\ (j < length l)%nat.
Proof.
  revert i. induction l as [|y l IH]; intros i Hi Hid; [discriminate|].
  cbn [findID]. destruct (String.eqb (ID y) id) eqn:E.
  - exists 0%nat. split; [reflexivity|cbn; lia].
  - destruct i as [|i].
    + cbn in Hi. inversion Hi; subst y. rewrite Hid, String.eqb_refl in E. discriminate.
    + cbn in Hi. destruct (IH i Hi Hid) as (j & -> & Hj).
      exists (S j). split; [reflexivity|cbn; lia].
Qed.

Lemma openCount_app l1 l2 : openCount (l1 ++ l2) = (openCount l1 + openCount l2)%nat.
Proof. unfold openCount. rewrite List.filter_app, length_app. reflexivity. Qed.

Lemma openCount_all_closed l :
  Forall (fun y => isOpen y = false) l -> openCount l = 0%nat.
Proof.
  induction 1 as [|y l Hy _ IH]; [reflexivity|].
  unfold openCount in *. cbn [List.filter]. rewrite Hy. exact IH.
Qed.

Lemma openCount_0_all_closed l :
  openCount l = 0%nat -> Forall (fun y => isOpen y = false) l.
Proof.
  induction l as [|y l IH]; [constructor|].
  unfold openCount in *. cbn [List.filter]. destruct (isOpen y) eqn:E.
  - cbn. discriminate.
  - intros H. constructor; [exact E|apply IH, H].
Qed.

(** Closing takes one session out of the open ones, if there is one. *)
Lemma closed_at_openCount now l l' :
  closed_at now l l' -> openCount l' = pred (openCount l).
Proof.
  intros [pre x post Hx Hpost | l0 Hl].
  - change (x :: post) with ([x] ++ post).
    change (mkSession (Start x) (Some now) :: post)
      with ([mkSession (Start x) (Some now)] ++ post).
    rewrite !openCount_app, (openCount_all_closed post Hpost).
    assert (E1 : openCount [x] = 1%nat).
    { unfold openCount, isOpen. cbn [List.filter]. rewrite Hx. reflexivity. }
    assert (E2 : openCount [mkSession (Start x) (Some now)] = 0%nat) by reflexivity.
    rewrite E1, E2. lia.
  - rewrite (openCount_all_closed _ Hl). reflexivity.
Qed.

Lemma insertLeft_perm less x rp :
  forall w, (insertLeft less x rp w).1 ≡ₚ x :: rp.
Proof.
  induction rp as [|y rp IH]; intros w; cbn [insertLeft]; [reflexivity|].
  rewrite bind_run. destruct (less x y w) as [[] w1]; cbn [fst snd].
  - run. rewrite IH. apply Permutation_swap.
  - reflexivity.
Qed.

Lemma insertionLoop_perm less l :
  forall rp w, (insertionLoop less l rp w).1 ≡ₚ l ++ rp.
Proof.
  induction l as [|x l IH]; intros rp w; cbn [insertionLoop].
  - cbn. apply reverse_Permutation.
  - rewrite bind_run, IH, insertLeft_perm. cbn. symmetry. apply Permutation_middle.
Qed.

Lemma insertionSort_permutes : permutes insertionSort.
Proof.
  intros less l w. unfold insertionSort.
  rewrite insertionLoop_perm, app_nil_r. reflexivity.
Qed.

(** C5, amended. [DeleteStream] itself never touches the sessions. The
    session is closed by [performDelete], the caller in main.go: when the
    stream under the cursor is active and no other stream is, it ends with
    no stream active, one stream fewer, and the most recent open session
    closed at the instant read; so one session fewer is open, and none is
    when at most one was. *)
Theorem performDelete_closes_session
    (SliceStable : (Stream -> Stream -> IO bool) -> list Stream -> IO (list Stream))
    (cursor : nat) (s : Store) (w : World) (st : Stream) :
  permutes SliceStable ->
  Streams s !! cursor = Some st ->
  Active st = true ->
  (forall j st', j <> cursor -> Streams s !! j = Some st' -> Active st' = false) ->
  (forall id, Sessions (DeleteStream id s) = Sessions s) /\
  exists s', (performDelete SliceStable cursor s w).1 = Some s' /\
    HasActive s' = false /\
    length (Streams s') = pred (length (Streams s)) /\
    closed_at (clock w 0%nat) (Sessions s) (Sessions s') /\
    openCount (Sessions s') = pred (openCount (Sessions s)) /\
    ((openCount (Sessions s) <= 1)%nat ->
       Forall (fun y => isOpen y = false) (Sessions s')).
Proof.
  intros Hperm Hcur Hact Hothers.
  split; [intros id; apply DeleteStream_sessions|].
  unfold performDelete.
  assert (Hlen : (cursor < length (Streams s))%nat)
    by (apply lookup_lt_is_Some_1; eauto).
  destruct (Nat.eqb (length (Streams s)) 0) eqn:E0;
    [apply Nat.eqb_eq in E0; lia|].
  rewrite Hcur, Hact. cbn [andb].
  set (l1 := <[cursor := deactivate st]> (Streams s)).
  set (s1 := setStreams l1 s).
  assert (Hin1 : Forall (fun x => Active x = false) l1).
  { apply Forall_lookup_2. intros i x Hi. subst l1.
    destruct (decide (i = cursor)) as [->|Hne].
    - rewrite list_lookup_insert_eq in Hi by exact Hlen. inversion Hi. reflexivity.
    - rewrite list_lookup_insert_ne in Hi by congruence. exact (Hothers i x Hne Hi). }
  assert (Hfind : exists j, findID (ID st) l1 = Some j /\ (j < length l1)%nat).
  { apply (findID_Some (ID st) l1 cursor (deactivate st)); [|reflexivity].
    subst l1. apply list_lookup_insert_eq. exact Hlen. }
  destruct Hfind as (j & Hj & Hjlen).
  set (s2 := DeleteStream (ID st) s1).
  assert (Hs2 : Streams s2 = delete j l1 /\ Sessions s2 = Sessions s).
  { subst s2. unfold DeleteStream. cbn [Streams s1 setStreams]. rewrite Hj.
    cbn. rewrite delete_take_drop. split; reflexivity. }
  destruct Hs2 as [Hs2 Hs2'].
  assert (Hin2 : HasActive s2 = false).
  { unfold HasActive. rewrite Hs2. apply Forall_inactive_HasActive, Forall_delete, Hin1. }
  rewrite Hin2. cbn [negb]. rewrite !bind_run, closeCurrentSession_run. cbn [fst snd].
  rewrite ret_run. cbn [fst].
  set (s3 := setSessions _ s2).
  unfold SortStreams at 1. rewrite bind_run, ret_run. cbn [fst].
  eexists. split; [reflexivity|].
  assert (Hclose : closed_at (clock w 0%nat) (Sessions s)
                     (closeLoop (clock w 0%nat) (length (Sessions s2)) (Sessions s2))).
  { rewrite Hs2'. apply closeLoop_closed_at. }
  cbn [Sessions Streams setStreams s3 setSessions].
  split; [|split; [|split; [exact Hclose|split]]].
  - unfold HasActive. cbn [Streams setStreams]. apply Forall_inactive_HasActive.
    rewrite (Hperm lessStream (Streams s2) _).
    apply Forall_inactive_HasActive. exact Hin2.
  - rewrite (Permutation_length (Hperm lessStream (Streams s2) _)), Hs2.
    rewrite length_delete by (apply lookup_lt_is_Some_2; exact Hjlen).
    subst l1. rewrite length_insert. lia.
  - apply (closed_at_openCount _ _ _ Hclose).
  - intros Hone. apply openCount_0_all_closed.
    rewrite (closed_at_openCount _ _ _ Hclose). lia.
Qed.

(** [one_running_store], the cursor on its only stream, sorted by insertion. *)
Lemma performDelete_closes_session_witness :
  exists s',
    (performDelete insertionSort 0 one_running_store (steady_world 0 x00)).1 = Some s' /\
    HasActive s' = false /\
    Forall (fun y => isOpen y = false) (Sessions s').
Proof.
  destruct (performDelete_closes_session insertionSort 0 one_running_store
              (steady_world 0 x00) (mkStream "0a0b0c" "A" 0 true (Some 0) 0)
              insertionSort_permutes eq_refl eq_refl) as [_ (s' & H1 & H2 & _ & _ & _ & H3)].
  - intros [|j] st' Hj Hst; [congruence|discriminate].
  - exists s'. split; [exact H1|]. split; [exact H2|]. apply H3. vm_compute. lia.
Defined.

(** C5 as stated fails: [DeleteStream] removes the only active stream and
    leaves its session open, while no stream is active. *)
Lemma DeleteStream_leaves_session_open :
  HasActive one_running_store = true /\
  Streams (DeleteStream "0a0b0c" one_running_store) = [] /\
  HasActive (DeleteStream "0a0b0c" one_running_store) = false /\
  Sessions (DeleteStream "0a0b0c" one_running_store) = [mkSession 0 None].
Proof. vm_compute. repeat split. Qed.

(** ** The shape of the session log *)

Lemma chain_hi lo l hi hi' b : hi <= hi' -> chain lo l hi b -> chain lo l hi' b.
Proof.
  intros Hhi. revert lo. induction l as [|x l IH]; intros lo; cbn [chain].
  - intros [H1 H2]. split; [lia|exact H2].
  - intros [H1 H2]. split; [exact H1|]. destruct (End x) as [e|].
    + destruct H2 as [H2 H3]. split; [exact H2|apply IH, H3].
    + destruct H2 as (H2 & H3 & H4). repeat split; [exact H2|lia|exact H4].
Qed.

Lemma chain_snoc lo l hi t (e : option Z) hi' :
  chain lo l hi false -> hi <= t ->
  match e with Some e' => t <= e' /\ e' <= hi' | None => t <= hi' end ->
  chain lo (l ++ [mkSession t e]) hi' (match e with Some _ => false | None => true end).
Proof.
  intros H Ht He. revert lo H. induction l as [|x l IH]; intros lo; cbn [chain app].
  - intros [H1 _]. split; [cbn; lia|]. cbn [End Start].
    destruct e as [e'|]; cbn [chain]; repeat split; lia.
  - intros [H1 H2]. split; [exact H1|]. destruct (End x) as [ex|].
    + destruct H2 as [H2 H3]. split; [exact H2|apply IH, H3].
    + destruct H2 as (_ & _ & H4). discriminate.
Qed.

Lemma chain_open_inv lo l hi :
  chain lo l hi true ->
  exists pre x, l = pre ++ [x] /\ End x = None /\ Start x <= hi /\
    chain lo pre (Start x) false.
Proof.
  revert lo. induction l as [|x l IH]; intros lo; cbn [chain].
  - intros [_ H]. discriminate.
  - intros [H1 H2]. destruct (End x) as [e|] eqn:E.
    + destruct H2 as [H2 H3]. destruct (IH e H3) as (pre & y & -> & Hy & Hhi & Hpre).
      exists (x :: pre), y. repeat split; [exact Hy|exact Hhi|exact H1|].
      rewrite E. split; [exact H2|exact Hpre].
    + destruct H2 as (-> & H3 & _). exists [], x.
      repeat split; [exact E|exact H3|exact H1].
Qed.

Lemma closeLoop_snoc_open now pre x :
  End x = None ->
  closeLoop now (length (pre ++ [x])) (pre ++ [x]) =
    pre ++ [mkSession (Start x) (Some now)].
Proof.
  intros E. rewrite length_app. cbn [length]. rewrite Nat.add_1_r. cbn [closeLoop].
  rewrite lookup_app_r by lia. rewrite Nat.sub_diag. cbn [lookup list_lookup].
  rewrite E, insert_app_r_alt by lia. rewrite Nat.sub_diag. reflexivity.
Qed.

Lemma chain_close lo l hi now hi' :
  chain lo l hi true -> hi <= now -> now <= hi' ->
  chain lo (closeLoop now (length l) l) hi' false.
Proof.
  intros H Hnow Hhi.
  destruct (chain_open_inv _ _ _ H) as (pre & x & -> & E & Hx & Hpre).
  rewrite (closeLoop_snoc_open now pre x E).
  apply (chain_snoc lo pre (Start x) (Start x) (Some now) hi' Hpre); lia.
Qed.

Lemma chain_openCount lo l hi b :
  chain lo l hi b -> openCount l = if b then 1%nat else 0%nat.
Proof.
  revert lo. induction l as [|x l IH]; intros lo; cbn [chain].
  - intros [_ ->]. reflexivity.
  - intros [_ H]. change (x :: l) with ([x] ++ l). rewrite openCount_app.
    unfold openCount at 1. unfold isOpen. cbn [List.filter].
    destruct (End x) as [e|].
    + destruct H as [_ H]. rewrite (IH e H). reflexivity.
    + destruct H as (-> & _ & ->). reflexivity.
Qed.

Lemma chain_starts lo l hi b :
  chain lo l hi b -> Forall (fun y => lo <= Start y) l.
Proof.
  revert lo. induction l as [|x l IH]; intros lo; cbn [chain]; [constructor|].
  intros [H1 H2]. constructor; [exact H1|]. destruct (End x) as [e|].
  - destruct H2 as [H2 H3]. specialize (IH e H3).
    eapply Forall_impl; [exact IH|]. cbn. intros y Hy. lia.
  - destruct H2 as (-> & _). constructor.
Qed.

Lemma chain_ordered lo l hi b :
  chain lo l hi b ->
  forall i j x y t, (i < j)%nat -> l !! i = Some x -> l !! j = Some y ->
    ~ (covers x t /\ covers y t).
Proof.
  revert lo. induction l as [|z l IH]; intros lo H i j x y t Hij Hi Hj;
    [discriminate|].
  cbn [chain] in H. destruct H as [H1 H2].
  destruct j as [|j]; [lia|]. cbn in Hj.
  destruct (End z) as [e|] eqn:E.
  - destruct H2 as [H2 H3]. destruct i as [|i].
    + cbn in Hi. inversion Hi; subst z. intros [[_ Hx] [Hy _]]. rewrite E in Hx.
      pose proof (Forall_lookup_1 _ _ _ _ (chain_starts _ _ _ _ H3) Hj) as Hs.
      cbn in Hs. lia.
    + cbn in Hi. apply (IH e H3 i j x y t); [lia|exact Hi|exact Hj].
  - destruct H2 as (-> & _). discriminate.
Qed.

Lemma chain_non_overlapping lo l hi b : chain lo l hi b -> non_overlapping l.
Proof.
  intros H i j x y t Hij Hi Hj [Hx Hy].
  destruct (Nat.lt_ge_cases i j) as [Hlt|Hge].
  - exact (chain_ordered _ _ _ _ H i j x y t Hlt Hi Hj (conj Hx Hy)).
  - apply (chain_ordered _ _ _ _ H j i y x t); [lia|exact Hj|exact Hi|].
    split; [exact Hy|exact Hx].
Qed.

(** ** The clock along an operation *)

Lemma later_refl w : later w w.
Proof. exists 0%nat. reflexivity. Qed.

Lemma later_trans w1 w2 w3 : later w1 w2 -> later w2 w3 -> later w1 w3.
Proof.
  intros [j Hj] [k Hk]. exists (j + k)%nat. intros n.
  rewrite Hk, Hj. f_equal. lia.
Qed.

Lemma shifted_later k w w' : shifted k w w' -> later w w'.
Proof. intros [H _]. exists k. exact H. Qed.

Lemma monotone_le w n m : monotone w -> (n <= m)%nat -> clock w n <= clock w m.
Proof.
  intros Hm Hle. induction Hle as [|m Hle IH]; [lia|].
  specialize (Hm m). lia.
Qed.

Lemma later_monotone w w' :
  monotone w -> later w w' -> monotone w' /\ clock w 0%nat <= clock w' 0%nat.
Proof.
  intros Hm [k Hk]. split.
  - intros n. rewrite !Hk. replace (k + S n)%nat with (S (k + n)) by lia. apply Hm.
  - rewrite Hk. apply monotone_le; [exact Hm|lia].
Qed.

Lemma timeNow_later w : later w (timeNow w).2.
Proof. exists 1%nat. reflexivity. Qed.

Lemma toggleLoop_later id l : forall w, later w (toggleLoop id l w).2.
Proof.
  induction l as [|st l IH]; intros w; cbn [toggleLoop]; [apply later_refl|].
  destruct (String.eqb (ID st) id).
  - destruct (Active st); run.
    + destruct (flushStream_run st w) as [_ H]. exact (shifted_later _ _ _ H).
    + apply timeNow_later.
  - run. apply IH.
Qed.

(** ** The invariant along the operations *)

Lemma ToggleStream_transition id s w :
  transition s w (ToggleStream id s w).1 (ToggleStream id s w).2.
Proof.
  unfold ToggleStream. run.
  pose proof (toggleLoop_later id (Streams s) w) as Hl.
  destruct (toggleLoop id (Streams s) w) as [sts w1]. cbn [fst snd] in *.
  set (s1 := setStreams sts s).
  destruct (HasActive s) eqn:Hhad, (HasActive s1) eqn:Hhas; cbn [negb andb].
  - run. apply tr_same; [reflexivity|congruence|exact Hl].
  - rewrite closeCurrentSession_run. cbn [fst snd].
    apply (tr_close _ _ _ _ w1); [exact Hhad|exact Hhas|exact Hl|reflexivity|reflexivity].
  - run. cbn [timeNow fst].
    apply (tr_open _ _ _ _ w1); [exact Hhad|exact Hhas|exact Hl|reflexivity|reflexivity].
  - run. apply tr_same; [reflexivity|congruence|exact Hl].
Qed.

Lemma stopLoop_inactive l last w :
  existsb Active (stopLoop l last w).1.1 = false.
Proof.
  destruct (stopLoop_spec l last w) as (_ & Hlen & Hst & _).
  apply Forall_inactive_HasActive, Forall_lookup_2. intros i x Hi.
  assert (Hlt : (i < length l)%nat)
    by (rewrite <- Hlen; apply lookup_lt_is_Some_1; eauto).
  destruct (lookup_lt_is_Some_2 l i Hlt) as [st Hst0].
  rewrite (Hst i st Hst0) in Hi. inversion Hi; subst x.
  destruct (Active st) eqn:Ha; [reflexivity|exact Ha].
Qed.

Lemma StopAll_transition s w : transition s w (StopAll s w).1 (StopAll s w).2.
Proof.
  unfold StopAll. run.
  destruct (stopLoop_spec (Streams s) [] w) as (_ & _ & _ & Hsh).
  pose proof (stopLoop_inactive (Streams s) [] w) as Hin.
  pose proof (shifted_later _ _ _ Hsh) as Hl.
  destruct (HasActive s) eqn:Hhad.
  - destruct (stopLoop (Streams s) [] w) as [[sts last] w1]. cbn [fst snd] in *.
    rewrite closeCurrentSession_run. cbn [fst snd].
    apply (tr_close _ _ _ _ w1); [exact Hhad|exact Hin|exact Hl|reflexivity|reflexivity].
  - unfold HasActive in Hhad. rewrite (stopLoop_idle _ Hhad). cbn [fst snd]. run.
    apply tr_same; [reflexivity| |apply later_refl].
    unfold HasActive. cbn. rewrite Hhad. reflexivity.
Qed.

Lemma existsb_fmap_grows (f : Stream -> Stream) (l : list Stream) :
  (forall st, Active st = true -> Active (f st) = true) ->
  existsb Active l = true -> existsb Active (f <$> l) = true.
Proof.
  intros Hf. induction l as [|st l IH]; cbn; [discriminate|].
  intros H. apply orb_true_iff in H as [H|H]; apply orb_true_iff.
  - left. apply Hf, H.
  - right. apply IH, H.
Qed.

Lemma ContinueAll_transition s w :
  transition s w (ContinueAll s w).1 (ContinueAll s w).2.
Proof.
  unfold ContinueAll.
  destruct (Nat.eqb (length (LastActive s)) 0);
    [apply tr_same; [reflexivity|reflexivity|apply later_refl]|].
  rewrite bind_run, ret_run. cbn [fst snd].
  set (f := fun st : Stream =>
              if inIDs (idSet (LastActive s)) (ID st) && negb (Active st)
              then activate (timeNow w).1 st else st).
  set (s1 := setStreams (f <$> Streams s) s).
  assert (Hup : HasActive s = true -> HasActive s1 = true).
  { apply existsb_fmap_grows. intros st Ha. unfold f.
    rewrite Ha, andb_false_r. exact Ha. }
  destruct (HasActive s) eqn:Hhad; cbn [negb andb].
  - apply tr_same; [reflexivity| |apply timeNow_later].
    rewrite HasActive_setLastActive, Hhad. apply Hup. reflexivity.
  - destruct (HasActive s1) eqn:Hhas.
    + apply (tr_open _ _ _ _ w); [exact Hhad| |apply later_refl|reflexivity|reflexivity].
      rewrite HasActive_setLastActive, HasActive_setSessions. exact Hhas.
    + apply tr_same; [reflexivity| |apply timeNow_later].
      rewrite HasActive_setLastActive, Hhad. exact Hhas.
Qed.

Lemma AddStream_transition name at_ s w :
  transition s w (AddStream name at_ s w).1 (AddStream name at_ s w).2.
Proof.
  destruct (AddStream_run name at_ s w) as [E Hsh]. cbv zeta in E.
  assert (Hl : later w (AddStream name at_ s w).2).
  { destruct Hsh as [Hc _]. exists 1%nat. intros n. rewrite Hc.
    destruct (newID_run w) as (_ & -> & _). reflexivity. }
  apply tr_same; [rewrite E; reflexivity| |exact Hl]. rewrite E.
  unfold HasActive. cbn [Streams setStreams].
  set (i := clampPos at_ (length (Streams s))).
  assert (H : existsb Active (Streams s) =
              existsb Active (take i (Streams s)) || existsb Active (drop i (Streams s)))
    by (rewrite <- existsb_app, take_drop; reflexivity).
  rewrite existsb_app, H. cbn [existsb Active orb]. reflexivity.
Qed.

Lemma runOp_transition o s w :
  keeps_contract o s = true -> transition s w (runOp o s w).1 (runOp o s w).2.
Proof.
  intros Hk. destruct o as [name at_|id|id| |]; cbn [runOp].
  - apply AddStream_transition.
  - rewrite ret_run. cbn [fst snd]. cbn [keeps_contract] in Hk.
    apply tr_same; [apply DeleteStream_sessions|apply eqb_prop, Hk|apply later_refl].
  - apply ToggleStream_transition.
  - apply StopAll_transition.
  - apply ContinueAll_transition.
Qed.

Lemma transition_Inv s w s' w' : transition s w s' w' -> Inv s w -> Inv s' w'.
Proof.
  intros Ht [Hm [lo Hc]].
  destruct Ht as [Hs Ha Hl | w1 Hhad Hhas Hl Hs -> | w1 Hhad Hhas Hl Hs ->].
  - destruct (later_monotone _ _ Hm Hl) as [Hm' Hle].
    split; [exact Hm'|]. exists lo. rewrite Hs, Ha. exact (chain_hi _ _ _ _ _ Hle Hc).
  - destruct (later_monotone _ _ Hm Hl) as [Hm1 Hle].
    destruct (later_monotone _ _ Hm1 (timeNow_later w1)) as [Hm2 Hle2].
    split; [exact Hm2|]. exists lo. rewrite Hs, Hhas. rewrite Hhad in Hc.
    exact (chain_snoc lo _ _ (clock w1 0%nat) None _ Hc Hle Hle2).
  - destruct (later_monotone _ _ Hm Hl) as [Hm1 Hle].
    destruct (later_monotone _ _ Hm1 (timeNow_later w1)) as [Hm2 Hle2].
    split; [exact Hm2|]. exists lo. rewrite Hs, Hhas. rewrite Hhad in Hc.
    exact (chain_close lo _ _ _ _ Hc Hle Hle2).
Qed.

(** The open sessions are counted by the activity, whatever the clock does. *)
Lemma transition_openCount s w s' w' :
  transition s w s' w' ->
  openCount (Sessions s) = (if HasActive s then 1 else 0)%nat ->
  openCount (Sessions s') = (if HasActive s' then 1 else 0)%nat.
Proof.
  intros Ht H.
  destruct Ht as [Hs Ha Hl | w1 Hhad Hhas Hl Hs _ | w1 Hhad Hhas Hl Hs _].
  - rewrite Hs, Ha. exact H.
  - rewrite Hs, Hhas, openCount_app, H, Hhad. reflexivity.
  - rewrite Hs, Hhas, (closed_at_openCount _ _ _ (closeLoop_closed_at _ _)), H, Hhad.
    reflexivity.
Qed.

Lemma reachable_openCount w0 s w :
  reachable w0 s w -> openCount (Sessions s) = (if HasActive s then 1 else 0)%nat.
Proof.
  intros H. induction H as [path|s w o _ IH Hk]; [reflexivity|].
  exact (transition_openCount _ _ _ _ (runOp_transition o s w Hk) IH).
Qed.

Lemma reachable_Inv w0 s w : monotone w0 -> reachable w0 s w -> Inv s w.
Proof.
  intros Hm H. induction H as [path|s w o _ IH Hk].
  - split; [exact Hm|]. exists (clock w0 0%nat). cbn. split; [lia|reflexivity].
  - exact (transition_Inv _ _ _ _ (runOp_transition o s w Hk) IH).
Qed.

(** ** The log only grows *)

Lemma log_grows_refl l : log_grows l l.
Proof.
  split; [lia|]. intros i x Hi. exists x. repeat split; [exact Hi|]. intros e He. exact He.
Qed.

Lemma log_grows_app l x : log_grows l (l ++ [x]).
Proof.
  split; [rewrite length_app; lia|]. intros i y Hi. exists y.
  split; [apply lookup_app_l_Some, Hi|]. split; [reflexivity|]. intros e He. exact He.
Qed.

Lemma closed_at_grows now l l' : closed_at now l l' -> log_grows l l'.
Proof.
  intros [pre x post Hx Hpost | l0 Hl]; [|apply log_grows_refl].
  split; [rewrite !length_app; cbn; lia|].
  intros i y Hi. destruct (Nat.lt_ge_cases i (length pre)) as [Hlt|Hge].
  - rewrite lookup_app_l in Hi by exact Hlt. exists y.
    split; [rewrite lookup_app_l by exact Hlt; exact Hi|].
    split; [reflexivity|]. intros e He. exact He.
  - rewrite lookup_app_r in Hi by exact Hge. rewrite lookup_app_r by exact Hge.
    destruct (i - length pre)%nat as [|k].
    + cbn in Hi. inversion Hi; subst y. eexists. split; [reflexivity|].
      split; [reflexivity|]. intros e He. congruence.
    + cbn in Hi. exists y. split; [exact Hi|]. split; [reflexivity|].
      intros e He. exact He.
Qed.

(** What an operation may do to the sessions: nothing, append an open
    session, or close the most recent open one. *)
Lemma runOp_sessions (o : Op) (s : Store) (w : World) :
  Sessions (runOp o s w).1 = Sessions s \/
  (exists t, Sessions (runOp o s w).1 = Sessions s ++ [mkSession t None]) \/
  (exists now, closed_at now (Sessions s) (Sessions (runOp o s w).1)).
Proof.
  destruct o as [name at_|id|id| |]; cbn [runOp].
  - destruct (AddStream_run name at_ s w) as [E _]. cbv zeta in E. rewrite E.
    left. reflexivity.
  - left. apply DeleteStream_sessions.
  - unfold ToggleStream. run.
    destruct (toggleLoop id (Streams s) w) as [sts w1]. cbn [fst snd].
    destruct (negb (HasActive s) && HasActive (setStreams sts s)).
    + run. right. left. eexists. reflexivity.
    + destruct (HasActive s && negb (HasActive (setStreams sts s))).
      * rewrite closeCurrentSession_run. right. right. eexists.
        apply closeLoop_closed_at.
      * left. reflexivity.
  - unfold StopAll. run.
    destruct (stopLoop (Streams s) [] w) as [[sts last] w1]. cbn [fst snd].
    destruct (HasActive s).
    + rewrite closeCurrentSession_run. right. right. eexists.
      apply (closeLoop_closed_at _ (Sessions s)).
    + left. reflexivity.
  - unfold ContinueAll. destruct (Nat.eqb (length (LastActive s)) 0); [left; reflexivity|].
    rewrite bind_run, ret_run. cbn [fst snd].
    match goal with
    | |- context [if ?b then _ else _] => destruct b
    end.
    + right. left. eexists. reflexivity.
    + left. reflexivity.
Qed.

Lemma runOp_log_grows (o : Op) (s : Store) (w : World) :
  log_grows (Sessions s) (Sessions (runOp o s w).1).
Proof.
  destruct (runOp_sessions o s w) as [->|[[t ->]|[now H]]].
  - apply log_grows_refl.
  - apply log_grows_app.
  - exact (closed_at_grows _ _ _ H).
Qed.

Lemma steady_world_monotone t0 b : monotone (steady_world t0 b).
Proof. intros n. cbn. unfold Time.Second. lia. Qed.

(** C2, amended. Take the stores reached from the empty store by
    [AddStream], [ToggleStream], [StopAll], [ContinueAll] and by
    [DeleteStream] used as its caller contract has it (never on the last
    active stream). In every such store at most one session has no end,
    and, the clock not going back, no instant lies in the intervals of two
    sessions. And whatever the store, an operation of the engine
    ([DeleteStream] included, contract or not) only makes the log grow: it
    appends a session or sets a missing end, every session keeps its index
    and start, and an end once set stays. *)
Theorem reachable_sessions_sound (w0 : World) (s : Store) (w : World) :
  reachable w0 s w ->
  (openCount (Sessions s) <= 1)%nat /\
  (monotone w0 -> non_overlapping (Sessions s)) /\
  forall o s0 w1, log_grows (Sessions s0) (Sessions (runOp o s0 w1).1).
Proof.
  intros Hr. split; [|split].
  - rewrite (reachable_openCount w0 s w Hr). destruct (HasActive s); lia.
  - intros Hm. destruct (reachable_Inv w0 s w Hm Hr) as [_ [lo Hc]].
    exact (chain_non_overlapping _ _ _ _ Hc).
  - intros o s0 w1. apply runOp_log_grows.
Qed.

(** The store after adding a stream and starting it, under a steady clock. *)
Lemma reachable_sessions_sound_witness :
  let s :=
    (runOp (OpToggleStream "000000")
       (runOp (OpAddStream "A" 0) empty_store (steady_world 0 x00)).1
       (runOp (OpAddStream "A" 0) empty_store (steady_world 0 x00)).2).1 in
  (openCount (Sessions s) <= 1)%nat /\ non_overlapping (Sessions s).
Proof.
  cbv zeta.
  assert (R : reachable (steady_world 0 x00)
                (runOp (OpToggleStream "000000")
                   (runOp (OpAddStream "A" 0) empty_store (steady_world 0 x00)).1
                   (runOp (OpAddStream "A" 0) empty_store (steady_world 0 x00)).2).1
                (runOp (OpToggleStream "000000")
                   (runOp (OpAddStream "A" 0) empty_store (steady_world 0 x00)).1
                   (runOp (OpAddStream "A" 0) empty_store (steady_world 0 x00)).2).2).
  { apply reach_step; [|reflexivity].
    apply reach_step; [|reflexivity].
    apply (reach_empty (steady_world 0 x00) "urd.json"). }
  destruct (reachable_sessions_sound _ _ _ R) as (H1 & H2 & _).
  split; [exact H1|exact (H2 (steady_world_monotone 0 x00))].
Defined.

(** C2 as stated fails: add a stream, start it, delete it with
    [DeleteStream], add another and start it. The first session was never
    closed, so two sessions are open, and the instant 5s lies in both. *)
Lemma DeleteStream_breaks_session_invariant :
  let l :=
    Sessions
      (runOps [OpAddStream "A" 0; OpToggleStream "000000"; OpDeleteStream "000000";
               OpAddStream "B" 0; OpToggleStream "000000"]
         empty_store (steady_world 0 x00)).1 in
  l = [mkSession 2000000000 None; mkSession 5000000000 None] /\
  openCount l = 2%nat /\
  covers (mkSession 2000000000 None) 5000000000 /\
  covers (mkSession 5000000000 None) 5000000000.
Proof.
  cbv zeta. split; [vm_compute; reflexivity|]. split; [vm_compute; reflexivity|].
  unfold covers. cbn. lia.
Qed.

(** ** Persistence *)

Lemma intoStream_marshal (cur st : Stream) :
  Int64.inRange (Seconds st) = true ->
  StartedAt cur = None ->
  intoStream cur (marshalStream st) = Some (writtenStream st).
Proof.
  intros H Hc. destruct st as [id name secs act started created].
  destruct cur as [id0 name0 secs0 act0 started0 created0].
  cbn in H, Hc. subst started0. unfold writtenStream.
  destruct started as [t|]; cbn; rewrite H; reflexivity.
Qed.

Lemma intoSession_marshal (cur x : Session) :
  End cur = None ->
  intoSession cur (marshalSession x) = Some x.
Proof.
  destruct cur as [s0 e0], x as [start [e|]]; cbn; intros ->; reflexivity.
Qed.

Lemma intoElems_fmap {A B} (into : A -> Json -> option A) (zero : A)
    (f : B -> Json) (g : B -> A) (l : list B) :
  Forall (fun x => into zero (f x) = Some (g x)) l ->
  intoElems into zero [] (f <$> l) = Some (g <$> l).
Proof.
  induction 1 as [|x l Hx _ IH]; [reflexivity|].
  cbn [fmap list_fmap intoElems]. rewrite Hx. cbn [mbind option_bind].
  change (intoElems into zero [] (f <$> l)) with (intoElems into zero [] (f <$> l)).
  rewrite IH. reflexivity.
Qed.

Lemma intoSlice_fmap {A B} (into : A -> Json -> option A) (zero : A)
    (f : B -> Json) (g : B -> A) (l : list B) :
  Forall (fun x => into zero (f x) = Some (g x)) l ->
  intoSlice into zero [] (JArr (f <$> l)) = Some (g <$> l, []).
Proof.
  intros H. destruct l as [|x l]; [reflexivity|].
  unfold intoSlice. rewrite fmap_cons. rewrite <- fmap_cons.
  rewrite (intoElems_fmap into zero f g (x :: l) H). reflexivity.
Qed.

Lemma storeField_streams (d : Decoding) (v : Json) :
  storeField d ("streams", v) =
    r ← intoSlice intoStream (mkStream "" "" 0 false None Time.zero)
          (Streams (decoded d) ++ behindStreams d) v;
    Some (mkDecoding (setStreams r.1 (decoded d)) r.2 (behindSessions d)
            (behindLastActive d)).
Proof. reflexivity. Qed.

Lemma storeField_sessions (d : Decoding) (v : Json) :
  storeField d ("sessions", v) =
    r ← intoSlice intoSession (mkSession Time.zero None)
          (Sessions (decoded d) ++ behindSessions d) v;
    Some (mkDecoding (setSessions r.1 (decoded d)) (behindStreams d) r.2
            (behindLastActive d)).
Proof. reflexivity. Qed.

Lemma storeField_last_active (d : Decoding) (v : Json) :
  storeField d ("last_active", v) =
    r ← intoSlice intoString "" (LastActive (decoded d) ++ behindLastActive d) v;
    Some (mkDecoding (setLastActive r.1 (decoded d)) (behindStreams d)
            (behindSessions d) r.2).
Proof. reflexivity. Qed.

(** The decoder reads back what the encoder wrote. *)
Lemma Unmarshal_marshal (s : Store) (path : string) :
  wellTyped s ->
  Unmarshal (Doc (marshalStore s)) (mkStore [] [] [] path) =
    Some (mkStore (writtenStream <$> Streams s) (Sessions s)
            (Utf8.toValid <$> LastActive s) path).
Proof.
  intros Hwt. unfold wellTyped in Hwt.
  assert (H1 : intoSlice intoStream (mkStream "" "" 0 false None Time.zero) []
                 (JArr (marshalStream <$> Streams s)) =
               Some (writtenStream <$> Streams s, [])).
  { apply intoSlice_fmap. eapply Forall_impl; [exact Hwt|].
    intros st Hst. apply intoStream_marshal; [exact Hst|reflexivity]. }
  assert (H2 : intoSlice intoSession (mkSession Time.zero None) []
                 (JArr (marshalSession <$> Sessions s)) = Some (id <$> Sessions s, [])).
  { apply intoSlice_fmap. apply Forall_forall. intros x _.
    apply intoSession_marshal. reflexivity. }
  rewrite list_fmap_id in H2.
  assert (H3 : intoSlice intoString "" []
                 (JArr ((fun i => JStr (Utf8.toValid i)) <$> LastActive s)) =
               Some (Utf8.toValid <$> LastActive s, [])).
  { apply intoSlice_fmap. apply Forall_forall. intros x _. reflexivity. }
  unfold Unmarshal, marshalStore. cbn [app decodeFields].
  rewrite storeField_streams. cbn [decoded Streams behindStreams app].
  rewrite H1. cbn [mbind option_bind fst snd].
  rewrite storeField_sessions.
  cbn [decoded Sessions setStreams behindSessions app]. rewrite H2.
  cbn [mbind option_bind fst snd].
  destruct (LastActive s) as [|a l] eqn:E.
  - reflexivity.
  - cbn [omitempty decodeFields]. rewrite storeField_last_active.
    cbn [decoded LastActive setStreams setSessions behindLastActive app].
    rewrite H3. reflexivity.
Qed.

(** Decoding keeps the path. *)
Lemma Unmarshal_FilePath (data : Data) (s s1 : Store) :
  Unmarshal data s = Some s1 -> FilePath s1 = FilePath s.
Proof.
  unfold Unmarshal. destruct data as [|j]; [discriminate|].
  destruct j as [| | | | | |fs]; try discriminate.
  - intros H. inversion H. reflexivity.
  - assert (G : forall fs d d', decodeFields storeField fs d = Some d' ->
              FilePath (decoded d') = FilePath (decoded d)).
    { clear. induction fs as [|[k v] fs IH]; intros d d'; cbn [decodeFields].
      - intros H. inversion H. reflexivity.
      - destruct (storeField d (k, v)) as [d1|] eqn:E; [|discriminate].
        cbn [mbind option_bind]. intros H. rewrite (IH _ _ H).
        unfold storeField in E.
        destruct (keyIs "streams" k).
        { destruct (intoSlice intoStream _ _ v) as [r|]; [|discriminate].
          inversion E. reflexivity. }
        destruct (keyIs "sessions" k).
        { destruct (intoSlice intoSession _ _ v) as [r|]; [|discriminate].
          inversion E. reflexivity. }
        destruct (keyIs "last_active" k).
        { destruct (intoSlice intoString _ _ v) as [r|]; [|discriminate].
          inversion E. reflexivity. }
        inversion E. reflexivity. }
    destruct (decodeFields storeField fs _) as [d'|] eqn:E; [|discriminate].
    cbn. intros H. inversion H. apply (G _ _ _ E).
Qed.

Lemma Save_ok (s : Store) (w : World) :
  (Save s w).1 = None ->
  disk (Save s w).2 (FilePath s) = Holds (Doc (marshalStore s)) /\
  clock (Save s w).2 = clock w.
Proof.
  unfold Save. destruct (storeMarshals s); cbn [negb]; [|discriminate].
  rewrite bind_run.
  destruct (osWriteFile (FilePath s +:+ ".tmp") (Doc (marshalStore s)) w)
    as [e w1] eqn:E1.
  cbn [fst snd]. unfold osWriteFile in E1.
  destruct (faults w 0%nat); inversion E1; subst e w1; clear E1.
  - rewrite ret_run. discriminate.
  - unfold osRename. cbn [faults clock entropy disk].
    destruct (tail_tape (faults w) 0%nat); cbn [fst snd]; [discriminate|].
    intros _. cbn [disk clock]. unfold putFile.
    rewrite !String.eqb_refl. split; reflexivity.
Qed.

Lemma repair_started (now : Z) (l : list Stream) :
  Forall (fun st => Active st = true -> StartedAt st <> None) l ->
  repair now <$> l = l.
Proof.
  induction 1 as [|st l Hst _ IH]; [reflexivity|].
  rewrite fmap_cons, IH. f_equal. unfold repair.
  destruct (Active st); [|reflexivity].
  destruct (StartedAt st); [reflexivity|]. exfalso. apply Hst; reflexivity.
Qed.

Lemma streamTotal_written (l : list Stream) :
  streamTotal (writtenStream <$> l) = streamTotal l.
Proof.
  unfold streamTotal. generalize 0. induction l as [|st l IH]; intros z; [reflexivity|].
  cbn [fmap list_fmap foldl]. apply IH.
Qed.

Lemma validate_written (l : list Stream) (ss : list Session) (la la' : list string)
    (path : string) (w : World) :
  validate (mkStore (writtenStream <$> l) ss la path) w =
  validate (mkStore l ss la' path) w.
Proof.
  unfold validate. cbn [Streams FilePath]. rewrite streamTotal_written. reflexivity.
Qed.

Lemma written_valid (s : Store) : validText s -> written s = s.
Proof.
  intros [Hs Hl]. unfold written. destruct s as [sts ss la path].
  cbn [Streams Sessions LastActive FilePath] in *. f_equal.
  - induction Hs as [|st l [H1 H2] _ IH]; [reflexivity|].
    rewrite fmap_cons, IH. f_equal. unfold writtenStream. rewrite H1, H2.
    destruct st; reflexivity.
  - induction Hl as [|x l H _ IH]; [reflexivity|].
    rewrite fmap_cons, IH, H. reflexivity.
Qed.

(** What [LoadStore] does with a file that [Save] wrote. *)
Lemma LoadStore_persisted (s : Store) (path : string) (w : World) :
  wellTyped s ->
  disk w path = Holds (Doc (marshalStore s)) ->
  let stored := mkStore (Streams s) (Sessions s) (LastActive s) path in
  (LoadStore path w).1 =
    match (validate stored w).1 with
    | Some err => Err err
    | None =>
        Ok (written
              (setStreams (repair (clock (validate stored w).2 0%nat) <$> Streams s)
                 stored))
    end.
Proof.
  intros Hwt Hdisk. cbv zeta. unfold LoadStore. rewrite bind_run.
  unfold osReadFile at 1 2. cbn [fst snd]. rewrite Hdisk.
  rewrite (Unmarshal_marshal s _ Hwt). rewrite bind_run.
  rewrite (validate_written _ _ _ (LastActive s)).
  destruct (validate _ w) as [[err|] w1]; cbn [fst snd]; [reflexivity|].
  rewrite bind_run, ret_run. cbn [timeNow fst snd]. f_equal.
  unfold written, setStreams. cbn [Streams Sessions LastActive FilePath]. f_equal.
  rewrite <- !list_fmap_compose. apply list_fmap_ext. intros i st _. cbn.
  destruct st as [id name secs act started created].
  unfold repair, writtenStream. cbn [ID Name Seconds Active StartedAt CreatedAt].
  destruct act, started; reflexivity.
Qed.

Lemma validate_run (s : Store) (w : World) :
  (validate s w).1 =
    if (0 <? (TotalWallClock s w).1) && (streamTotal (Streams s) <? (TotalWallClock s w).1)
    then Some (ErrInconsistent (FilePath s) (streamTotal (Streams s)) (TotalWallClock s w).1)
    else None.
Proof.
  unfold validate. rewrite bind_run.
  destruct ((0 <? _) && (_ <? _)); reflexivity.
Qed.

Lemma Int64_wrap_small (z : Z) :
  Int64.min <= z <= Int64.max -> Int64.wrap z = z.
Proof.
  unfold Int64.min, Int64.max, Int64.wrap. intros H.
  rewrite Z.mod_small by lia. lia.
Qed.

(** Without overflow the sum of [validate] is the sum of the seconds. *)
Lemma streamTotal_exact (l : list Stream) :
  Forall (fun st => 0 <= Seconds st) l ->
  sumSeconds l * Time.Second <= Int64.max ->
  streamTotal l = sumSeconds l * Time.Second.
Proof.
  unfold streamTotal.
  assert (Hsum : forall k, Forall (fun st => 0 <= Seconds st) k -> 0 <= sumSeconds k).
  { induction 1 as [|y k Hy _ IH]; cbn; [lia|]. unfold sumSeconds in IH. lia. }
  assert (G : forall acc, 0 <= acc ->
            Forall (fun st => 0 <= Seconds st) l ->
            acc + sumSeconds l * Time.Second <= Int64.max ->
            foldl (fun total st => Int64.add total (Int64.mul (Seconds st) Time.Second))
              acc l = acc + sumSeconds l * Time.Second).
  { induction l as [|st l IH]; intros acc Hacc Hl Hmax; cbn [foldl].
    - cbn. lia.
    - inversion Hl as [|? ? Hst Hl']; subst.
      pose proof (Hsum l Hl') as Hpos.
      change (sumSeconds (st :: l)) with (Seconds st + sumSeconds l) in Hmax |- *.
      unfold Int64.mul, Int64.add.
      rewrite (Int64_wrap_small (Seconds st * Time.Second))
        by (unfold Int64.min, Int64.max, Time.Second in *; lia).
      rewrite (Int64_wrap_small (acc + Seconds st * Time.Second))
        by (unfold Int64.min, Int64.max, Time.Second in *; lia).
      rewrite IH; [lia| |exact Hl'|]; unfold Time.Second in *; lia. }
  intros Hl Hmax. rewrite G; [lia|lia|exact Hl|lia].
Qed.

(** C3, amended. Loading a persisted store (a file written by [Save])
    fails with the data-inconsistency error exactly when the wall-clock
    total of its sessions is positive and the streams' total is below it;
    it fails in no other way, and it succeeds whenever the streams' total
    reaches the wall-clock total. Both totals are the ones [validate]
    computes, in [int64] nanoseconds with wrap-around: the streams' total
    is the sum of the accumulated seconds only when these are not negative
    and the sum, in nanoseconds, fits. *)
Theorem LoadStore_validation (s : Store) (path : string) (w : World) :
  wellTyped s ->
  disk w path = Holds (Doc (marshalStore s)) ->
  let wallClock := (TotalWallClock s w).1 in
  let total := streamTotal (Streams s) in
  ((LoadStore path w).1 = Err (ErrInconsistent path total wallClock) <->
     0 < wallClock /\ total < wallClock) /\
  (forall e, (LoadStore path w).1 = Err e -> e = ErrInconsistent path total wallClock) /\
  (wallClock <= total -> exists s', (LoadStore path w).1 = Ok s') /\
  (Forall (fun st => 0 <= Seconds st) (Streams s) ->
   sumSeconds (Streams s) * Time.Second <= Int64.max ->
   total = sumSeconds (Streams s) * Time.Second).
Proof.
  intros Hwt Hdisk. cbv zeta.
  pose proof (LoadStore_persisted s path w Hwt Hdisk) as E. cbv zeta in E.
  rewrite validate_run in E. cbn [Streams FilePath] in E.
  change (TotalWallClock (mkStore (Streams s) (Sessions s) (LastActive s) path) w)
    with (TotalWallClock s w) in E.
  set (wallClock := (TotalWallClock s w).1) in *.
  set (total := streamTotal (Streams s)) in *.
  destruct (0 <? wallClock) eqn:H1; [apply Z.ltb_lt in H1|apply Z.ltb_ge in H1];
    (destruct (total <? wallClock) eqn:H2;
      [apply Z.ltb_lt in H2|apply Z.ltb_ge in H2]);
    cbn [andb] in E; rewrite E.
  all: split; [split; [intros H; try discriminate; split; assumption
                      |intros [? ?]; try reflexivity; lia]|].
  all: split; [intros e He; try discriminate; inversion He; reflexivity|].
  all: split; [intros Hle; try lia; eexists; reflexivity|].
  all: intros Hpos Hfit; exact (streamTotal_exact _ Hpos Hfit).
Qed.

(** The file [Save] writes for [consistent_store] loads. *)
Lemma LoadStore_validation_witness :
  exists s',
    (LoadStore "urd.json" (Save consistent_store (steady_world 0 x00)).2).1 = Ok s'.
Proof.
  refine (proj1 (proj2 (proj2
    (LoadStore_validation consistent_store "urd.json"
       (Save consistent_store (steady_world 0 x00)).2 _ eq_refl))) _).
  - repeat constructor.
  - vm_compute. discriminate.
Defined.

(** C3 as stated fails: one stream with 9223372037 accumulated seconds and
    one session of a second. The sum of the accumulated seconds is far
    above the wall-clock total, and the file [Save] writes does not load:
    in nanoseconds the streams' total has wrapped around below zero. *)
Lemma LoadStore_overflow_rejected :
  sumSeconds (Streams overflowing_store) = 9223372037 /\
  (TotalWallClock overflowing_store (steady_world 0 x00)).1 = 1 * Time.Second /\
  (Save overflowing_store (steady_world 0 x00)).1 = None /\
  (LoadStore "urd.json" (Save overflowing_store (steady_world 0 x00)).2).1
  = Err (ErrInconsistent "urd.json" (-9223372036709551616) (1 * Time.Second)).
Proof. vm_compute. repeat split; reflexivity. Qed.

(** C8, amended. [Save] followed by [LoadStore] of the same path gives
    back the store itself (the same streams with all their fields, the
    same sessions, the same last-active ids, the same path) provided the
    save succeeds, the store passes the validation that loading runs, every
    active stream has a start (a missing one would be stamped at loading),
    and the ids, the names and the remembered ids are valid UTF-8. Without
    the last proviso the store comes back with every byte of these texts
    that starts no UTF-8 sequence replaced by U+FFFD. *)
Theorem Save_LoadStore_roundtrip (s : Store) (w : World) :
  wellTyped s ->
  (Save s w).1 = None ->
  (validate s (Save s w).2).1 = None ->
  Forall (fun st => Active st = true -> StartedAt st <> None) (Streams s) ->
  (LoadStore (FilePath s) (Save s w).2).1 = Ok (written s) /\
  (validText s -> (LoadStore (FilePath s) (Save s w).2).1 = Ok s).
Proof.
  intros Hwt Hsave Hval Hstart.
  destruct (Save_ok s w Hsave) as [Hdisk _].
  rewrite (LoadStore_persisted s (FilePath s) _ Hwt Hdisk).
  rewrite store_eta, Hval, (repair_started _ _ Hstart).
  assert (E : setStreams (Streams s) s = s) by (destruct s; reflexivity).
  rewrite E. split; [reflexivity|].
  intros Hv. rewrite (written_valid s Hv). reflexivity.
Qed.

(** [consistent_store] comes back as it was saved. *)
Lemma Save_LoadStore_roundtrip_witness :
  (LoadStore "urd.json" (Save consistent_store (steady_world 0 x00)).2).1
  = Ok consistent_store.
Proof.
  apply (Save_LoadStore_roundtrip consistent_store (steady_world 0 x00)).
  - repeat constructor.
  - reflexivity.
  - vm_compute. reflexivity.
  - repeat constructor; discriminate.
  - split; repeat constructor.
Defined.

(** A name that is no UTF-8 does not come back: the store is saved and
    loaded without error, and the byte 255 of the name has become U+FFFD. *)
Example Save_LoadStore_changes_name :
  (Save badly_named_store (steady_world 0 x00)).1 = None /\
  (LoadStore "urd.json" (Save badly_named_store (steady_world 0 x00)).2).1
  = Ok (mkStore [mkStream "0a0b0c" Utf8.replacement 0 false None 0] [] [] "urd.json").
Proof. vm_compute. split; reflexivity. Qed.

(** A time of the year 10000 cannot be written: [Save] returns the error
    of the encoder and leaves the disk as it was. *)
Example Save_year_10000_fails :
  (Save late_store (steady_world 0 x00)).1 = Some ErrMarshal /\
  (Save late_store (steady_world 0 x00)).2 = steady_world 0 x00.
Proof. split; reflexivity. Qed.

(** C8 as stated fails: the store of [TestValidateInconsistentData] is
    saved without error, and loading the file fails. *)
Lemma Save_LoadStore_inconsistent :
  (Save inconsistent_store (steady_world 0 x00)).1 = None /\
  (LoadStore "urd.json" (Save inconsistent_store (steady_world 0 x00)).2).1
  = Err (ErrInconsistent "urd.json" 60000000000 7200000000000).
Proof. vm_compute. split; reflexivity. Qed.

(** ** An active stream has its open session *)

Lemma DeleteStream_HasActive (id : string) (s : Store) :
  HasActive (DeleteStream id s) = true -> HasActive s = true.
Proof.
  unfold HasActive. intros H.
  destruct (existsb Active (Streams s)) eqn:E; [reflexivity|].
  apply Forall_inactive_HasActive in E.
  assert (F : Forall (fun x => Active x = false) (Streams (DeleteStream id s))).
  { apply Forall_forall. intros x Hx.
    rewrite Forall_forall in E. apply E.
    exact (elem_of_sublist _ _ _ Hx (DeleteStream_sublist id s)). }
  apply Forall_inactive_HasActive in F. congruence.
Qed.




(** ** The scenarios of store_test.go, run on the model *)

Example TestAddStreamPositions :
  Name <$> Streams (scenario_positions counting_world).1 = ["B"; "C"; "A"].
Proof. vm_compute. reflexivity. Qed.

Example TestAddStreamOutOfBounds :
  Name <$> Streams (scenario_out_of_bounds counting_world).1 = ["B"; "A"].
Proof. vm_compute. reflexivity. Qed.

Example TestMultipleActiveStreams :
  let '(s1, s2, s3) := (scenario_two_streams counting_world).1 in
  Active <$> Streams s1 = [true; true] /\
  isOpen <$> Sessions s1 = [true] /\
  Active <$> Streams s2 = [false; true] /\
  isOpen <$> Sessions s2 = [true] /\
  Active <$> Streams s3 = [false; false] /\
  isOpen <$> Sessions s3 = [false].
Proof. vm_compute. repeat split. Qed.

Example TestStopAllRemembersLastActive :
  length (LastActive (scenario_stop_continue counting_world).1.1) = 2%nat /\
  HasActive (scenario_stop_continue counting_world).1.1 = false.
Proof. vm_compute. split; reflexivity. Qed.

Example TestContinueAll :
  let s := (scenario_stop_continue counting_world).1.2 in
  Active <$> Streams s = [true; true; false] /\
  LastActive s = [] /\
  isOpen <$> Sessions s = [false; true].
Proof. vm_compute. repeat split. Qed.

Example TestTotalWallClock :
  (TotalWallClock (mkStore [] [mkSession 0 (Some (3600 * Time.Second))] [] "urd.json")
     counting_world).1
  = 3600 * Time.Second.
Proof. vm_compute. reflexivity. Qed.

Example TestValidateConsistentData :
  (LoadStore "urd.json" (Save consistent_store counting_world).2).1
  = Ok consistent_store.
Proof. vm_compute. reflexivity. Qed.

(** ** Accumulated seconds, operation by operation *)

(** C4, amended. The accumulated seconds of a stream change only in
    [flushStream]. [ToggleStream] and [StopAll] flush a stream as it goes
    from active to inactive and keep the seconds of every other stream;
    [SaveForBackground] flushes the active streams too, and there the
    stream stays active. No other operation of the engine changes them:
    [ContinueAll] keeps all seconds; [AddStream] keeps the streams present
    and adds one with zero seconds; [DeleteStream] only removes a stream;
    [SortStreams] reorders the streams; [LoadStore] gives every stream
    the seconds it was saved with ([Save] returns no store at all). *)
Theorem accumulated_seconds_frame (s : Store) (w : World) :
  (forall id,
     Forall2 banked_on_deactivation (Streams s) (Streams (ToggleStream id s w).1)) /\
  Forall2 banked_on_deactivation (Streams s) (Streams (StopAll s w).1) /\
  Forall2 banked_in_background (Streams s) (Streams (SaveForBackground s w).1.1) /\
  Seconds <$> Streams (ContinueAll s w).1 = Seconds <$> Streams s /\
  (forall name at_, exists i st,
     Seconds st = 0 /\
     Streams (AddStream name at_ s w).1 = take i (Streams s) ++ st :: drop i (Streams s)) /\
  (forall id, Streams (DeleteStream id s) `sublist_of` Streams s) /\
  (forall SliceStable, permutes SliceStable ->
     Streams (SortStreams SliceStable s w).1 ≡ₚ Streams s) /\
  (forall path s', wellTyped s -> disk w path = Holds (Doc (marshalStore s)) ->
     (LoadStore path w).1 = Ok s' ->
     Seconds <$> Streams s' = Seconds <$> Streams s).
Proof.
  split; [|split; [|split; [|split; [|split; [|split; [|split]]]]]].
  - intros id. unfold ToggleStream. run.
    pose proof (toggleLoop_seconds id (Streams s) w) as H.
    destruct (toggleLoop id (Streams s) w) as [sts w1]. cbn [fst snd] in *.
    destruct (negb (HasActive s) && HasActive (setStreams sts s)).
    + run. exact H.
    + destruct (HasActive s && negb (HasActive (setStreams sts s))).
      * rewrite closeCurrentSession_run. exact H.
      * rewrite ret_run. exact H.
  - rewrite StopAll_streams.
    destruct (stopLoop_spec (Streams s) [] w) as (_ & Hlen & Hst & _).
    apply Forall2_same_length_lookup_2; [symmetry; exact Hlen|].
    intros i st st' Hi Hi'. rewrite (Hst i st Hi) in Hi'.
    inversion Hi'; subst st'. clear Hi'.
    destruct (Active st) eqn:Ha; [|left; reflexivity].
    apply banked_on_deactivation_flush, Ha.
  - unfold SaveForBackground. run. apply backgroundLoop_seconds.
  - apply ContinueAll_seconds.
  - intros name at_. destruct (AddStream_run name at_ s w) as [E _]. cbv zeta in E.
    eexists _, _. rewrite E. split; [|reflexivity]. reflexivity.
  - intros id. apply DeleteStream_sublist.
  - intros SliceStable Hperm. unfold SortStreams. rewrite bind_run, ret_run.
    cbn [fst Streams setStreams]. apply Hperm.
  - intros path s' Hwt Hdisk Hload.
    rewrite (LoadStore_persisted s path w Hwt Hdisk) in Hload.
    destruct (validate _ w).1; [discriminate|]. inversion Hload; subst s'.
    unfold written. cbn [Streams setStreams]. rewrite <- !list_fmap_compose.
    apply list_fmap_ext. intros i st _. cbn. unfold repair.
    destruct (Active st); [|reflexivity]. destruct (StartedAt st); reflexivity.
Qed.

(** C4 as stated fails: [SaveForBackground] adds the running delta to the
    seconds of an active stream (0 becomes 1 here) and leaves it active. *)
Lemma SaveForBackground_changes_seconds :
  (fun st => (Seconds st, Active st)) <$> Streams one_running_store = [(0, true)] /\
  (fun st => (Seconds st, Active st)) <$>
    Streams (SaveForBackground one_running_store (steady_world 0 x00)).1.1
  = [(1, true)].
Proof. vm_compute. split; reflexivity. Qed.

(** A store saved while a stream runs does not load once a second has
    passed: [validate] counts the banked seconds only, and the open
    session already has a positive wall-clock time. *)
Example save_while_running_fails_to_load :
  (scenario_save_while_running counting_world).1
  = (None, Err (ErrInconsistent "urd.json" 0 1000000000)).
Proof. vm_compute. reflexivity. Qed.

(** * Further properties of store.go *)

(** ** Finding a stream by its id *)

Lemma findID_None (id : string) (l : list Stream) :
  findID id l = None <-> id ∉ (ID <$> l).
Proof.
  induction l as [|st l IH]; cbn [findID].
  - split; [intros _ H; inversion H|reflexivity].
  - rewrite fmap_cons, not_elem_of_cons. destruct (String.eqb_spec (ID st) id) as [E|E].
    + split; [discriminate|]. intros [H _]. congruence.
    + destruct (findID id l) as [i|].
      * split; [discriminate|]. intros [_ H]. apply IH in H. discriminate.
      * split; [|reflexivity]. intros _. split; [congruence|]. apply IH. reflexivity.
Qed.

Lemma findID_first (id : string) (l : list Stream) (i : nat) :
  findID id l = Some i <-> first_with_id id l i.
Proof.
  revert i. induction l as [|st l IH]; intros i; cbn [findID].
  - split; [discriminate|]. intros [(x & Hx & _) _]. discriminate.
  - destruct (String.eqb_spec (ID st) id) as [E|E].
    + split.
      * intros H. inversion H; subst i. split; [exists st; split; [reflexivity|exact E]|].
        intros j st' Hj. lia.
      * intros [_ Hfirst]. destruct i as [|i]; [reflexivity|].
        exfalso. apply (Hfirst 0%nat st); [lia|reflexivity|exact E].
    + destruct i as [|i].
      * split.
        -- destruct (findID id l); discriminate.
        -- intros [(x & Hx & Hid) _]. cbn in Hx. inversion Hx; subst x. congruence.
      * specialize (IH i). split.
        -- intros H. assert (Ek : findID id l = Some i)
             by (destruct (findID id l); inversion H; reflexivity).
           apply IH in Ek as [(x & Hx & Hid) Hfirst].
           split; [exists x; split; [exact Hx|exact Hid]|].
           intros [|j] st' Hj Hst'; cbn in Hst'.
           ++ inversion Hst'; subst st'. exact E.
           ++ apply (Hfirst j st'); [lia|exact Hst'].
        -- intros [(x & Hx & Hid) Hfirst]. cbn in Hx.
           assert (Hi : findID id l = Some i).
           { apply IH. split; [exists x; split; assumption|].
             intros j st' Hj Hst'. apply (Hfirst (S j) st'); [lia|exact Hst']. }
           rewrite Hi. reflexivity.
Qed.

(** ** ToggleStream, stream by stream *)

Lemma toggleLoop_not_found (id : string) (l : list Stream) (w : World) :
  findID id l = None -> toggleLoop id l w = (l, w).
Proof.
  revert w. induction l as [|st l IH]; intros w; cbn [findID toggleLoop]; [reflexivity|].
  destruct (String.eqb (ID st) id); [discriminate|].
  destruct (findID id l); [discriminate|]. intros _. run. rewrite IH; reflexivity.
Qed.

Lemma toggleLoop_found (id : string) (l : list Stream) (i : nat) (w : World) :
  findID id l = Some i ->
  exists st, l !! i = Some st /\
    (toggleLoop id l w).1 = <[i := toggled (clock w 0%nat) st]> l.
Proof.
  revert i w. induction l as [|st l IH]; intros i w; cbn [findID toggleLoop];
    [discriminate|].
  destruct (String.eqb (ID st) id).
  - intros H. inversion H; subst i. exists st. split; [reflexivity|].
    unfold toggled. destruct (Active st); run.
    + destruct (flushStream_run st w) as [-> _]. reflexivity.
    + reflexivity.
  - destruct (findID id l) as [k|] eqn:Ek; [|discriminate].
    intros H. inversion H; subst i. destruct (IH k w eq_refl) as (x & Hx & E).
    exists x. split; [exact Hx|]. run. rewrite E. reflexivity.
Qed.

(** X1. [ToggleStream] with an id that no stream carries leaves the store
    and the world exactly as they are (no clock is read, no session is
    touched). With an id that is carried, it changes one stream only, the
    first one with the id: an active stream is flushed at the instant read
    (its seconds grow by [int64(d.Seconds())] of the time since its start)
    and becomes inactive without start, an inactive one becomes active
    with the instant read as start; ids, names, creation times,
    [LastActive] and the path stay. *)
Theorem ToggleStream_stream (id : string) (s : Store) (w : World) :
  (id ∉ (ID <$> Streams s) -> ToggleStream id s w = (s, w)) /\
  (forall i, first_with_id id (Streams s) i ->
     exists st, Streams s !! i = Some st /\
       Streams (ToggleStream id s w).1 = <[i := toggled (clock w 0%nat) st]> (Streams s) /\
       Active (toggled (clock w 0%nat) st) = negb (Active st) /\
       (is_Some (StartedAt (toggled (clock w 0%nat) st)) <-> Active st = false) /\
       ID (toggled (clock w 0%nat) st) = ID st /\
       Name (toggled (clock w 0%nat) st) = Name st /\
       CreatedAt (toggled (clock w 0%nat) st) = CreatedAt st) /\
  LastActive (ToggleStream id s w).1 = LastActive s /\
  FilePath (ToggleStream id s w).1 = FilePath s.
Proof.
  split; [|split].
  - intros H. apply findID_None in H. unfold ToggleStream. run.
    rewrite (toggleLoop_not_found id _ w H). cbn [fst snd].
    replace (setStreams (Streams s) s) with s by (destruct s; reflexivity).
    destruct (HasActive s); reflexivity.
  - intros i Hi. apply findID_first in Hi.
    destruct (toggleLoop_found id (Streams s) i w Hi) as (st & Hst & E).
    exists st. split; [exact Hst|]. split.
    + unfold ToggleStream. run. rewrite <- E.
      destruct (toggleLoop id (Streams s) w) as [sts w1]. cbn [fst snd].
      destruct (negb (HasActive s) && HasActive (setStreams sts s)); [run; reflexivity|].
      destruct (HasActive s && negb (HasActive (setStreams sts s))); reflexivity.
    + unfold toggled, flushAt. destruct (Active st) eqn:Ha.
      * destruct (StartedAt st); cbn; repeat split; try reflexivity;
          try (intros [x Hx]; discriminate); try discriminate.
      * cbn. repeat split; try reflexivity. intros _. eexists. reflexivity.
  - unfold ToggleStream. run.
    destruct (toggleLoop id (Streams s) w) as [sts w1]. cbn [fst snd].
    destruct (negb (HasActive s) && HasActive (setStreams sts s)); [run; split; reflexivity|].
    destruct (HasActive s && negb (HasActive (setStreams sts s))); split; reflexivity.
Qed.

(** ** DeleteStream *)

(** X2. [DeleteStream] with an id that no stream carries changes nothing.
    Otherwise it removes exactly the first stream with the id: the store
    has one stream fewer, the others keep their order, sessions,
    [LastActive] and path stay; and when the ids of the store are pairwise
    distinct, no stream carries the id afterwards. *)
Theorem DeleteStream_spec (id : string) (s : Store) :
  (id ∉ (ID <$> Streams s) -> DeleteStream id s = s) /\
  (forall i, first_with_id id (Streams s) i ->
     Streams (DeleteStream id s) = delete i (Streams s) /\
     length (Streams (DeleteStream id s)) = pred (length (Streams s))) /\
  Sessions (DeleteStream id s) = Sessions s /\
  LastActive (DeleteStream id s) = LastActive s /\
  FilePath (DeleteStream id s) = FilePath s /\
  (NoDup (ID <$> Streams s) -> id ∉ (ID <$> Streams (DeleteStream id s))).
Proof.
  split; [|split; [|split; [|split; [|split]]]].
  - intros H. apply findID_None in H. unfold DeleteStream. rewrite H. reflexivity.
  - intros i Hi. pose proof Hi as [(st & Hst & _) _]. apply findID_first in Hi.
    unfold DeleteStream. rewrite Hi. cbn [Streams setStreams].
    rewrite <- delete_take_drop. split; [reflexivity|].
    rewrite length_delete by eauto. lia.
  - apply DeleteStream_sessions.
  - unfold DeleteStream. destruct (findID id (Streams s)); reflexivity.
  - unfold DeleteStream. destruct (findID id (Streams s)); reflexivity.
  - intros Hnd. unfold DeleteStream. destruct (findID id (Streams s)) as [i|] eqn:E.
    + apply findID_first in E as [(st & Hst & Hid) _]. cbn [Streams setStreams].
      rewrite <- (take_drop_middle (Streams s) i st Hst) in Hnd.
      rewrite fmap_app, fmap_cons in Hnd.
      apply NoDup_app in Hnd as (_ & Hdis & Hnd2). apply NoDup_cons in Hnd2 as [Hnot _].
      rewrite fmap_app. intros Hin. apply elem_of_app in Hin as [Hin|Hin].
      * apply (Hdis _ Hin). rewrite Hid. apply elem_of_cons. left. reflexivity.
      * rewrite Hid in Hnot. exact (Hnot Hin).
    + apply findID_None, E.
Qed.

(** X3. Adding a stream and deleting it by its id gives back the streams
    of the store, in their order, provided the id drawn is not already in
    use. *)
Theorem AddStream_DeleteStream (name : string) (at_ : Z) (s : Store) (w : World) :
  (newID w).1 ∉ (ID <$> Streams s) ->
  Streams (DeleteStream (newID w).1 (AddStream name at_ s w).1) = Streams s.
Proof.
  intros Hfresh. destruct (AddStream_run name at_ s w) as [E _]. cbv zeta in E. rewrite E.
  set (st := mkStream (newID w).1 name 0 false None (clock w 0%nat)).
  set (i := clampPos at_ (length (Streams s))).
  assert (Hi : (i <= length (Streams s))%nat) by (unfold i, clampPos; lia).
  assert (Hlen : length (take i (Streams s)) = i) by (rewrite length_take; lia).
  assert (F : first_with_id (newID w).1 (take i (Streams s) ++ st :: drop i (Streams s)) i).
  { split.
    - exists st. split; [|reflexivity].
      apply list_lookup_middle. exact (eq_sym Hlen).
    - intros j st' Hj Hst' Hid. rewrite lookup_app_l in Hst' by lia.
      apply lookup_take_Some in Hst' as [Hst' _].
      apply Hfresh. rewrite <- Hid. apply list_elem_of_fmap. exists st'.
      split; [reflexivity|]. apply list_elem_of_lookup. exists j. exact Hst'. }
  apply findID_first in F. unfold DeleteStream. cbn [Streams setStreams]. rewrite F.
  cbn [Streams setStreams]. rewrite <- delete_take_drop.
  rewrite <- Hlen at 1. rewrite delete_middle. apply take_drop.
Qed.

(** The random source of [counting_world] gives the id "000102", which no
    stream of [three_streams_store] carries: a stream added at position 1
    and deleted again leaves the three streams as they were. *)
Lemma AddStream_DeleteStream_witness :
  Streams (DeleteStream "000102" (AddStream "D" 1 three_streams_store counting_world).1)
  = [mkStream "aaaaaa" "A" 5 false None 0; mkStream "bbbbbb" "B" 7 false None 0;
     mkStream "cccccc" "C" 9 false None 0].
Proof.
  apply (AddStream_DeleteStream "D" 1 three_streams_store counting_world).
  apply (bool_decide_unpack ("000102" ∉ (ID <$> Streams three_streams_store))).
  vm_compute. exact I.
Defined.

(** ** StopAll followed by ContinueAll *)

Lemma StopAll_lastActive (s : Store) (w : World) :
  LastActive (StopAll s w).1 = activeIDs (Streams s).
Proof.
  unfold StopAll. run. destruct (stopLoop_spec (Streams s) [] w) as (H & _).
  destruct (stopLoop (Streams s) [] w) as [[sts last] w1]. cbn [fst snd] in *.
  destruct (HasActive s); [rewrite closeCurrentSession_run|rewrite ret_run]; exact H.
Qed.

Lemma ContinueAll_streams (s : Store) (w : World) :
  Streams (ContinueAll s w).1 = continued (LastActive s) (clock w 0%nat) <$> Streams s.
Proof.
  unfold ContinueAll. destruct (LastActive s) as [|id0 ids] eqn:E; cbn [length Nat.eqb].
  - rewrite ret_run. cbn [fst]. symmetry. rewrite <- (list_fmap_id (Streams s)) at 2.
    apply list_fmap_ext. intros i st _. unfold continued. rewrite inIDs_idSet.
    rewrite bool_decide_eq_false_2 by apply not_elem_of_nil. reflexivity.
  - rewrite bind_run, ret_run. cbn [timeNow fst snd].
    match goal with
    | |- context [if ?b then _ else _] => destruct b
    end; reflexivity.
Qed.

Lemma elem_of_activeIDs (l : list Stream) (id : string) :
  id ∈ activeIDs l <-> exists st, st ∈ l /\ Active st = true /\ ID st = id.
Proof.
  unfold activeIDs. rewrite list_elem_of_fmap. split.
  - intros (st & -> & Hin). apply list_elem_of_In, List.filter_In in Hin as [Hin Ha].
    exists st. split; [apply list_elem_of_In, Hin|]. split; [exact Ha|reflexivity].
  - intros (st & Hin & Ha & <-). exists st. split; [reflexivity|].
    apply list_elem_of_In, List.filter_In. split; [apply list_elem_of_In, Hin|exact Ha].
Qed.

(** X4. [StopAll] followed by [ContinueAll] brings back the set of
    active streams: afterwards a stream is active exactly when its id is
    the id of a stream that was active before, so with pairwise distinct
    ids every stream has the activity it had; the streams keep their
    places, ids and names, and [LastActive] is empty again. *)
Theorem StopAll_ContinueAll (s : Store) (w : World) :
  let s2 := (ContinueAll (StopAll s w).1 (StopAll s w).2).1 in
  LastActive s2 = [] /\
  length (Streams s2) = length (Streams s) /\
  (forall i st, Streams s !! i = Some st ->
     exists st2, Streams s2 !! i = Some st2 /\
       ID st2 = ID st /\ Name st2 = Name st /\
       Active st2 = bool_decide (ID st ∈ activeIDs (Streams s))) /\
  (NoDup (ID <$> Streams s) -> Active <$> Streams s2 = Active <$> Streams s).
Proof.
  cbv zeta. set (s1 := (StopAll s w).1). set (w1 := (StopAll s w).2).
  assert (Hlast : LastActive (ContinueAll s1 w1).1 = []).
  { unfold ContinueAll. destruct (LastActive s1) as [|id0 ids] eqn:E; cbn [length Nat.eqb].
    - rewrite ret_run. exact E.
    - rewrite bind_run, ret_run. reflexivity. }
  destruct (stopLoop_spec (Streams s) [] w) as (_ & Hlen & Hst & _).
  assert (Hstreams : forall i st, Streams s !! i = Some st ->
            exists st2, Streams (ContinueAll s1 w1).1 !! i = Some st2 /\
              ID st2 = ID st /\ Name st2 = Name st /\
              Active st2 = bool_decide (ID st ∈ activeIDs (Streams s))).
  { intros i st Hi. rewrite ContinueAll_streams, list_lookup_fmap.
    unfold s1 at 2. rewrite StopAll_streams, (Hst i st Hi). cbn [fmap option_fmap option_map].
    eexists. split; [reflexivity|]. unfold continued, s1.
    rewrite StopAll_lastActive, inIDs_idSet.
    destruct (Active st) eqn:Ha.
    - cbn [deactivate ID Active negb]. replace (ID (flushAt _ st)) with (ID st)
        by (unfold flushAt; destruct (StartedAt st); reflexivity).
      destruct (bool_decide (ID st ∈ activeIDs (Streams s))); cbn;
        unfold flushAt; destruct (StartedAt st); repeat split.
    - rewrite Ha. destruct (bool_decide (ID st ∈ activeIDs (Streams s))); cbn;
        repeat split; exact Ha. }
  split; [exact Hlast|]. split; [|split; [exact Hstreams|]].
  - rewrite ContinueAll_streams, length_fmap. unfold s1. rewrite StopAll_streams. exact Hlen.
  - intros Hnd. apply list_eq. intros i. rewrite !list_lookup_fmap.
    destruct (Streams s !! i) as [st|] eqn:Hi.
    + destruct (Hstreams i st Hi) as (st2 & -> & _ & _ & Hact). cbn. f_equal.
      rewrite Hact. destruct (Active st) eqn:Ha.
      * apply bool_decide_eq_true_2, elem_of_activeIDs. exists st.
        split; [apply list_elem_of_lookup; eauto|]. split; [exact Ha|reflexivity].
      * apply bool_decide_eq_false_2. intros Hin.
        apply elem_of_activeIDs in Hin as (st' & Hin & Ha' & Hid).
        apply list_elem_of_lookup in Hin as [j Hj].
        assert (i = j).
        { apply (NoDup_lookup _ i j (ID st) Hnd); rewrite list_lookup_fmap.
          - rewrite Hi. reflexivity.
          - rewrite Hj. cbn. f_equal. exact Hid. }
        subst j. congruence.
    + rewrite lookup_ge_None_2; [reflexivity|].
      rewrite ContinueAll_streams, length_fmap. unfold s1.
      rewrite StopAll_streams, Hlen. apply lookup_ge_None_1, Hi.
Qed.

(** ** A start exactly on the active streams *)

Lemma well_started_activate now st : well_started (activate now st).
Proof. split; [intros _; eexists; reflexivity|reflexivity]. Qed.

Lemma well_started_deactivate st : well_started (deactivate st).
Proof. split; [discriminate|intros [x Hx]; discriminate]. Qed.

Lemma well_started_toggled now st : well_started (toggled now st).
Proof.
  unfold toggled. destruct (Active st);
    [apply well_started_deactivate|apply well_started_activate].
Qed.

Lemma toggleLoop_well_started id l w :
  Forall well_started l -> Forall well_started (toggleLoop id l w).1.
Proof.
  intros H. destruct (findID id l) as [i|] eqn:E.
  - destruct (toggleLoop_found id l i w E) as (st & _ & ->).
    apply Forall_insert; [exact H|apply well_started_toggled].
  - rewrite (toggleLoop_not_found id l w E). exact H.
Qed.

Lemma ToggleStream_streams id s w :
  Streams (ToggleStream id s w).1 = (toggleLoop id (Streams s) w).1.
Proof.
  unfold ToggleStream. run.
  destruct (toggleLoop id (Streams s) w) as [sts w1]. cbn [fst snd].
  destruct (negb (HasActive s) && HasActive (setStreams sts s)); [run; reflexivity|].
  destruct (HasActive s && negb (HasActive (setStreams sts s))); reflexivity.
Qed.

Lemma stopLoop_well_started l last w :
  Forall well_started l -> Forall well_started (stopLoop l last w).1.1.
Proof.
  intros H. destruct (stopLoop_spec l last w) as (_ & Hlen & Hst & _).
  apply Forall_lookup_2. intros i x Hi.
  assert (Hlt : (i < length l)%nat)
    by (rewrite <- Hlen; apply lookup_lt_is_Some_1; eauto).
  destruct (lookup_lt_is_Some_2 l i Hlt) as [st Hst0].
  rewrite (Hst i st Hst0) in Hi. inversion Hi; subst x.
  destruct (Active st); [apply well_started_deactivate|].
  exact (Forall_lookup_1 _ _ _ _ H Hst0).
Qed.

Lemma backgroundLoop_well_started now l :
  forall w, Forall well_started l -> Forall well_started (backgroundLoop now l w).1.
Proof.
  induction l as [|st l IH]; intros w H; cbn [backgroundLoop]; [constructor|].
  inversion H as [|? ? Hst Hl]; subst. destruct (Active st) eqn:Ha; run.
  - constructor; [|apply IH, Hl].
    destruct (flushStream_run st w) as [-> _].
    assert (Active (flushAt (clock w 0%nat) st) = true)
      by (unfold flushAt; destruct (StartedAt st); exact Ha).
    split; [intros _; eexists; reflexivity|intros _; cbn; assumption].
  - constructor; [exact Hst|apply IH, Hl].
Qed.

Lemma runOp_well_started o s w :
  Forall well_started (Streams s) -> Forall well_started (Streams (runOp o s w).1).
Proof.
  intros H. destruct o as [name at_|id|id| |]; cbn [runOp].
  - destruct (AddStream_run name at_ s w) as [-> _]. cbn [Streams setStreams].
    rewrite <- (take_drop (clampPos at_ (length (Streams s))) (Streams s)) in H.
    apply Forall_app in H as [H1 H2]. apply Forall_app. split; [exact H1|].
    constructor; [|exact H2]. split; [discriminate|intros [x Hx]; discriminate].
  - rewrite ret_run. cbn [fst].
    apply Forall_forall. intros x Hx. rewrite Forall_forall in H. apply H.
    exact (elem_of_sublist _ _ _ Hx (DeleteStream_sublist id s)).
  - rewrite ToggleStream_streams. apply toggleLoop_well_started, H.
  - rewrite StopAll_streams. apply stopLoop_well_started, H.
  - rewrite ContinueAll_streams. apply Forall_fmap.
    eapply Forall_impl; [exact H|]. intros st Hst. cbn. unfold continued.
    destruct (inIDs _ _ && negb _); [apply well_started_activate|exact Hst].
Qed.

(** X5. The engine keeps a start on exactly the active streams. If every
    stream of a store has a start exactly when it is active, the same holds
    after [AddStream], [DeleteStream], [ToggleStream], [StopAll],
    [ContinueAll] and [SaveForBackground], and after the delete path of
    main.go when it does not panic; so it holds in every store built from
    the empty one. *)
Theorem started_iff_active_kept (s : Store) (w : World) :
  (Forall well_started (Streams s) ->
     forall o, Forall well_started (Streams (runOp o s w).1)) /\
  (Forall well_started (Streams s) ->
     Forall well_started (Streams (SaveForBackground s w).1.1)) /\
  (forall SliceStable cursor s',
     permutes SliceStable -> Forall well_started (Streams s) ->
     (performDelete SliceStable cursor s w).1 = Some s' ->
     Forall well_started (Streams s')) /\
  (forall ops path,
     Forall well_started (Streams (runOps ops (mkStore [] [] [] path) w).1)).
Proof.
  split; [|split; [|split]].
  - intros H o. apply runOp_well_started, H.
  - intros H. unfold SaveForBackground. run. apply backgroundLoop_well_started, H.
  - intros SliceStable cursor s' Hperm H. unfold performDelete.
    destruct (Nat.eqb (length (Streams s)) 0); [rewrite ret_run; intros E; inversion E; subst; exact H|].
    destruct (Streams s !! cursor) as [stream|] eqn:Hc; [|rewrite ret_run; discriminate].
    set (s1 := if Active stream
               then setStreams (<[cursor := deactivate stream]> (Streams s)) s else s).
    assert (H1 : Forall well_started (Streams s1)).
    { unfold s1. destruct (Active stream); [|exact H]. cbn [Streams setStreams].
      apply Forall_insert; [exact H|apply well_started_deactivate]. }
    assert (H2 : Forall well_started (Streams (DeleteStream (ID stream) s1))).
    { apply Forall_forall. intros x Hx. rewrite Forall_forall in H1. apply H1.
      exact (elem_of_sublist _ _ _ Hx (DeleteStream_sublist _ s1)). }
    rewrite !bind_run, ret_run. cbn [fst]. intros E. inversion E; subst s'. clear E.
    unfold SortStreams. rewrite bind_run, ret_run. cbn [fst Streams setStreams].
    rewrite (Hperm lessStream _ _).
    destruct (Active stream && negb (HasActive (DeleteStream (ID stream) s1)));
      [rewrite closeCurrentSession_run|rewrite ret_run]; exact H2.
  - intros ops path. revert w.
    assert (G : forall s0, Forall well_started (Streams s0) ->
              forall w0, Forall well_started (Streams (runOps ops s0 w0).1)).
    { induction ops as [|o ops IH]; intros s0 H0 w0; cbn [runOps].
      - rewrite ret_run. exact H0.
      - rewrite bind_run. apply IH. apply runOp_well_started, H0. }
    intros w0. apply G. constructor.
Qed.

(** ** Elapsed time and the flush *)

Lemma Int64_wrap_mod (a : Z) : Int64.wrap a mod 2 ^ 64 = a mod 2 ^ 64.
Proof.
  unfold Int64.wrap. rewrite Zminus_mod_idemp_l. f_equal. lia.
Qed.

Lemma Int64_wrap_eq (a b : Z) : a mod 2 ^ 64 = b mod 2 ^ 64 -> Int64.wrap a = Int64.wrap b.
Proof.
  intros H. unfold Int64.wrap.
  rewrite <- (Zplus_mod_idemp_l a), <- (Zplus_mod_idemp_l b), H. reflexivity.
Qed.

(** X6. What deactivating a running stream does to its elapsed time.
    [Elapsed] counts the running period by [Truncate], the flush banks it
    by [int64(d.Seconds())]: once the stream is flushed at an instant and
    deactivated, [Elapsed] shows what it showed at that instant plus the
    seconds by which the conversion through [float64] exceeds the whole
    seconds of the period (in the wrapping arithmetic of [int64]); so it
    shows the same whenever the conversion gives the whole seconds. *)
Theorem Elapsed_flush (st : Stream) (t0 : Z) (w w' : World) :
  Active st = true ->
  StartedAt st = Some t0 ->
  (Elapsed (deactivate (flushAt (clock w 0%nat) st)) w').1 =
    Int64.add (Elapsed st w).1
      (Int64.mul (Time.wholeSeconds (Time.Sub (clock w 0%nat) t0)
                  - Z.quot (Time.Sub (clock w 0%nat) t0) Time.Second) Time.Second) /\
  (Time.wholeSeconds (Time.Sub (clock w 0%nat) t0)
   = Z.quot (Time.Sub (clock w 0%nat) t0) Time.Second ->
   (Elapsed (deactivate (flushAt (clock w 0%nat) st)) w').1 = (Elapsed st w).1).
Proof.
  intros Ha E.
  assert (G : forall k,
            Int64.wrap (Int64.wrap (Seconds st + k) * Time.Second) =
            Int64.add
              (Int64.add (Int64.mul (Seconds st) Time.Second)
                 (Time.Truncate (Time.Sub (clock w 0%nat) t0) Time.Second))
              (Int64.mul (k - Z.quot (Time.Sub (clock w 0%nat) t0) Time.Second)
                 Time.Second)).
  { intros k. set (d := Time.Sub (clock w 0%nat) t0).
    unfold Int64.mul, Int64.add, Time.Truncate.
    change (Time.Second <=? 0) with false. cbv iota.
    apply Int64_wrap_eq.
    rewrite <- Z.mul_mod_idemp_l, Int64_wrap_mod, Z.mul_mod_idemp_l by lia.
    rewrite <- Z.add_mod_idemp_l, Int64_wrap_mod, Z.add_mod_idemp_l by lia.
    rewrite <- Z.add_mod_idemp_r, Int64_wrap_mod, Z.add_mod_idemp_r by lia.
    rewrite <- Z.add_assoc, <- Z.add_mod_idemp_l, Int64_wrap_mod, Z.add_mod_idemp_l by lia.
    f_equal. pose proof (Z.quot_rem' d Time.Second). lia. }
  assert (E1 : (Elapsed (deactivate (flushAt (clock w 0%nat) st)) w').1 =
               Int64.wrap (Int64.wrap (Seconds st
                 + Time.wholeSeconds (Time.Sub (clock w 0%nat) t0)) * Time.Second)).
  { unfold Elapsed, flushAt. rewrite E. reflexivity. }
  assert (E2 : (Elapsed st w).1 =
               Int64.add (Int64.mul (Seconds st) Time.Second)
                 (Time.Truncate (Time.Sub (clock w 0%nat) t0) Time.Second)).
  { unfold Elapsed. rewrite E, Ha. rewrite bind_run. unfold timeSince.
    rewrite bind_run, !ret_run. reflexivity. }
  rewrite E1, E2. split; [apply G|].
  intros Hx. rewrite G, Hx, Z.sub_diag. unfold Int64.mul at 3.
  change (Int64.wrap (0 * Time.Second)) with 0. unfold Int64.add at 1.
  rewrite Z.add_0_r. unfold Int64.add. apply Int64_wrap_eq.
  rewrite Int64_wrap_mod. reflexivity.
Qed.

(** A stream running since instant 0, read at 2.5 s: both show 2 s more. *)
Lemma Elapsed_flush_witness :
  (Elapsed (deactivate (flushAt 2500000000 (mkStream "0a0b0c" "A" 7 true (Some 0) 0)))
     (steady_world 0 x00)).1
  = (Elapsed (mkStream "0a0b0c" "A" 7 true (Some 0) 0) (steady_world 2500000000 x00)).1.
Proof.
  apply (Elapsed_flush (mkStream "0a0b0c" "A" 7 true (Some 0) 0) 0
           (steady_world 2500000000 x00) (steady_world 0 x00) eq_refl eq_refl).
  vm_compute. reflexivity.
Defined.

(** A stream that has been running for 20000000.999999999 s shows
    20000000 s, and 20000001 s once it is stopped: the flush banks what the
    conversion through [float64] gives. *)
Example long_period_gains_a_second :
  (Elapsed (mkStream "0a0b0c" "A" 0 true (Some 0) 0)
     (steady_world 20000000999999999 x00)).1 = 20000000 * Time.Second /\
  (Elapsed (deactivate (flushAt 20000000999999999
                          (mkStream "0a0b0c" "A" 0 true (Some 0) 0)))
     (steady_world 0 x00)).1 = 20000001 * Time.Second.
Proof. vm_compute. split; reflexivity. Qed.

(** ** The wall clock *)

Lemma wallClockLoop_shifted (l : list Session) :
  forall total w, shifted (length l) w (wallClockLoop l total w).2.
Proof.
  induction l as [|x l IH]; intros total w; cbn [wallClockLoop length].
  - apply shifted_refl.
  - rewrite bind_run.
    exact (shifted_trans 1 (length l) _ _ _ (timeNow_shifted w) (IH _ _)).
Qed.

Lemma wallClockLoop_closed (l : list Session) :
  Forall (fun y => isOpen y = false) l ->
  forall total w w', (wallClockLoop l total w).1 = (wallClockLoop l total w').1.
Proof.
  induction 1 as [|x l Hx _ IH]; intros total w w'; cbn [wallClockLoop]; [reflexivity|].
  rewrite !bind_run. unfold isOpen in Hx. destruct (End x) as [e|]; [|discriminate].
  apply IH.
Qed.

(** X7. [TotalWallClock] is a whole number of seconds; it reads the clock
    once per session and changes nothing else in the world; and when no
    session is open its value does not depend on the clock at all: the
    wall-clock total of an idle store is the same whenever it is asked. *)
Theorem TotalWallClock_spec (s : Store) (w : World) :
  Z.rem (TotalWallClock s w).1 Time.Second = 0 /\
  shifted (length (Sessions s)) w (TotalWallClock s w).2 /\
  (Forall (fun y => isOpen y = false) (Sessions s) ->
   forall w', (TotalWallClock s w').1 = (TotalWallClock s w).1).
Proof.
  unfold TotalWallClock. rewrite bind_run, ret_run. cbn [fst snd].
  split; [|split].
  - unfold Time.Truncate. change (Time.Second <=? 0) with false. cbv iota.
    set (t := (wallClockLoop (Sessions s) 0 w).1).
    pose proof (Z.quot_rem' t Time.Second) as H.
    replace (t - Z.rem t Time.Second) with (Z.quot t Time.Second * Time.Second) by lia.
    apply Z.rem_mul. unfold Time.Second. lia.
  - apply wallClockLoop_shifted.
  - intros H w'. rewrite bind_run, ret_run. cbn [fst].
    rewrite (wallClockLoop_closed _ H 0 w' w). reflexivity.
Qed.

(** ** Loading: the edges *)

Lemma validate_shifted (s : Store) (w : World) :
  shifted (length (Sessions s)) w (validate s w).2.
Proof.
  unfold validate. rewrite bind_run.
  assert (H : shifted (length (Sessions s)) w (TotalWallClock s w).2).
  { unfold TotalWallClock. rewrite bind_run, ret_run. apply wallClockLoop_shifted. }
  destruct ((0 <? _) && (_ <? _)); rewrite ret_run; exact H.
Qed.

(** X8. [LoadStore] at its edges. A path that does not exist gives the
    empty store of that path, without error and without touching the
    world; a file that cannot be read gives the I/O error; a file that is
    not JSON gives the malformed-data error. Whatever the file, loading
    never changes the disk; and in every store it returns, every active
    stream has a start. *)
Theorem LoadStore_edges (path : string) (w : World) :
  (disk w path = Absent -> LoadStore path w = (Ok (mkStore [] [] [] path), w)) /\
  (disk w path = Unreadable -> LoadStore path w = (Err ErrIO, w)) /\
  (disk w path = Holds Garbage -> LoadStore path w = (Err ErrMalformed, w)) /\
  disk (LoadStore path w).2 = disk w /\
  (forall s, (LoadStore path w).1 = Ok s ->
     FilePath s = path /\
     Forall (fun st => Active st = true -> is_Some (StartedAt st)) (Streams s)).
Proof.
  unfold LoadStore. rewrite bind_run. unfold osReadFile. cbn [fst snd].
  split; [intros ->; reflexivity|]. split; [intros ->; reflexivity|].
  split; [intros ->; reflexivity|].
  destruct (disk w path) as [| |data] eqn:E.
  - rewrite ret_run. cbn [fst snd]. split; [reflexivity|].
    intros s H. inversion H; subst s. split; [reflexivity|constructor].
  - rewrite ret_run. cbn [fst snd]. split; [reflexivity|]. discriminate.
  - destruct (Unmarshal data (mkStore [] [] [] path)) as [s1|] eqn:Eu.
    + assert (Hpath : FilePath s1 = path) by exact (Unmarshal_FilePath _ _ _ Eu).
      rewrite bind_run. pose proof (validate_shifted s1 w) as (_ & _ & _ & Hd).
      destruct (validate s1 w) as [[err|] w1]; cbn [fst snd] in *.
      * rewrite ret_run. cbn [fst snd]. split; [exact Hd|discriminate].
      * rewrite bind_run, ret_run. cbn [timeNow fst snd disk].
        split; [exact Hd|]. intros s H. inversion H; subst s. clear H.
        cbn [Streams FilePath setStreams]. split; [exact Hpath|].
        apply Forall_fmap, Forall_true. intros st. cbn. unfold repair.
        destruct (Active st) eqn:Ha; [|congruence].
        destruct (StartedAt st) eqn:Es; cbn; rewrite ?Es; intros _; eexists; reflexivity.
    + rewrite ret_run. cbn [fst snd]. split; [reflexivity|discriminate].
Qed.

(** ** Saving: the atomic replace *)

Lemma string_length_app (a b : string) :
  String.length (a +:+ b) = (String.length a + String.length b)%nat.
Proof. induction a as [|c a IH]; simpl; [reflexivity|]. f_equal. exact IH. Qed.

Lemma tmp_path_differs (path : string) : String.eqb path (path +:+ ".tmp") = false.
Proof.
  apply String.eqb_neq. intros H. apply (f_equal String.length) in H.
  rewrite string_length_app in H. cbn in H. lia.
Qed.

(** X9. [Save] replaces the file atomically. It succeeds exactly when the
    store can be marshalled (every time of it has a year in 0..9999) and
    the write of the temporary file and the rename both succeed; then the
    path of the store holds the new document and the temporary path is
    gone. When the store cannot be marshalled, [Save] returns the error of
    the encoder and the world is untouched. Whenever it fails, the file at
    the path of the store is what it was before. In all cases no path
    other than these two changes. *)
Theorem Save_atomic (s : Store) (w : World) :
  let tmp := (FilePath s +:+ ".tmp")%string in
  ((Save s w).1 = None <->
   storeMarshals s = true /\ faults w 0%nat = false /\ faults w 1%nat = false) /\
  ((Save s w).1 = None ->
     disk (Save s w).2 (FilePath s) = Holds (Doc (marshalStore s)) /\
     disk (Save s w).2 tmp = Absent) /\
  (storeMarshals s = false -> Save s w = (Some ErrMarshal, w)) /\
  ((Save s w).1 <> None -> disk (Save s w).2 (FilePath s) = disk w (FilePath s)) /\
  (forall p, p <> FilePath s -> p <> tmp -> disk (Save s w).2 p = disk w p).
Proof.
  cbv zeta. unfold Save. destruct (storeMarshals s); cbn [negb].
  2:{ rewrite ret_run. cbn [fst snd].
      split; [split; [discriminate|intros [? _]; discriminate]|].
      split; [discriminate|]. repeat split; reflexivity. }
  rewrite bind_run.
  destruct (osWriteFile (FilePath s +:+ ".tmp") (Doc (marshalStore s)) w)
    as [e w1] eqn:E1.
  cbn [fst snd]. unfold osWriteFile in E1.
  destruct (faults w 0%nat) eqn:F0; inversion E1; subst e w1; clear E1.
  - rewrite ret_run. cbn [fst snd disk].
    split; [split; [discriminate|intros (_ & ? & _); discriminate]|].
    split; [discriminate|]. split; [discriminate|]. split; reflexivity.
  - unfold osRename. cbn [faults clock entropy disk].
    change (tail_tape (faults w) 0%nat) with (faults w 1%nat).
    destruct (faults w 1%nat) eqn:F1; cbn [fst snd disk]; unfold putFile.
    + split; [split; [discriminate|intros (_ & _ & ?); discriminate]|].
      split; [discriminate|]. split; [discriminate|]. split.
      * intros _. rewrite tmp_path_differs. reflexivity.
      * intros p _ Hp. apply String.eqb_neq in Hp. rewrite Hp. reflexivity.
    + split; [split; [intros _; repeat split; reflexivity|reflexivity]|].
      split; [|split; [discriminate|split]].
      * intros _. rewrite !String.eqb_refl. split; [reflexivity|].
        rewrite String.eqb_sym, tmp_path_differs. reflexivity.
      * intros H. congruence.
      * intros p Hp Hp'. apply String.eqb_neq in Hp, Hp'. rewrite Hp, Hp'. reflexivity.
Qed.

(** ** Identifiers *)

Lemma hexPair_byte (b : byte) (rest : string) :
  hexPair (EncodeToString [b] +:+ rest) = Byte.to_N b /\
  allHex (EncodeToString [b]) = true.
Proof. destruct b; vm_compute; split; reflexivity. Qed.

Lemma EncodeToString_byte_inj (b b' : byte) (r r' : string) :
  EncodeToString [b] +:+ r = EncodeToString [b'] +:+ r' -> b = b' /\ r = r'.
Proof.
  intros H. assert (Hb : b = b').
  { pose proof (proj1 (hexPair_byte b r)) as H1. rewrite H, (proj1 (hexPair_byte b' r')) in H1.
    pose proof (Byte.of_to_N b) as H2. rewrite <- H1, Byte.of_to_N in H2. congruence. }
  split; [exact Hb|]. subst b'. cbn [EncodeToString String.append] in H.
  injection H. auto.
Qed.

Lemma allHex_app (a b : string) : allHex (a +:+ b) = allHex a && allHex b.
Proof.
  induction a as [|c a IH]; simpl; [reflexivity|]. rewrite IH, andb_assoc. reflexivity.
Qed.

(** X10. An id made by [newID] is six characters long, every one a digit
    of "0123456789abcdef", and two ids are equal exactly when the three
    random bytes drawn are equal: the id loses nothing of the bytes. *)
Theorem newID_spec (w w' : World) :
  String.length (newID w).1 = 6%nat /\
  allHex (newID w).1 = true /\
  ((newID w).1 = (newID w').1 <->
     entropy w 0%nat = entropy w' 0%nat /\ entropy w 1%nat = entropy w' 1%nat /\
     entropy w 2%nat = entropy w' 2%nat).
Proof.
  destruct (newID_run w) as (-> & _). destruct (newID_run w') as (-> & _).
  set (a := entropy w 0%nat). set (b := entropy w 1%nat). set (c := entropy w 2%nat).
  set (a' := entropy w' 0%nat). set (b' := entropy w' 1%nat). set (c' := entropy w' 2%nat).
  split; [reflexivity|]. split.
  - change (EncodeToString [a; b; c])
      with (EncodeToString [a] +:+ EncodeToString [b] +:+ EncodeToString [c]).
    rewrite !allHex_app, (proj2 (hexPair_byte a "")), (proj2 (hexPair_byte b "")),
      (proj2 (hexPair_byte c "")). reflexivity.
  - split.
    + intros H.
      change (EncodeToString [a; b; c])
        with (EncodeToString [a] +:+ (EncodeToString [b] +:+ (EncodeToString [c] +:+ "")))
        in H.
      change (EncodeToString [a'; b'; c'])
        with (EncodeToString [a'] +:+ (EncodeToString [b'] +:+ (EncodeToString [c'] +:+ "")))
        in H.
      apply EncodeToString_byte_inj in H as [H1 H].
      apply EncodeToString_byte_inj in H as [H2 H].
      apply EncodeToString_byte_inj in H as [H3 _].
      repeat split; assumption.
    + intros (-> & -> & ->). reflexivity.
Qed.

(** * Properties of main.go *)

Lemma HasActive_perm (l l' : list Stream) :
  l ≡ₚ l' -> existsb Active l = existsb Active l'.
Proof.
  intros H. destruct (existsb Active l) eqn:E, (existsb Active l') eqn:E'; try reflexivity.
  - apply Forall_inactive_HasActive in E'. rewrite <- H in E'.
    apply Forall_inactive_HasActive in E'. congruence.
  - apply Forall_inactive_HasActive in E. rewrite H in E.
    apply Forall_inactive_HasActive in E. congruence.
Qed.

Lemma index_Some {A} (l : list A) (i : Z) :
  0 <= i < Z.of_nat (length l) -> exists x, index l i = Some x /\ l !! Z.to_nat i = Some x.
Proof.
  intros H. unfold index. destruct (i <? 0) eqn:E; [apply Z.ltb_lt in E; lia|].
  destruct (lookup_lt_is_Some_2 l (Z.to_nat i)) as [x Hx]; [lia|].
  exists x. split; exact Hx.
Qed.

Lemma index_inv {A} (l : list A) (i : Z) (x : A) :
  index l i = Some x -> 0 <= i < Z.of_nat (length l) /\ l !! Z.to_nat i = Some x.
Proof.
  unfold index. destruct (i <? 0) eqn:E; [discriminate|]. apply Z.ltb_ge in E.
  intros H. split; [|exact H]. apply lookup_lt_Some in H. lia.
Qed.

Section UpdateLoop.
Context (L : Library).
Context (Hperm : permutes (SliceStable L)).

Lemma SortStreams_run (s : Store) (w : World) :
  Streams (SortStreams (SliceStable L) s w).1 ≡ₚ Streams s /\
  Sessions (SortStreams (SliceStable L) s w).1 = Sessions s /\
  HasActive (SortStreams (SliceStable L) s w).1 = HasActive s /\
  length (Streams (SortStreams (SliceStable L) s w).1) = length (Streams s).
Proof.
  unfold SortStreams. rewrite bind_run, ret_run. cbn [fst Streams Sessions setStreams].
  pose proof (Hperm lessStream (Streams s) w) as H.
  split; [exact H|]. split; [reflexivity|]. split.
  - unfold HasActive. cbn [Streams]. apply HasActive_perm, H.
  - apply Permutation_length, H.
Qed.

(** What [sortAndFollow] keeps. *)
Lemma sortAndFollow_run (m : Main.model L) (w : World) :
  cursor_ok m ->
  exists m', (Main.sortAndFollow m w).1 = Some m' /\
    cursor_ok m' /\
    Main.store m' = (SortStreams (SliceStable L) (Main.store m) w).1 /\
    Main.ticking m' = Main.ticking m /\
    Main.adding m' = Main.adding m /\
    Main.confirmDel m' = Main.confirmDel m /\
    Main.pendingD m' = Main.pendingD m /\
    Main.textinput m' = Main.textinput m /\
    (forall st, index (Streams (Main.store m)) (Main.cursor m) = Some st ->
       exists st', index (Streams (Main.store m')) (Main.cursor m') = Some st' /\
         ID st' = ID st).
Proof.
  intros [H0 Hc]. unfold Main.sortAndFollow.
  destruct (SortStreams_run (Main.store m) w) as (Hp & _ & _ & Hlen).
  assert (Hid : exists id, Main.cursorID m = Some id /\
            forall st, index (Streams (Main.store m)) (Main.cursor m) = Some st ->
              id = ID st).
  { unfold Main.cursorID.
    destruct ((Main.len m =? 0) || (Main.len m <=? Main.cursor m)) eqn:E.
    - exists "". split; [reflexivity|]. intros st Hst. apply index_inv in Hst as [Hr _].
      unfold Main.len in E. apply orb_true_iff in E as [E|E]; lia.
    - apply orb_false_iff in E as [E1 E2]. unfold Main.len in *.
      destruct (index_Some (Streams (Main.store m)) (Main.cursor m)) as (x & Hx & _); [lia|].
      rewrite Hx. exists (ID x). split; [reflexivity|]. intros st Hst. congruence. }
  destruct Hid as (id & -> & Hid). rewrite bind_run, ret_run. cbn [fst].
  set (s' := (SortStreams (SliceStable L) (Main.store m) w).1) in *.
  destruct (findID id (Streams s')) as [i|] eqn:Ef.
  - apply findID_first in Ef as [(x & Hx & Hxid) _].
    pose proof (lookup_lt_Some _ _ _ Hx) as Hi.
    eexists. split; [reflexivity|]. cbn.
    split; [split; cbn; [lia|right; unfold Main.len; cbn; lia]|].
    repeat split; try reflexivity.
    intros st Hst. exists x. split; [|rewrite <- (Hid st Hst); exact Hxid].
    unfold index. destruct (Z.of_nat i <? 0) eqn:E; [lia|]. rewrite Nat2Z.id. exact Hx.
  - eexists. split; [reflexivity|]. cbn.
    split; [split; cbn; [exact H0|unfold Main.len in *; cbn; rewrite Hlen; exact Hc]|].
    repeat split; try reflexivity.
    intros st Hst. exfalso. apply findID_None in Ef. apply Ef.
    rewrite (Hid st Hst). apply index_inv in Hst as [_ Hst].
    apply list_elem_of_fmap. exists st. split; [reflexivity|].
    rewrite Hp. apply list_elem_of_lookup. eauto.
Qed.

Lemma andThen_run {A B} (c : IO (option A)) (k : A -> IO (option B)) (w : World) :
  Main.andThen c k w =
    match (c w).1 with
    | Some a => k a (c w).2
    | None => (None, (c w).2)
    end.
Proof.
  unfold Main.andThen. rewrite bind_run. destruct (c w).1; reflexivity.
Qed.

Lemma ToggleStream_length id s w :
  length (Streams (ToggleStream id s w).1) = length (Streams s).
Proof.
  rewrite ToggleStream_streams. destruct (findID id (Streams s)) as [i|] eqn:E.
  - destruct (toggleLoop_found _ _ _ w E) as (st & _ & ->). apply length_insert.
  - rewrite toggleLoop_not_found by exact E. reflexivity.
Qed.

Lemma StopAll_length s w : length (Streams (StopAll s w).1) = length (Streams s).
Proof.
  rewrite StopAll_streams. destruct (stopLoop_spec (Streams s) [] w) as (_ & H & _).
  exact H.
Qed.

Lemma StopAll_HasActive s w : HasActive (StopAll s w).1 = false.
Proof. unfold HasActive. rewrite StopAll_streams. apply stopLoop_inactive. Qed.

Lemma ContinueAll_length s w :
  length (Streams (ContinueAll s w).1) = length (Streams s).
Proof. rewrite ContinueAll_streams. apply length_fmap. Qed.

Lemma AddStream_length name at_ s w :
  length (Streams (AddStream name at_ s w).1) = S (length (Streams s)).
Proof.
  destruct (AddStream_run name at_ s w) as [-> _]. cbn [Streams setStreams].
  rewrite length_app. cbn [length]. rewrite Nat.add_succ_r, <- length_app, take_drop.
  reflexivity.
Qed.

Lemma AddStream_HasActive name at_ s w :
  HasActive (AddStream name at_ s w).1 = HasActive s.
Proof.
  destruct (AddStream_run name at_ s w) as [-> _]. unfold HasActive.
  cbn [Streams setStreams]. rewrite existsb_app. cbn [existsb Active orb].
  rewrite <- existsb_app, take_drop. reflexivity.
Qed.

Lemma DeleteStream_found (id : string) (s : Store) (i : nat) (x : Stream) :
  Streams s !! i = Some x -> ID x = id ->
  exists j, findID id (Streams s) = Some j /\
    Streams (DeleteStream id s) = delete j (Streams s) /\
    length (Streams (DeleteStream id s)) = pred (length (Streams s)).
Proof.
  intros Hi Hid. destruct (findID_Some id _ i x Hi Hid) as (j & Hj & Hlt).
  exists j. split; [exact Hj|]. unfold DeleteStream. rewrite Hj. cbn [Streams setStreams].
  rewrite <- delete_take_drop. split; [reflexivity|].
  rewrite length_delete; [lia|]. apply lookup_lt_is_Some_2. exact Hlt.
Qed.

Lemma HasActive_deactivate_at (s : Store) (i : nat) (st : Stream) :
  HasActive (setStreams (<[i := deactivate st]> (Streams s)) s) = true ->
  HasActive s = true.
Proof.
  unfold HasActive. cbn [Streams setStreams]. intros H.
  destruct (existsb Active (Streams s)) eqn:E; [reflexivity|].
  apply Forall_inactive_HasActive in E.
  assert (F : Forall (fun x => Active x = false) (<[i := deactivate st]> (Streams s))).
  { apply Forall_insert; [exact E|reflexivity]. }
  apply Forall_inactive_HasActive in F. congruence.
Qed.

(** The store after [performDelete] at a cursor in range. *)
Lemma performDelete_store_run (cursor : nat) (s : Store) (w : World) (st : Stream) :
  Streams s !! cursor = Some st ->
  exists s', (performDelete (SliceStable L) cursor s w).1 = Some s' /\
    length (Streams s') = pred (length (Streams s)) /\
    (HasActive s' = true -> HasActive s = true) /\
    (NoDup (ID <$> Streams s) -> Streams s' ≡ₚ delete cursor (Streams s)).
Proof.
  intros Hst. unfold performDelete.
  pose proof (lookup_lt_Some _ _ _ Hst) as Hlt.
  destruct (Nat.eqb_spec (length (Streams s)) 0) as [E|_]; [lia|]. rewrite Hst.
  set (s1 := if Active st then setStreams (<[cursor := deactivate st]> (Streams s)) s else s).
  assert (H1 : exists x, Streams s1 !! cursor = Some x /\ ID x = ID st).
  { subst s1. destruct (Active st).
    - exists (deactivate st). cbn [Streams setStreams].
      rewrite list_lookup_insert_eq by exact Hlt. split; reflexivity.
    - exists st. split; [exact Hst|reflexivity]. }
  assert (L1 : length (Streams s1) = length (Streams s)).
  { subst s1. destruct (Active st); [cbn; apply length_insert|reflexivity]. }
  assert (A1 : HasActive s1 = true -> HasActive s = true).
  { subst s1. destruct (Active st); [apply HasActive_deactivate_at|auto]. }
  destruct H1 as (x & Hx & Hxid).
  destruct (DeleteStream_found (ID st) s1 cursor x Hx Hxid) as (j & Hj & D2 & L2).
  assert (N2 : NoDup (ID <$> Streams s) ->
               Streams (DeleteStream (ID st) s1) = delete cursor (Streams s)).
  { intros Hn. rewrite D2.
    assert (Hids : ID <$> Streams s1 = ID <$> Streams s).
    { subst s1. destruct (Active st); [|reflexivity]. cbn [Streams setStreams].
      rewrite list_fmap_insert. apply list_insert_id.
      rewrite list_lookup_fmap, Hst. reflexivity. }
    assert (Ej : j = cursor).
    { apply findID_first in Hj as [(y & Hy & Hyid) _].
      apply (NoDup_lookup (ID <$> Streams s) j cursor (ID st) Hn).
      - rewrite <- Hids, list_lookup_fmap, Hy. cbn. rewrite Hyid. reflexivity.
      - rewrite list_lookup_fmap, Hst. reflexivity. }
    subst j. subst s1. destruct (Active st); [|reflexivity].
    cbn [Streams setStreams]. rewrite !delete_take_drop.
    rewrite take_insert_ge by lia. rewrite drop_insert_lt by lia. reflexivity. }
  pose proof (DeleteStream_HasActive (ID st) s1) as A2.
  set (s2 := DeleteStream (ID st) s1) in *.
  run.
  set (c3 := if Active st && negb (HasActive s2) then closeCurrentSession s2 else ret s2).
  assert (H3 : Streams (c3 w).1 = Streams s2).
  { subst c3. destruct (Active st && negb (HasActive s2)); reflexivity. }
  destruct (SortStreams_run (c3 w).1 (c3 w).2) as (P4 & _ & A4 & L4).
  eexists. split; [reflexivity|]. split; [|split].
  - rewrite L4, H3, L2, L1. reflexivity.
  - rewrite A4. unfold HasActive at 1. rewrite H3. intros H. apply A1, A2, H.
  - intros Hn. rewrite P4, H3. rewrite (N2 Hn). reflexivity.
Qed.

Lemma ui_ok_ext (m m' : Main.model L) :
  Main.store m' = Main.store m -> Main.cursor m' = Main.cursor m ->
  Main.ticking m' = Main.ticking m -> ui_ok m -> ui_ok m'.
Proof.
  unfold ui_ok, cursor_ok, Main.len. intros -> -> ->. auto.
Qed.

Lemma cursor_ok_in_range (m : Main.model L) :
  cursor_ok m -> Main.len m <> 0 -> 0 <= Main.cursor m < Main.len m.
Proof. unfold cursor_ok, Main.len. lia. Qed.

(** [sortAndFollow] in the middle of an update. *)
Lemma sortAndFollow_then {B} (m : Main.model L) (k : Main.model L -> IO (option B))
    (w : World) :
  cursor_ok m ->
  exists m', Main.andThen (Main.sortAndFollow m) k w = k m' (Main.sortAndFollow m w).2 /\
    (Main.sortAndFollow m w).1 = Some m' /\
    cursor_ok m' /\
    HasActive (Main.store m') = HasActive (Main.store m) /\
    length (Streams (Main.store m')) = length (Streams (Main.store m)) /\
    Main.ticking m' = Main.ticking m /\
    Main.confirmDel m' = Main.confirmDel m.
Proof.
  intros H. destruct (sortAndFollow_run m w H) as (m' & E & Hc & Hs & Ht & _ & Hd & _).
  exists m'. rewrite andThen_run, E. split; [reflexivity|]. split; [reflexivity|].
  split; [exact Hc|].
  destruct (SortStreams_run (Main.store m) w) as (_ & _ & A & Len).
  rewrite Hs. auto.
Qed.

Lemma startTicking_ok (m : Main.model L) (b : bool) :
  Main.store (Main.startTicking m b).1 = Main.store m /\
  Main.cursor (Main.startTicking m b).1 = Main.cursor m /\
  Main.confirmDel (Main.startTicking m b).1 = Main.confirmDel m /\
  (HasActive (Main.store m) = true -> Main.ticking (Main.startTicking m b).1 = true) /\
  ((Main.startTicking m b).2 = Main.tickCmd ->
   Main.ticking m = false /\ Main.ticking (Main.startTicking m b).1 = true).
Proof.
  unfold Main.startTicking.
  destruct (Main.ticking m) eqn:Et, (HasActive (Main.store m)) eqn:Ea, b;
    cbn; rewrite ?Et; repeat split; auto; discriminate.
Qed.

Lemma performDelete_step (m : Main.model L) (w : World) :
  ui_ok m ->
  exists r, (Main.performDelete m w).1 = Some r /\ ui_ok r.1 /\
    r.2 = Main.CmdNil /\
    length (Streams (Main.store r.1)) = pred (length (Streams (Main.store m))) /\
    Main.confirmDel r.1 = Main.confirmDel m /\
    (NoDup (ID <$> Streams (Main.store m)) ->
     Streams (Main.store r.1) ≡ₚ
       delete (Z.to_nat (Main.cursor m)) (Streams (Main.store m))).
Proof.
  intros [Hc Ht]. unfold Main.performDelete.
  destruct (Main.len m =? 0) eqn:E0.
  - apply Z.eqb_eq in E0. eexists. rewrite ret_run. split; [reflexivity|].
    split; [split; assumption|]. cbn. unfold Main.len in E0.
    split; [reflexivity|]. split; [lia|]. split; [reflexivity|].
    intros _. destruct (Streams (Main.store m)); [|cbn in E0; lia].
    destruct (Z.to_nat (Main.cursor m)); reflexivity.
  - apply Z.eqb_neq in E0. pose proof (cursor_ok_in_range m Hc E0) as Hr.
    destruct (Main.cursor m <? 0) eqn:E1; [apply Z.ltb_lt in E1; lia|].
    unfold Main.len in Hr.
    destruct (index_Some (Streams (Main.store m)) (Main.cursor m) Hr) as (st & _ & Hst).
    destruct (performDelete_store_run _ _ w st Hst) as (s' & Es & Hlen & Hact & Hdel).
    rewrite andThen_run, Es, ret_run. eexists. split; [reflexivity|]. cbn [fst snd].
    set (m1 := Main.setStore s' m).
    set (m2 := if (Main.len m1 <=? Main.cursor m1) && (0 <? Main.cursor m1)
               then Main.setCursor (Main.cursor m1 - 1) m1 else m1).
    assert (S2 : Main.store m2 = s').
    { subst m2. destruct (_ && _); reflexivity. }
    assert (T2 : Main.ticking m2 = Main.ticking m).
    { subst m2. destruct (_ && _); reflexivity. }
    assert (D2 : Main.confirmDel m2 = Main.confirmDel m).
    { subst m2. destruct (_ && _); reflexivity. }
    assert (C2 : cursor_ok m2).
    { subst m2. unfold cursor_ok, Main.len, m1. cbn [Main.store Main.cursor Main.setStore].
      destruct (Z.leb_spec (Z.of_nat (length (Streams s'))) (Main.cursor m));
        destruct (Z.ltb_spec 0 (Main.cursor m));
        cbn [andb Main.cursor Main.store Main.setCursor Main.setStore]; lia. }
    destruct (negb (HasActive (Main.store m2))) eqn:Ea.
    + split; [|cbn; rewrite S2; auto]. split; [exact C2|]. cbn.
      apply negb_true_iff in Ea. congruence.
    + split; [|rewrite S2; auto]. split; [exact C2|].
      rewrite S2, T2. intros H. apply Ht, Hact, H.
Qed.

Lemma updateConfirmDel_step (key : string) (m : Main.model L) (w : World) :
  ui_ok m ->
  exists r, (Main.updateConfirmDel key m w).1 = Some r /\ ui_ok r.1 /\
    r.2 = Main.CmdNil /\
    Main.confirmDel r.1 = false /\
    (if String.eqb key "y"
     then length (Streams (Main.store r.1)) = pred (length (Streams (Main.store m))) /\
          (NoDup (ID <$> Streams (Main.store m)) ->
           Streams (Main.store r.1) ≡ₚ
             delete (Z.to_nat (Main.cursor m)) (Streams (Main.store m)))
     else Main.store r.1 = Main.store m /\ Main.cursor r.1 = Main.cursor m).
Proof.
  intros H. unfold Main.updateConfirmDel. destruct (String.eqb key "y").
  - destruct (performDelete_step (Main.setConfirmDel false m) w)
      as (r & E & Hr & Hc & Hl & Hd & Hp).
    { revert H. apply ui_ok_ext; reflexivity. }
    exists r. split; [exact E|]. split; [exact Hr|]. split; [exact Hc|].
    split; [exact Hd|]. split; [exact Hl|exact Hp].
  - eexists. split; [reflexivity|]. split; [|cbn; auto].
    revert H. apply ui_ok_ext; reflexivity.
Qed.

Lemma updateAdding_step (key : string) (m : Main.model L) (w : World) :
  ui_ok m ->
  exists r, (Main.updateAdding key m w).1 = Some r /\ ui_ok r.1 /\
    r.2 <> Main.tickCmd /\
    (length (Streams (Main.store m)) <= length (Streams (Main.store r.1)))%nat /\
    Main.confirmDel r.1 = Main.confirmDel m.
Proof.
  intros H. unfold Main.updateAdding. destruct (String.eqb key "enter").
  - destruct (negb (String.eqb (TrimSpace L (tiValue L (Main.textinput m))) "")).
    + rewrite bind_run.
      set (pos0 := if Main.addAbove m then Main.cursor m else Main.cursor m + 1).
      set (pos := if Main.len m <=? pos0 then Main.len m else pos0).
      set (name := TrimSpace L (tiValue L (Main.textinput m))).
      pose proof (AddStream_length name pos (Main.store m) w) as Hlen.
      pose proof (AddStream_HasActive name pos (Main.store m) w) as Hact.
      set (s1 := (AddStream name pos (Main.store m) w).1) in *.
      set (m1 := Main.setStore s1 m).
      set (pos1 := if Main.len m1 <=? pos then Main.len m1 - 1 else pos).
      destruct H as [[H0 Hc] Ht].
      assert (C1 : cursor_ok (Main.setCursor pos1 m1)).
      { unfold cursor_ok, Main.len in *. cbn [Main.cursor Main.store Main.setCursor].
        subst pos1 pos pos0 m1. unfold Main.len in *. cbn [Main.store Main.setStore].
        destruct (Main.addAbove m);
          repeat match goal with
                 | |- context [?a <=? ?b] => destruct (Z.leb_spec a b)
                 end; lia. }
      destruct (sortAndFollow_then (Main.setCursor pos1 m1)
                  (fun m2 => do _ <- Save (Main.store m2);
                     ret (Some (Main.setTextinput (tiReset L (Main.textinput m2))
                                  (Main.setAdding false (Main.addAbove m2) m2),
                                @Main.CmdNil L)))
                  (AddStream name pos (Main.store m) w).2 C1)
        as (m2 & -> & _ & C2 & A2 & L2 & T2 & D2).
      run. eexists. split; [reflexivity|]. cbn [fst snd]. split.
      * apply (ui_ok_ext m2); try reflexivity. split; [exact C2|].
        rewrite A2, T2. cbn. fold s1. rewrite Hact. exact Ht.
      * split; [discriminate|]. cbn. rewrite L2, D2. cbn. fold s1. rewrite Hlen.
        split; [lia|reflexivity].
    + eexists. split; [reflexivity|]. split; [|cbn; split; [discriminate|auto]].
      revert H. apply ui_ok_ext; reflexivity.
  - destruct (String.eqb key "esc").
    + eexists. split; [reflexivity|]. split; [|cbn; split; [discriminate|auto]].
      revert H. apply ui_ok_ext; reflexivity.
    + destruct (tiUpdate L (KeyMsg key) (Main.textinput m)) as [t c].
      eexists. split; [reflexivity|]. split; [|cbn; split; [discriminate|auto]].
      revert H. apply ui_ok_ext; reflexivity.
Qed.

Lemma keyIndex_nonneg (key : string) (keys : list string) (n : Z) :
  keyIndex key keys = Some n -> 0 <= n.
Proof.
  revert n. induction keys as [|k keys IH]; intros n; cbn [keyIndex]; [discriminate|].
  destruct (String.eqb key k); [intros H; inversion H; lia|].
  destruct (keyIndex key keys) as [i|]; [|discriminate].
  intros H. inversion H. specialize (IH i eq_refl). lia.
Qed.

(** What a key does in the normal mode: the invariant is kept; a tick is
    started only when none was running; a stream goes away only on the
    second "d" on a stream without recorded time; the confirmation is asked
    only on the second "d" on a stream with recorded time. *)
Lemma updateNormal_step (key : string) (m : Main.model L) (w : World) :
  ui_ok m ->
  exists r, (Main.updateNormal key m w).1 = Some r /\ ui_ok r.1 /\
    (r.2 = Main.tickCmd -> Main.ticking m = false /\ Main.ticking r.1 = true) /\
    ((length (Streams (Main.store r.1)) < length (Streams (Main.store m)))%nat ->
     key = "d" /\ Main.pendingD m = true /\
     length (Streams (Main.store r.1)) = pred (length (Streams (Main.store m))) /\
     (NoDup (ID <$> Streams (Main.store m)) ->
      Streams (Main.store r.1) ≡ₚ
        delete (Z.to_nat (Main.cursor m)) (Streams (Main.store m))) /\
     exists st, index (Streams (Main.store m)) (Main.cursor m) = Some st /\
       (Elapsed st w).1 <= 0) /\
    (Main.confirmDel r.1 = true ->
     Main.confirmDel m = true \/
     (key = "d" /\ Main.pendingD m = true /\ Main.store r.1 = Main.store m /\
      exists st, index (Streams (Main.store m)) (Main.cursor m) = Some st /\
        0 < (Elapsed st w).1)).
Proof.
  intros H. unfold Main.updateNormal.
  set (m0 := if negb (String.eqb key "d") then Main.setPendingD false m else m).
  assert (H0 : ui_ok m0).
  { subst m0. destruct (negb _); [revert H; apply ui_ok_ext; reflexivity|exact H]. }
  assert (Es : Main.store m0 = Main.store m) by (subst m0; destruct (negb _); reflexivity).
  assert (Ec : Main.cursor m0 = Main.cursor m) by (subst m0; destruct (negb _); reflexivity).
  assert (Et : Main.ticking m0 = Main.ticking m) by (subst m0; destruct (negb _); reflexivity).
  assert (Ed : Main.confirmDel m0 = Main.confirmDel m)
    by (subst m0; destruct (negb _); reflexivity).
  assert (Ep : key = "d" -> Main.pendingD m0 = Main.pendingD m).
  { intros ->. subst m0. reflexivity. }
  clearbody m0. rewrite <- Es, <- Ec, <- Et, <- Ed. clear H Es Ec Et Ed.
  destruct H0 as [Hc Ht].
  destruct (keyIn key ["q"; "ctrl+c"]).
  { run. eexists. split; [reflexivity|]. cbn [fst snd]. split; [split|].
    - unfold cursor_ok, Main.len in *. cbn. rewrite StopAll_length. exact Hc.
    - cbn. rewrite StopAll_HasActive. discriminate.
    - cbn. rewrite StopAll_length. split; [discriminate|]. split; [lia|auto]. }
  destruct (keyIn key ["j"; "down"; "ctrl+j"]).
  { eexists. split; [reflexivity|]. cbn [fst snd]. split; [split|].
    - unfold cursor_ok, Main.len in *.
      destruct (Z.ltb_spec 0 (Z.of_nat (length (Streams (Main.store m0))))) as [E|E];
        cbn; [|exact Hc].
      pose proof (Z.rem_bound_pos (Main.cursor m0 + 1)
                    (Z.of_nat (length (Streams (Main.store m0)))) ltac:(lia) E). lia.
    - cbn; destruct (0 <? _); exact Ht.
    - destruct (0 <? _); cbn; (split; [discriminate|]; split; [lia|auto]). }
  destruct (keyIn key ["k"; "up"; "ctrl+k"]).
  { eexists. split; [reflexivity|]. cbn [fst snd]. split; [split|].
    - unfold cursor_ok, Main.len in *.
      destruct (Z.ltb_spec 0 (Z.of_nat (length (Streams (Main.store m0))))) as [E|E];
        cbn; [|exact Hc].
      pose proof (Z.rem_bound_pos
                    (Main.cursor m0 - 1 + Z.of_nat (length (Streams (Main.store m0))))
                    (Z.of_nat (length (Streams (Main.store m0)))) ltac:(lia) E). lia.
    - cbn; destruct (0 <? _); exact Ht.
    - destruct (0 <? _); cbn; (split; [discriminate|]; split; [lia|auto]). }
  destruct (String.eqb key "o").
  { eexists. split; [reflexivity|]. split.
    - apply (ui_ok_ext m0); try reflexivity. split; assumption.
    - cbn. split; [discriminate|]. split; [lia|auto]. }
  destruct (String.eqb key "O").
  { eexists. split; [reflexivity|]. split.
    - apply (ui_ok_ext m0); try reflexivity. split; assumption.
    - cbn. split; [discriminate|]. split; [lia|auto]. }
  destruct (keyIn key ["enter"; " "]).
  { destruct (Main.len m0 =? 0) eqn:E0.
    { eexists. split; [reflexivity|]. split; [split; assumption|].
      cbn. split; [discriminate|]. split; [lia|auto]. }
    apply Z.eqb_neq in E0. pose proof (cursor_ok_in_range m0 Hc E0) as Hr.
    unfold Main.len in Hr.
    destruct (index_Some (Streams (Main.store m0)) (Main.cursor m0) Hr) as (st & -> & _).
    rewrite bind_run.
    pose proof (ToggleStream_length (ID st) (Main.store m0) w) as Hlen.
    set (s1 := (ToggleStream (ID st) (Main.store m0) w).1) in *.
    assert (C1 : cursor_ok (Main.setStore s1 m0)).
    { unfold cursor_ok, Main.len in *. cbn. rewrite Hlen. exact Hc. }
    destruct (sortAndFollow_then (Main.setStore s1 m0)
                (fun m1 => do _ <- Save (Main.store m1);
                   ret (Some (Main.startTicking m1 true)))
                (ToggleStream (ID st) (Main.store m0) w).2 C1)
      as (m2 & -> & _ & C2 & A2 & L2 & T2 & D2).
    run. eexists. split; [reflexivity|]. cbn [fst snd].
    destruct (startTicking_ok m2 true) as (Es & Ec & Ed & Hk & Hcmd).
    split; [split|].
    - unfold cursor_ok, Main.len in *. rewrite Es, Ec. exact C2.
    - rewrite Es; exact Hk.
    - rewrite Es, Ed, L2, D2. cbn. rewrite Hlen. split; [|split; [lia|auto]].
      intros G. destruct (Hcmd G) as [G1 G2]. rewrite T2 in G1. auto. }
  destruct (String.eqb key "s").
  { rewrite bind_run.
    pose proof (StopAll_length (Main.store m0) w) as Hlen.
    pose proof (StopAll_HasActive (Main.store m0) w) as Hact.
    set (s1 := (StopAll (Main.store m0) w).1) in *.
    assert (C1 : cursor_ok (Main.setStore s1 m0)).
    { unfold cursor_ok, Main.len in *. cbn. rewrite Hlen. exact Hc. }
    destruct (sortAndFollow_then (Main.setStore s1 m0)
                (fun m1 => do _ <- Save (Main.store m1);
                   ret (Some (Main.setTicking false m1, @Main.CmdNil L)))
                (StopAll (Main.store m0) w).2 C1)
      as (m2 & -> & _ & C2 & A2 & L2 & T2 & D2).
    run. eexists. split; [reflexivity|]. cbn [fst snd]. split; [split|].
    - exact C2.
    - cbn. rewrite A2. cbn. rewrite Hact. discriminate.
    - cbn. rewrite L2, D2. cbn. rewrite Hlen. split; [discriminate|]. split; [lia|auto]. }
  destruct (String.eqb key "c").
  { rewrite bind_run.
    pose proof (ContinueAll_length (Main.store m0) w) as Hlen.
    set (s1 := (ContinueAll (Main.store m0) w).1) in *.
    assert (C1 : cursor_ok (Main.setStore s1 m0)).
    { unfold cursor_ok, Main.len in *. cbn. rewrite Hlen. exact Hc. }
    destruct (sortAndFollow_then (Main.setStore s1 m0)
                (fun m1 => do _ <- Save (Main.store m1);
                   ret (Some (Main.startTicking m1 false)))
                (ContinueAll (Main.store m0) w).2 C1)
      as (m2 & -> & _ & C2 & A2 & L2 & T2 & D2).
    run. eexists. split; [reflexivity|]. cbn [fst snd].
    destruct (startTicking_ok m2 false) as (Es & Ec & Ed & Hk & Hcmd).
    split; [split|].
    - unfold cursor_ok, Main.len in *. rewrite Es, Ec. exact C2.
    - rewrite Es; exact Hk.
    - rewrite Es, Ed, L2, D2. cbn. rewrite Hlen. split; [|split; [lia|auto]].
      intros G. destruct (Hcmd G) as [G1 G2]. rewrite T2 in G1. auto. }
  destruct (String.eqb_spec key "d") as [Ek|_].
  { specialize (Ep Ek). rewrite <- Ep. clear Ep.
    destruct (Main.pendingD m0) eqn:Ep; cbn [negb].
    2:{ eexists. split; [reflexivity|]. split.
        - apply (ui_ok_ext m0); try reflexivity. split; assumption.
        - cbn. split; [discriminate|]. split; [lia|auto]. }
    assert (H1 : ui_ok (Main.setPendingD false m0)).
    { apply (ui_ok_ext m0); try reflexivity. split; assumption. }
    cbv zeta. destruct (Main.len (Main.setPendingD false m0) =? 0) eqn:E0.
    { eexists. split; [reflexivity|]. split; [exact H1|].
      cbn. split; [discriminate|]. split; [lia|auto]. }
    apply Z.eqb_neq in E0. pose proof (cursor_ok_in_range _ (proj1 H1) E0) as Hr.
    unfold Main.len in Hr.
    destruct (index_Some _ _ Hr) as (st & Hst & _). rewrite Hst.
    rewrite bind_run. destruct (Z.ltb_spec 0 (Elapsed st w).1) as [Ee|Ee].
    { eexists. split; [reflexivity|]. split.
      - apply (ui_ok_ext m0); try reflexivity. split; assumption.
      - cbn. split; [discriminate|]. split; [lia|]. intros _. right.
        repeat split; auto. exists st. split; [exact Hst|exact Ee]. }
    destruct (performDelete_step (Main.setPendingD false m0) (Elapsed st w).2 H1)
      as (r & E & Hr' & Hcmd & Hl & Hd & Hp).
    exists r. split; [exact E|]. split; [exact Hr'|]. rewrite Hcmd, Hl, Hd. cbn.
    split; [discriminate|]. split; [|auto]. intros _.
    split; [exact Ek|]. split; [reflexivity|]. split; [reflexivity|].
    split; [exact Hp|]. exists st. split; [exact Hst|exact Ee]. }
  destruct (keyIndex key _) as [n|] eqn:En.
  - eexists. split; [reflexivity|]. cbn [fst snd]. apply keyIndex_nonneg in En.
    destruct (Z.ltb_spec n (Main.len m0)).
    + split; [split; [|exact Ht]|].
      * unfold cursor_ok, Main.len in *. cbn. lia.
      * cbn. split; [discriminate|]. split; [lia|auto].
    + split; [split; assumption|]. split; [discriminate|]. split; [lia|auto].
  - eexists. split; [reflexivity|]. split; [split; assumption|].
    cbn. split; [discriminate|]. split; [lia|auto].
Qed.

(** One [Update] from a model with the cursor in range and the tick
    running while a stream is active. *)
Lemma Update_step (msg : Msg) (m : Main.model L) (w : World) :
  ui_ok m ->
  exists r, (Main.Update msg m w).1 = Some r /\ ui_ok r.1 /\
    (r.2 = Main.tickCmd ->
     (msg = tickMsg /\ HasActive (Main.store m) = true) \/
     (msg <> tickMsg /\ Main.ticking m = false /\ Main.ticking r.1 = true)) /\
    ((length (Streams (Main.store r.1)) < length (Streams (Main.store m)))%nat ->
     length (Streams (Main.store r.1)) = pred (length (Streams (Main.store m))) /\
     (NoDup (ID <$> Streams (Main.store m)) ->
      Streams (Main.store r.1) ≡ₚ
        delete (Z.to_nat (Main.cursor m)) (Streams (Main.store m))) /\
     exists st, index (Streams (Main.store m)) (Main.cursor m) = Some st /\
       ((Main.confirmDel m = true /\ msg = KeyMsg "y") \/
        (Main.confirmDel m = false /\ Main.adding m = false /\
         Main.pendingD m = true /\ msg = KeyMsg "d" /\ (Elapsed st w).1 <= 0))) /\
    (Main.confirmDel r.1 = true ->
     (Main.confirmDel m = true /\ forall key, msg <> KeyMsg key) \/
     (Main.confirmDel m = false /\ Main.adding m = false /\
      Main.pendingD m = true /\ msg = KeyMsg "d" /\ Main.store r.1 = Main.store m /\
      exists st, index (Streams (Main.store m)) (Main.cursor m) = Some st /\
        0 < (Elapsed st w).1)).
Proof.
  intros H. destruct msg as [wd ht| |key|]; cbn [Main.Update].
  - eexists. split; [reflexivity|]. split; [revert H; apply ui_ok_ext; reflexivity|].
    cbn. split; [discriminate|]. split; [lia|]. intros G. left. split; [exact G|discriminate].
  - destruct (HasActive (Main.store m)) eqn:Ea.
    + destruct (sortAndFollow_then m (fun m1 => ret (Some (m1, @Main.tickCmd L))) w (proj1 H))
        as (m2 & -> & _ & C2 & A2 & L2 & T2 & D2).
      eexists. split; [reflexivity|]. cbn [fst snd]. split; [split; [exact C2|]|].
      * rewrite T2. intros _. apply H, Ea.
      * rewrite L2, D2. split; [auto|]. split; [lia|].
        intros G. left. split; [exact G|discriminate].
    + eexists. split; [reflexivity|]. split; [split; [exact (proj1 H)|cbn; congruence]|].
      cbn. split; [discriminate|]. split; [lia|].
      intros G. left. split; [exact G|discriminate].
  - destruct (Main.confirmDel m) eqn:Ed.
    { destruct (updateConfirmDel_step key m w H) as (r & E & Hr & Hcmd & Hd & Hy).
      exists r. split; [exact E|]. split; [exact Hr|]. rewrite Hcmd, Hd.
      split; [discriminate|]. split; [|discriminate].
      destruct (String.eqb_spec key "y") as [->|Hk].
      - intros Hlt. destruct Hy as [Hy Hp]. split; [exact Hy|]. split; [exact Hp|].
        destruct (index_Some (Streams (Main.store m)) (Main.cursor m)) as (st & Hst & _).
        { destruct H as [[H0 Hc] _]. unfold Main.len in Hc. lia. }
        exists st. split; [exact Hst|]. left. auto.
      - destruct Hy as [-> _]. lia. }
    destruct (Main.adding m) eqn:Ea.
    { destruct (updateAdding_step key m w H) as (r & E & Hr & Hcmd & Hl & Hd).
      exists r. split; [exact E|]. split; [exact Hr|]. rewrite Hd, Ed.
      split; [intros G; contradiction|]. split; [lia|discriminate]. }
    destruct (updateNormal_step key m w H) as (r & E & Hr & Hcmd & Hl & Hd).
    exists r. split; [exact E|]. split; [exact Hr|]. split; [|split].
    + intros G. right. split; [discriminate|]. apply Hcmd, G.
    + intros G. destruct (Hl G) as (-> & Hp & Hlen & Hdel & st & Hst & He).
      split; [exact Hlen|]. split; [exact Hdel|].
      exists st. split; [exact Hst|]. right. auto.
    + intros G. destruct (Hd G) as [G'|(-> & Hp & Hs & st & Hst & He)]; [congruence|].
      right. repeat split; auto. exists st. auto.
  - eexists. split; [reflexivity|]. split; [exact H|].
    cbn. split; [discriminate|]. split; [lia|]. intros G. left. split; [exact G|discriminate].
Qed.

Lemma initialModel_ui_ok (s : Store) (w : World) : ui_ok (Main.initialModel L s w).1.
Proof.
  unfold Main.initialModel. run. split.
  - unfold cursor_ok. cbn. lia.
  - cbn. auto.
Qed.

Lemma runMsgs_ui_ok (msgs : list Msg) :
  forall (m : Main.model L) (w : World),
    ui_ok m -> exists m', (runMsgs msgs m w).1 = Some m' /\ ui_ok m'.
Proof.
  induction msgs as [|msg msgs IH]; intros m w H; cbn [runMsgs].
  - exists m. split; [reflexivity|exact H].
  - destruct (Update_step msg m w H) as (r & E & Hr & _).
    rewrite andThen_run, E. apply IH, Hr.
Qed.

End UpdateLoop.

(** X11. The program never indexes the stream list out of range, and the
    cursor stays on the list: started by [initialModel] on any store and fed
    any messages (with a [sort.SliceStable] that permutes the slice), every
    [Update] returns, the cursor ends at an index of the list (0 on the
    empty list), and the tick is marked as running whenever a stream is
    active. At the start the cursor is 0 and [Init] asks for a tick exactly
    when a stream is active. *)
Theorem runProgram_cursor_in_range (L : Library) (s : Store) (msgs : list Msg)
    (w : World) :
  permutes (SliceStable L) ->
  (Main.cursor (Main.initialModel L s w).1 = 0 /\
   (Main.Init (Main.initialModel L s w).1 = Main.tickCmd <-> HasActive s = true)) /\
  exists m, (runProgram L s msgs w).1 = Some m /\
    0 <= Main.cursor m /\
    (Main.cursor m = 0 \/ Main.cursor m < Z.of_nat (length (Streams (Main.store m)))) /\
    (HasActive (Main.store m) = true -> Main.ticking m = true).
Proof.
  intros Hperm. split.
  - destruct (SortStreams_run L Hperm s w) as (_ & _ & Ha & _).
    unfold Main.initialModel, Main.Init. run. cbn [Main.cursor Main.ticking].
    split; [reflexivity|]. rewrite Ha. destruct (HasActive s); split; congruence.
  - unfold runProgram. rewrite bind_run.
    destruct (runMsgs_ui_ok L Hperm msgs _ (Main.initialModel L s w).2
                (initialModel_ui_ok L s w)) as (m & E & [[H0 Hc] Ht]).
    exists m. auto.
Qed.

Lemma runProgram_cursor_in_range_witness :
  permutes (SliceStable plain_library) /\
  exists m, (runProgram plain_library one_running_store
               [KeyMsg "o"; KeyMsg "B"; KeyMsg "enter"; tickMsg; KeyMsg "j";
                KeyMsg "d"; KeyMsg "d"; KeyMsg "y"; KeyMsg "k"; KeyMsg " "]
               (steady_world 0 x00)).1 = Some m /\
    0 <= Main.cursor m.
Proof.
  split; [exact insertionSort_permutes|].
  destruct (runProgram_cursor_in_range plain_library one_running_store
              [KeyMsg "o"; KeyMsg "B"; KeyMsg "enter"; tickMsg; KeyMsg "j";
               KeyMsg "d"; KeyMsg "d"; KeyMsg "y"; KeyMsg "k"; KeyMsg " "]
              (steady_world 0 x00) insertionSort_permutes)
    as (_ & m & E & H0 & _).
  exists m. split; [exact E|exact H0].
Defined.

(** X12. The tick of [Update]. From a model in which the tick is marked as
    running whenever a stream is active, this still holds after any
    message. A tick message asks for the next tick exactly when a stream is
    active (the list is then sorted again, no stream or session changing),
    and clears the mark otherwise. Any other message asks for a tick only
    when the mark was off, and sets it. *)
Theorem Update_tick (L : Library) (msg : Msg) (m : Main.model L) (w : World) :
  permutes (SliceStable L) ->
  cursor_ok m ->
  (HasActive (Main.store m) = true -> Main.ticking m = true) ->
  exists m' c, (Main.Update msg m w).1 = Some (m', c) /\
    (HasActive (Main.store m') = true -> Main.ticking m' = true) /\
    (msg = tickMsg ->
     if HasActive (Main.store m)
     then c = Main.tickCmd /\ Main.ticking m' = true /\
          Streams (Main.store m') ≡ₚ Streams (Main.store m) /\
          Sessions (Main.store m') = Sessions (Main.store m)
     else c = Main.CmdNil /\ m' = Main.setTicking false m) /\
    (msg <> tickMsg -> c = Main.tickCmd ->
     Main.ticking m = false /\ Main.ticking m' = true).
Proof.
  intros Hperm Hc Ht.
  destruct (Update_step L Hperm msg m w (conj Hc Ht)) as ([m' c] & E & [_ Ht'] & Hcmd & _).
  exists m', c. split; [exact E|]. split; [exact Ht'|]. split.
  - intros ->. cbn [Main.Update] in E. destruct (HasActive (Main.store m)) eqn:Ea.
    + destruct (sortAndFollow_run L Hperm m w Hc) as (m2 & E2 & _ & Hs & Hk & _).
      rewrite andThen_run, E2, ret_run in E. cbn [fst] in E. inversion E; subst m' c.
      destruct (SortStreams_run L Hperm (Main.store m) w) as (Hp & Hse & _).
      rewrite Hs, Hk. auto.
    + rewrite ret_run in E. inversion E. auto.
  - intros Hm G. destruct (Hcmd G) as [[G' _]|(_ & G1 & G2)]; [contradiction|auto].
Qed.

Lemma Update_tick_witness :
  exists m' c,
    (Main.Update tickMsg
       (Main.initialModel plain_library one_running_store (steady_world 0 x00)).1
       (steady_world 0 x00)).1 = Some (m', c) /\
    c = Main.tickCmd /\ Main.ticking m' = true.
Proof.
  destruct (Update_tick plain_library tickMsg
              (Main.initialModel plain_library one_running_store (steady_world 0 x00)).1
              (steady_world 0 x00) insertionSort_permutes)
    as (m' & c & E & _ & Hk & _).
  - unfold cursor_ok. vm_compute. split; [discriminate|left; reflexivity].
  - intros _. vm_compute. reflexivity.
  - exists m', c. split; [exact E|]. specialize (Hk eq_refl).
    vm_compute HasActive in Hk. destruct Hk as (Hc & Hk & _). auto.
Defined.

(** X13. A stream with recorded time is deleted only after a confirmation,
    when the ids of the streams are all different. Whatever the message,
    the list then loses one stream at most, the one under the cursor, and
    only in two ways: the key "y" while the confirmation is asked, or, in
    the normal mode, the second "d" on a stream whose elapsed time is not
    positive. The confirmation is asked only by the second "d" on a stream
    with positive elapsed time, which leaves the store as it is. While it
    is asked, any key ends it: "y" deletes the stream under the cursor,
    any other key leaves the store and the cursor unchanged. (With an id
    carried twice the stream removed is the first with the id of the one
    under the cursor, which may be another.) *)
Theorem Update_delete_confirmed (L : Library) (msg : Msg) (m : Main.model L)
    (w : World) :
  permutes (SliceStable L) ->
  cursor_ok m ->
  (HasActive (Main.store m) = true -> Main.ticking m = true) ->
  NoDup (ID <$> Streams (Main.store m)) ->
  exists m' c, (Main.Update msg m w).1 = Some (m', c) /\
    ((length (Streams (Main.store m')) < length (Streams (Main.store m)))%nat ->
     length (Streams (Main.store m')) = pred (length (Streams (Main.store m))) /\
     Streams (Main.store m') ≡ₚ
       delete (Z.to_nat (Main.cursor m)) (Streams (Main.store m)) /\
     exists st, index (Streams (Main.store m)) (Main.cursor m) = Some st /\
       ((Main.confirmDel m = true /\ msg = KeyMsg "y") \/
        (Main.confirmDel m = false /\ Main.adding m = false /\
         Main.pendingD m = true /\ msg = KeyMsg "d" /\ (Elapsed st w).1 <= 0))) /\
    (Main.confirmDel m' = true ->
     (Main.confirmDel m = true /\ forall key, msg <> KeyMsg key) \/
     (Main.confirmDel m = false /\ Main.adding m = false /\
      Main.pendingD m = true /\ msg = KeyMsg "d" /\ Main.store m' = Main.store m /\
      exists st, index (Streams (Main.store m)) (Main.cursor m) = Some st /\
        0 < (Elapsed st w).1)) /\
    (Main.confirmDel m = true -> forall key, msg = KeyMsg key ->
     Main.confirmDel m' = false /\ c = Main.CmdNil /\
     if String.eqb key "y"
     then length (Streams (Main.store m')) = pred (length (Streams (Main.store m))) /\
          Streams (Main.store m') ≡ₚ
            delete (Z.to_nat (Main.cursor m)) (Streams (Main.store m))
     else Main.store m' = Main.store m /\ Main.cursor m' = Main.cursor m).
Proof.
  intros Hperm Hc Ht Hn.
  destruct (Update_step L Hperm msg m w (conj Hc Ht)) as ([m' c] & E & _ & _ & Hl & Hd).
  exists m', c. split; [exact E|]. split; [|split; [exact Hd|]].
  - intros G. destruct (Hl G) as (H1 & H2 & H3). split; [exact H1|].
    split; [exact (H2 Hn)|exact H3].
  - intros Hcd key ->. cbn [Main.Update] in E. rewrite Hcd in E.
    destruct (updateConfirmDel_step L Hperm key m w (conj Hc Ht))
      as (r & E' & _ & Hcmd & Hd' & Hy).
    rewrite E' in E. inversion E; subst r. split; [exact Hd'|]. split; [exact Hcmd|].
    destruct (String.eqb key "y"); [|exact Hy].
    destruct Hy as [H1 H2]. split; [exact H1|exact (H2 Hn)].
Qed.

(** "y" with the cursor on the second of two streams, a running one:
    the first stream is what is left. *)
Lemma Update_delete_confirmed_witness :
  exists m' c,
    (Main.Update (KeyMsg "y")
       (Main.mkModel plain_library two_streams_store 1 false false false true "" true 0 0)
       (steady_world 0 x00)).1 = Some (m', c) /\
    Main.confirmDel m' = false /\
    Streams (Main.store m') ≡ₚ [mkStream "aaaaaa" "A" 5 false None 0].
Proof.
  destruct (Update_delete_confirmed plain_library (KeyMsg "y")
              (Main.mkModel plain_library two_streams_store 1 false false false true ""
                 true 0 0)
              (steady_world 0 x00) insertionSort_permutes)
    as (m' & c & E & _ & _ & Hy).
  - unfold cursor_ok. vm_compute. split; [discriminate|right; reflexivity].
  - intros _. reflexivity.
  - apply (bool_decide_unpack (NoDup (ID <$> Streams two_streams_store))).
    vm_compute. exact I.
  - exists m', c. split; [exact E|].
    destruct (Hy eq_refl "y" eq_refl) as (Hd & _ & _ & Hp). split; [exact Hd|exact Hp].
Defined.

(** With an id carried twice the confirmation can be passed by: the second
    "d" on the stream B, which has no recorded time, removes the stream A
    and its five seconds, the first stream with that id. *)
Example delete_with_shared_id :
  (fun r => (Streams (Main.store r.1), Main.confirmDel r.1)) <$>
    (Main.Update (KeyMsg "d")
       (Main.mkModel plain_library twin_store 1 false false true false "" false 0 0)
       (steady_world 0 x00)).1
  = Some ([mkStream "aaaaaa" "B" 0 false None 0], false).
Proof. vm_compute. reflexivity. Qed.

Lemma keyIn_cases (key : string) (keys : list string) :
  keyIn key keys = true -> key ∈ keys.
Proof.
  unfold keyIn. induction keys as [|k keys IH]; cbn [existsb]; [discriminate|].
  destruct (String.eqb_spec key k) as [->|_]; cbn [orb].
  - intros _. apply list_elem_of_here.
  - intros H. apply list_elem_of_further, IH, H.
Qed.

Lemma rem_next (c n : Z) :
  0 <= c < n -> Z.rem (c + 1) n = if c + 1 =? n then 0 else c + 1.
Proof.
  intros H. destruct (Z.eqb_spec (c + 1) n) as [E|E].
  - rewrite E. apply Z.rem_same. lia.
  - apply Z.rem_small. lia.
Qed.

Lemma rem_prev (c n : Z) :
  0 <= c < n -> Z.rem (c - 1 + n) n = if c =? 0 then n - 1 else c - 1.
Proof.
  intros H. rewrite Z.rem_mod_nonneg by lia. destruct (Z.eqb_spec c 0) as [E|E].
  - subst c. replace (0 - 1 + n) with (n - 1) by lia. apply Z.mod_small. lia.
  - replace (c - 1 + n) with (c - 1 + 1 * n) by lia.
    rewrite Z_mod_plus_full. apply Z.mod_small. lia.
Qed.

Lemma updateNormal_down (L : Library) (key : string) (m : Main.model L) (w : World) :
  keyIn key ["j"; "down"; "ctrl+j"] = true ->
  Main.updateNormal key m w =
    (Some (Main.setPendingD false
             (if 0 <? Main.len m
              then Main.setCursor (Z.rem (Main.cursor m + 1) (Main.len m))
                     (Main.setPendingD false m)
              else Main.setPendingD false m), Main.CmdNil), w).
Proof.
  intros H. apply keyIn_cases in H. unfold Main.updateNormal.
  repeat (apply elem_of_cons in H as [->|H]; [reflexivity|]).
  inversion H.
Qed.

Lemma updateNormal_up (L : Library) (key : string) (m : Main.model L) (w : World) :
  keyIn key ["k"; "up"; "ctrl+k"] = true ->
  Main.updateNormal key m w =
    (Some (Main.setPendingD false
             (if 0 <? Main.len m
              then Main.setCursor (Z.rem (Main.cursor m - 1 + Main.len m) (Main.len m))
                     (Main.setPendingD false m)
              else Main.setPendingD false m), Main.CmdNil), w).
Proof.
  intros H. apply keyIn_cases in H. unfold Main.updateNormal.
  repeat (apply elem_of_cons in H as [->|H]; [reflexivity|]).
  inversion H.
Qed.

(** X14. Moving the cursor. On a list with the cursor in range, a key of
    "j", "down", "ctrl+j" moves the cursor to the next stream and from the
    last one to the first; a key of "k", "up", "ctrl+k" moves it to the
    stream before and from the first one to the last; each undoes the
    other. Neither touches the store, reads the clock nor writes the file,
    and both forget a pending "d". *)
Theorem updateNormal_navigation (L : Library) (down up : string) (m : Main.model L)
    (w : World) :
  keyIn down ["j"; "down"; "ctrl+j"] = true ->
  keyIn up ["k"; "up"; "ctrl+k"] = true ->
  0 <= Main.cursor m < Main.len m ->
  exists md mu,
    Main.updateNormal down m w = (Some (md, Main.CmdNil), w) /\
    Main.updateNormal up m w = (Some (mu, Main.CmdNil), w) /\
    Main.store md = Main.store m /\ Main.store mu = Main.store m /\
    Main.pendingD md = false /\ Main.pendingD mu = false /\
    Main.cursor md =
      (if Main.cursor m + 1 =? Main.len m then 0 else Main.cursor m + 1) /\
    Main.cursor mu =
      (if Main.cursor m =? 0 then Main.len m - 1 else Main.cursor m - 1) /\
    (exists m1, Main.updateNormal up md w = (Some (m1, Main.CmdNil), w) /\
       Main.cursor m1 = Main.cursor m) /\
    (exists m2, Main.updateNormal down mu w = (Some (m2, Main.CmdNil), w) /\
       Main.cursor m2 = Main.cursor m).
Proof.
  intros Hd Hu Hr.
  assert (Hpos : (0 <? Main.len m) = true) by (apply Z.ltb_lt; lia).
  eexists. eexists.
  split; [apply (updateNormal_down L down m w Hd)|].
  split; [apply (updateNormal_up L up m w Hu)|].
  rewrite Hpos. cbn [Main.store Main.cursor Main.pendingD Main.setPendingD Main.setCursor].
  rewrite (rem_next _ _ Hr), (rem_prev _ _ Hr).
  repeat split.
  - eexists. split; [apply (updateNormal_up L up _ w Hu)|].
    unfold Main.len in *.
    cbn [Main.store Main.cursor Main.pendingD Main.setPendingD Main.setCursor].
    rewrite Hpos. cbn [Main.store Main.cursor Main.pendingD Main.setPendingD Main.setCursor].
    rewrite rem_prev by (destruct (Z.eqb_spec (Main.cursor m + 1)
                           (Z.of_nat (length (Streams (Main.store m))))); lia).
    destruct (Z.eqb_spec (Main.cursor m + 1) (Z.of_nat (length (Streams (Main.store m)))));
      [rewrite Z.eqb_refl; lia|].
    destruct (Z.eqb_spec (Main.cursor m + 1) 0); lia.
  - eexists. split; [apply (updateNormal_down L down _ w Hd)|].
    unfold Main.len in *.
    cbn [Main.store Main.cursor Main.pendingD Main.setPendingD Main.setCursor].
    rewrite Hpos. cbn [Main.store Main.cursor Main.pendingD Main.setPendingD Main.setCursor].
    rewrite rem_next by (destruct (Z.eqb_spec (Main.cursor m) 0); lia).
    destruct (Z.eqb_spec (Main.cursor m) 0) as [E|E].
    + rewrite E. replace (Z.of_nat (length (Streams (Main.store m))) - 1 + 1)
        with (Z.of_nat (length (Streams (Main.store m)))) by lia.
      rewrite Z.eqb_refl. reflexivity.
    + destruct (Z.eqb_spec (Main.cursor m - 1 + 1)
                  (Z.of_nat (length (Streams (Main.store m))))); lia.
Qed.

Lemma updateNormal_navigation_witness :
  exists md mu,
    Main.updateNormal "j"
      (Main.initialModel plain_library one_running_store (steady_world 0 x00)).1
      (steady_world 0 x00) = (Some (md, Main.CmdNil), steady_world 0 x00) /\
    Main.updateNormal "k"
      (Main.initialModel plain_library one_running_store (steady_world 0 x00)).1
      (steady_world 0 x00) = (Some (mu, Main.CmdNil), steady_world 0 x00) /\
    Main.cursor md = 0 /\ Main.cursor mu = 0.
Proof.
  destruct (updateNormal_navigation plain_library "j" "k"
              (Main.initialModel plain_library one_running_store (steady_world 0 x00)).1
              (steady_world 0 x00) eq_refl eq_refl)
    as (md & mu & Ed & Eu & _ & _ & _ & _ & Hd & Hu & _).
  - vm_compute. split; [discriminate|reflexivity].
  - exists md, mu. split; [exact Ed|]. split; [exact Eu|].
    split; [exact Hd|exact Hu].
Defined.

Lemma NoDup_fmap_eq {A B} (f : A -> B) (l : list A) (x y : A) :
  NoDup (f <$> l) -> x ∈ l -> y ∈ l -> f x = f y -> x = y.
Proof.
  induction l as [|a l IH]; intros Hn Hx Hy E; [inversion Hx|].
  rewrite fmap_cons in Hn. apply NoDup_cons in Hn as [Ha Hn].
  apply elem_of_cons in Hx as [->|Hx]; apply elem_of_cons in Hy as [->|Hy]; auto.
  - exfalso. apply Ha. rewrite E. apply list_elem_of_fmap. exists y. auto.
  - exfalso. apply Ha. rewrite <- E. apply list_elem_of_fmap. exists x. auto.
Qed.

Lemma sortAndFollow_world (L : Library) (m : Main.model L) (w : World) :
  0 <= Main.cursor m ->
  (Main.sortAndFollow m w).2 = (SortStreams (SliceStable L) (Main.store m) w).2.
Proof.
  intros H0. unfold Main.sortAndFollow, Main.cursorID.
  destruct ((Main.len m =? 0) || (Main.len m <=? Main.cursor m)) eqn:E.
  - rewrite bind_run, ret_run. reflexivity.
  - apply orb_false_iff in E as [_ E]. apply Z.leb_gt in E. unfold Main.len in E.
    destruct (index_Some (Streams (Main.store m)) (Main.cursor m)) as (x & -> & _); [lia|].
    cbn [fmap option_fmap option_map]. rewrite bind_run, ret_run. reflexivity.
Qed.

(** X15. [sortAndFollow] keeps the cursor on its stream. With the cursor in
    range and a [sort.SliceStable] that permutes the slice, it returns; the
    list is a permutation of the list before, the sessions are as before;
    the cursor is on the first stream that has the id of the stream it was
    on, which is that very stream when the ids are all different; on the
    empty list the cursor stays where it is. *)
Theorem sortAndFollow_follows (L : Library) (m : Main.model L) (w : World) :
  permutes (SliceStable L) ->
  cursor_ok m ->
  exists m', (Main.sortAndFollow m w).1 = Some m' /\
    Streams (Main.store m') ≡ₚ Streams (Main.store m) /\
    Sessions (Main.store m') = Sessions (Main.store m) /\
    LastActive (Main.store m') = LastActive (Main.store m) /\
    cursor_ok m' /\
    (Streams (Main.store m) = [] -> Main.cursor m' = Main.cursor m) /\
    (forall st, index (Streams (Main.store m)) (Main.cursor m) = Some st ->
     exists st', index (Streams (Main.store m')) (Main.cursor m') = Some st' /\
       ID st' = ID st /\
       first_with_id (ID st) (Streams (Main.store m')) (Z.to_nat (Main.cursor m')) /\
       (NoDup (ID <$> Streams (Main.store m)) -> st' = st)).
Proof.
  intros Hperm Hc.
  destruct (sortAndFollow_run L Hperm m w Hc) as (m' & E & Hc' & Hs & _ & _ & _ & _ & _ & Hf).
  destruct (SortStreams_run L Hperm (Main.store m) w) as (Hp & Hse & _ & _).
  exists m'. split; [exact E|]. rewrite Hs.
  split; [exact Hp|]. split; [exact Hse|]. split.
  { unfold SortStreams. run. reflexivity. }
  split; [exact Hc'|]. split.
  - intros Hnil. unfold Main.sortAndFollow in E.
    unfold Main.cursorID, Main.len in E. rewrite Hnil in E.
    change ((Z.of_nat (@length Stream []) =? 0)
            || (Z.of_nat (@length Stream []) <=? Main.cursor m)) with true in E.
    cbv iota in E. rewrite bind_run, ret_run in E. cbn [fst] in E.
    assert (Hn : Streams (SortStreams (SliceStable L) (Main.store m) w).1 = []).
    { apply Permutation_nil_r. rewrite <- Hnil. exact Hp. }
    rewrite Hn in E. cbn [findID] in E. inversion E. reflexivity.
  - intros st Hst. destruct (Hf st Hst) as (st' & Hst' & Hid). rewrite Hs in Hst'.
    exists st'. split; [exact Hst'|]. split; [exact Hid|].
    apply index_inv in Hst as [_ Hst]. apply index_inv in Hst' as [_ Hst']. split.
    + unfold Main.sortAndFollow in E.
      assert (Ei : Main.cursorID m = Some (ID st)).
      { unfold Main.cursorID.
        pose proof (lookup_lt_Some _ _ _ Hst) as Hlt.
        destruct Hc as [H0 _]. unfold Main.len.
        destruct (Z.eqb_spec (Z.of_nat (length (Streams (Main.store m)))) 0); [lia|].
        destruct (Z.leb_spec (Z.of_nat (length (Streams (Main.store m)))) (Main.cursor m));
          [lia|].
        cbn [orb]. unfold index. destruct (Z.ltb_spec (Main.cursor m) 0); [lia|].
        rewrite Hst. reflexivity. }
      rewrite Ei, bind_run, ret_run in E. cbn [fst] in E.
      destruct (findID (ID st) (Streams (SortStreams (SliceStable L) (Main.store m) w).1))
        as [i|] eqn:Ef.
      * inversion E. cbn [Main.cursor Main.setCursor]. rewrite Nat2Z.id.
        apply findID_first, Ef.
      * exfalso. apply findID_None in Ef. apply Ef. apply list_elem_of_fmap.
        exists st. split; [reflexivity|]. rewrite Hp. apply list_elem_of_lookup. eauto.
    + intros Hn. apply (NoDup_fmap_eq ID (Streams (Main.store m))); auto.
      * rewrite <- Hp. apply list_elem_of_lookup. eauto.
      * apply list_elem_of_lookup. eauto.
Qed.

(** In [two_streams_store] the idle stream A is first and the cursor is on
    it; sorting puts the active stream B first, and the cursor goes to
    index 1, where A now is. *)
Lemma sortAndFollow_follows_witness :
  exists m',
    (Main.sortAndFollow
       (Main.mkModel plain_library two_streams_store 0 false false false false "" true 0 0)
       (steady_world 0 x00)).1 = Some m' /\
    index (Streams (Main.store m')) (Main.cursor m')
    = Some (mkStream "aaaaaa" "A" 5 false None 0) /\
    Main.cursor m' = 1 /\
    Streams (Main.store m')
    = [mkStream "bbbbbb" "B" 0 true (Some 0) 0; mkStream "aaaaaa" "A" 5 false None 0].
Proof.
  destruct (sortAndFollow_follows plain_library
              (Main.mkModel plain_library two_streams_store 0 false false false false ""
                 true 0 0)
              (steady_world 0 x00) insertionSort_permutes)
    as (m' & E & _ & _ & _ & _ & _ & Hf).
  - unfold cursor_ok. vm_compute. split; [discriminate|right; split; reflexivity].
  - destruct (Hf (mkStream "aaaaaa" "A" 5 false None 0) eq_refl)
      as (st' & Hst' & _ & _ & Hnd).
    exists m'. split; [exact E|]. split.
    + rewrite Hst'. f_equal. apply Hnd.
      apply (bool_decide_unpack (NoDup (ID <$> Streams two_streams_store))).
      vm_compute. exact I.
    + pose proof E as E'. vm_compute in E'. injection E' as E'. rewrite <- E'.
      split; reflexivity.
Defined.

Lemma AddStream_lookup (name : string) (pos : Z) (s : Store) (w : World) :
  0 <= pos <= Z.of_nat (length (Streams s)) ->
  Streams (AddStream name pos s w).1 !! Z.to_nat pos =
    Some (mkStream (newID w).1 name 0 false None (clock w 0%nat)) /\
  Streams (AddStream name pos s w).1 ≡ₚ
    mkStream (newID w).1 name 0 false None (clock w 0%nat) :: Streams s /\
  Sessions (AddStream name pos s w).1 = Sessions s.
Proof.
  intros H. destruct (AddStream_run name pos s w) as [-> _].
  cbn [Streams Sessions setStreams].
  assert (Ei : clampPos pos (length (Streams s)) = Z.to_nat pos).
  { unfold clampPos. f_equal. lia. }
  rewrite Ei. split; [|split; [|reflexivity]].
  - apply list_lookup_middle. rewrite length_take. lia.
  - rewrite <- Permutation_middle, take_drop. reflexivity.
Qed.

(** X16. Enter while a stream is being added. With the cursor in range,
    the adding mode ends and the text input is reset. A name that is blank
    once trimmed changes neither the store, the cursor nor the file. Any
    other name goes to [AddStream] with the position below the cursor (at
    the cursor when adding above): one stream with that name, zero seconds
    and inactive is added, every other stream and the sessions are kept,
    the list is sorted, and the cursor is left on a stream with the id of
    the new one; then the sorted store is saved, and nothing else is done:
    when that save succeeds the file holds the store of the model. *)
Theorem updateAdding_enter (L : Library) (m : Main.model L) (w : World) :
  permutes (SliceStable L) ->
  cursor_ok m ->
  exists m', (Main.updateAdding "enter" m w).1 = Some (m', Main.CmdNil) /\
    Main.adding m' = false /\
    Main.textinput m' = tiReset L (Main.textinput m) /\
    if String.eqb (TrimSpace L (tiValue L (Main.textinput m))) ""
    then m' = Main.setTextinput (tiReset L (Main.textinput m))
                (Main.setAdding false (Main.addAbove m) m) /\
         (Main.updateAdding "enter" m w).2 = w
    else
      let added :=
        AddStream (TrimSpace L (tiValue L (Main.textinput m))) (addPosition m)
          (Main.store m) w in
      let sorted := SortStreams (SliceStable L) added.1 added.2 in
      Main.store m' = sorted.1 /\
      (Main.updateAdding "enter" m w).2 = (Save sorted.1 sorted.2).2 /\
      ((Save sorted.1 sorted.2).1 = None ->
       disk (Main.updateAdding "enter" m w).2 (FilePath (Main.store m)) =
         Holds (Doc (marshalStore (Main.store m')))) /\
      Streams (Main.store m') ≡ₚ
        mkStream (newID w).1 (TrimSpace L (tiValue L (Main.textinput m))) 0 false None
          (clock w 0%nat) :: Streams (Main.store m) /\
      Sessions (Main.store m') = Sessions (Main.store m) /\
      exists st', index (Streams (Main.store m')) (Main.cursor m') = Some st' /\
        ID st' = (newID w).1.
Proof.
  intros Hperm [H0 Hc]. unfold Main.updateAdding. cbn [String.eqb Ascii.eqb Bool.eqb].
  destruct (String.eqb (TrimSpace L (tiValue L (Main.textinput m))) "") eqn:En;
    cbn [negb].
  { eexists. split; [reflexivity|]. cbn. auto. }
  cbv zeta. rewrite !bind_run.
  change (if Main.len m <=? (if Main.addAbove m then Main.cursor m else Main.cursor m + 1)
          then Main.len m
          else if Main.addAbove m then Main.cursor m else Main.cursor m + 1)
    with (addPosition m).
  set (pos := addPosition m).
  set (name := TrimSpace L (tiValue L (Main.textinput m))).
  assert (Hpos : 0 <= pos <= Z.of_nat (length (Streams (Main.store m)))).
  { subst pos. unfold addPosition, Main.len in *. destruct (Main.addAbove m);
      repeat match goal with
             | |- context [?a <=? ?b] => destruct (Z.leb_spec a b)
             end; lia. }
  destruct (AddStream_lookup name pos (Main.store m) w Hpos) as (Hlk & Hp & Hse).
  pose proof (AddStream_length name pos (Main.store m) w) as Hlen.
  assert (Hfp : FilePath (AddStream name pos (Main.store m) w).1 = FilePath (Main.store m)).
  { destruct (AddStream_run name pos (Main.store m) w) as [-> _]. reflexivity. }
  set (s1 := (AddStream name pos (Main.store m) w).1) in *.
  set (w1 := (AddStream name pos (Main.store m) w).2).
  set (m1 := Main.setStore s1 m).
  assert (Hp1 : (if Main.len m1 <=? pos then Main.len m1 - 1 else pos) = pos).
  { unfold Main.len, m1. cbn [Main.store Main.setStore]. rewrite Hlen.
    destruct (Z.leb_spec (Z.of_nat (S (length (Streams (Main.store m))))) pos); lia. }
  rewrite Hp1.
  assert (C1 : cursor_ok (Main.setCursor pos m1)).
  { unfold cursor_ok, Main.len, m1. cbn [Main.cursor Main.store Main.setCursor Main.setStore].
    rewrite Hlen. lia. }
  destruct (sortAndFollow_run L Hperm (Main.setCursor pos m1) w1 C1)
    as (m2 & E2 & _ & Hs2 & _ & _ & _ & _ & Hti & Hf).
  pose proof (sortAndFollow_world L (Main.setCursor pos m1) w1 (proj1 C1)) as Hw2.
  cbn [Main.store Main.setCursor Main.setStore m1] in Hs2, Hw2.
  rewrite !andThen_run, !E2. run. rewrite Hw2, Hs2. eexists. split; [reflexivity|].
  cbn [Main.adding Main.textinput Main.setTextinput Main.setAdding Main.store Main.cursor].
  split; [reflexivity|]. split; [rewrite Hti; reflexivity|].
  destruct (SortStreams_run L Hperm s1 w1) as (Hps & Hss & _).
  rewrite Hs2.
  split; [reflexivity|]. split; [reflexivity|]. split.
  { intros Hsave. destruct (Save_ok _ _ Hsave) as [Hd _].
    rewrite <- Hfp. unfold SortStreams in Hd |- *. rewrite bind_run, ret_run in Hd |- *.
    exact Hd. }
  split; [rewrite Hps; exact Hp|]. split; [rewrite Hss; exact Hse|].
  destruct (Hf (mkStream (newID w).1 name 0 false None (clock w 0%nat)))
    as (st' & Hst' & Hid).
  { cbn [Main.store Main.cursor Main.setCursor Main.setStore m1]. unfold index.
    destruct (Z.ltb_spec pos 0); [lia|]. exact Hlk. }
  exists st'. rewrite <- Hs2. split; [exact Hst'|exact Hid].
Qed.

(** "D" is entered with the cursor on the second of three streams: four
    streams are there afterwards, and the file holds them. *)
Lemma updateAdding_enter_witness :
  exists m',
    (Main.updateAdding "enter"
       (Main.mkModel plain_library three_streams_store 1 true false false false "D"
          false 0 0)
       (steady_world 0 x00)).1 = Some (m', Main.CmdNil) /\
    length (Streams (Main.store m')) = 4%nat /\
    disk (Main.updateAdding "enter"
            (Main.mkModel plain_library three_streams_store 1 true false false false "D"
               false 0 0)
            (steady_world 0 x00)).2 "urd.json"
    = Holds (Doc (marshalStore (Main.store m'))).
Proof.
  destruct (updateAdding_enter plain_library
              (Main.mkModel plain_library three_streams_store 1 true false false false
                 "D" false 0 0)
              (steady_world 0 x00) insertionSort_permutes)
    as (m' & E & _ & _ & _ & _ & Hd & Hp & _).
  - unfold cursor_ok. vm_compute. split; [discriminate|right; reflexivity].
  - exists m'. split; [exact E|]. split.
    + apply Permutation_length in Hp. exact Hp.
    + apply Hd. vm_compute. reflexivity.
Defined.

(** * Properties of formatDuration *)

Lemma string_app_inj_length (a a' b b' : string) :
  String.length a = String.length a' ->
  (a +:+ b)%string = (a' +:+ b')%string -> a = a' /\ b = b'.
Proof.
  revert a'. induction a as [|c a IH]; intros [|c' a'] Hl H; cbn in *; try discriminate.
  - auto.
  - injection H as -> H. destruct (IH a' ltac:(lia) H) as [-> ->]. auto.
Qed.

Lemma string_app_empty_l (a : string) : ("" +:+ a)%string = a.
Proof. reflexivity. Qed.

Lemma below60_check (P : Z -> bool) :
  forallb P (seqZ 0 60) = true -> forall n, 0 <= n < 60 -> P n = true.
Proof.
  intros H n Hn. rewrite forallb_forall in H. apply H.
  apply list_elem_of_In, elem_of_seqZ. lia.
Qed.

Lemma pad2_length (n : Z) : 0 <= n < 60 -> String.length (pad2 n) = 2%nat.
Proof.
  intros H. apply Nat.eqb_eq.
  apply (below60_check (fun n => Nat.eqb (String.length (pad2 n)) 2)); [|exact H].
  vm_compute. reflexivity.
Qed.

Lemma pad2_inj (x y : Z) : 0 <= x < 60 -> 0 <= y < 60 -> pad2 x = pad2 y -> x = y.
Proof.
  intros Hx Hy E.
  pose proof (below60_check
    (fun x => forallb (fun y => implb (String.eqb (pad2 x) (pad2 y)) (x =? y)) (seqZ 0 60))
    ltac:(vm_compute; reflexivity) x Hx) as H.
  cbv beta in H. rewrite forallb_forall in H.
  specialize (H y ltac:(apply list_elem_of_In, elem_of_seqZ; lia)).
  rewrite E, String.eqb_refl in H. cbn [implb] in H. apply Z.eqb_eq, H.
Qed.

(** X18. What [formatDuration] shows. The text is made from
    [int(total.Seconds())], the seconds of the duration as the conversion
    through [float64] gives them. When these are not negative the text is
    the hours in decimal, then minutes and seconds on two digits each, and
    it tells these seconds apart and nothing more: two durations are shown
    alike exactly when the conversion gives them the same seconds. *)
Theorem formatDuration_exact (d d' : Z) :
  0 <= Time.wholeSeconds d -> 0 <= Time.wholeSeconds d' ->
  (String.length (formatDuration d) =
     (String.length (pretty (Z.quot (Time.wholeSeconds d) 3600)) + 9)%nat) /\
  (formatDuration d = formatDuration d' <->
   Time.wholeSeconds d = Time.wholeSeconds d').
Proof.
  intros Hs Hs'. unfold formatDuration. cbv zeta.
  set (s := Time.wholeSeconds d) in *. set (s' := Time.wholeSeconds d') in *.
  clearbody s s'. clear d d'.
  assert (B : forall s, 0 <= s ->
            0 <= Z.quot (Z.rem s 3600) 60 < 60 /\ 0 <= Z.rem s 60 < 60).
  { intros x Hx. Z.to_euclidean_division_equations. lia. }
  assert (Len : forall s, 0 <= s ->
            String.length ("h " +:+ pad2 (Z.quot (Z.rem s 3600) 60) +:+ "m " +:+
                           pad2 (Z.rem s 60) +:+ "s") = 9%nat).
  { intros x Hx. destruct (B x Hx) as [Hm Hsec].
    rewrite !string_length_app, (pad2_length _ Hm), (pad2_length _ Hsec). reflexivity. }
  split.
  - rewrite string_length_app, (Len s Hs). reflexivity.
  - split; [|intros ->; reflexivity].
    intros E. pose proof (f_equal String.length E) as El.
    rewrite !(string_length_app (pretty _)), (Len s Hs), (Len s' Hs') in El.
    apply string_app_inj_length in E as [Eh E]; [|lia].
    apply (inj pretty) in Eh.
    destruct (B s Hs) as [Hm Hsec]. destruct (B s' Hs') as [Hm' Hsec'].
    cbn [String.append] in E. injection E as E. rewrite !string_app_empty_l in E.
    apply string_app_inj_length in E as [Em E];
      [|rewrite (pad2_length _ Hm), (pad2_length _ Hm'); reflexivity].
    cbn [String.append] in E. injection E as E. rewrite !string_app_empty_l in E.
    apply string_app_inj_length in E as [Esec _];
      [|rewrite (pad2_length _ Hsec), (pad2_length _ Hsec'); reflexivity].
    apply pad2_inj in Em; [|assumption..]. apply pad2_inj in Esec; [|assumption..].
    revert Eh Em Esec. Z.to_euclidean_division_equations. lia.
Qed.

(** 20000000.999999999 s and 20000001 s are shown alike, as 5555h 33m 21s:
    the conversion gives 20000001 for both. *)
Lemma formatDuration_exact_witness :
  formatDuration 20000000999999999 = formatDuration 20000001000000000 /\
  formatDuration 20000000999999999 = "5555h 33m 21s".
Proof.
  split; [|vm_compute; reflexivity].
  apply (formatDuration_exact 20000000999999999 20000001000000000).
  - vm_compute. discriminate.
  - vm_compute. discriminate.
  - vm_compute. reflexivity.
Defined.

(** * Quitting and starting again *)

Lemma Int64_wrap_inRange (z : Z) : Int64.inRange (Int64.wrap z) = true.
Proof.
  unfold Int64.inRange, Int64.wrap, Int64.min, Int64.max.
  pose proof (Z.mod_pos_bound (z + 2 ^ 63) (2 ^ 64) ltac:(lia)).
  apply andb_true_iff. split; apply Z.leb_le; lia.
Qed.

Lemma StopAll_FilePath (s : Store) (w : World) : FilePath (StopAll s w).1 = FilePath s.
Proof.
  unfold StopAll. run. destruct (stopLoop (Streams s) [] w) as [[sts last] w1].
  cbn [fst snd]. destruct (HasActive s); reflexivity.
Qed.

Lemma StopAll_wellTyped (s : Store) (w : World) :
  wellTyped s -> wellTyped (StopAll s w).1.
Proof.
  unfold wellTyped. intros H. rewrite StopAll_streams.
  destruct (stopLoop_spec (Streams s) [] w) as (_ & Hlen & Hst & _).
  apply Forall_lookup_2. intros i x Hi.
  assert (Hlt : (i < length (Streams s))%nat)
    by (rewrite <- Hlen; apply lookup_lt_is_Some_1; eauto).
  destruct (lookup_lt_is_Some_2 (Streams s) i Hlt) as [st Hst0].
  rewrite (Hst i st Hst0) in Hi. inversion Hi; subst x.
  pose proof (Forall_lookup_1 _ _ _ _ H Hst0) as Hr. cbv beta in Hr.
  destruct (Active st); [|exact Hr].
  unfold deactivate, flushAt. destruct (StartedAt st); cbn [Seconds]; [|exact Hr].
  apply Int64_wrap_inRange.
Qed.

Lemma StopAll_validText (s : Store) (w : World) :
  Forall (fun st => Utf8.valid (ID st) /\ Utf8.valid (Name st)) (Streams s) ->
  validText (StopAll s w).1.
Proof.
  intros H. split.
  - rewrite StopAll_streams.
    destruct (stopLoop_spec (Streams s) [] w) as (_ & Hlen & Hst & _).
    apply Forall_lookup_2. intros i x Hi.
    assert (Hlt : (i < length (Streams s))%nat)
      by (rewrite <- Hlen; apply lookup_lt_is_Some_1; eauto).
    destruct (lookup_lt_is_Some_2 (Streams s) i Hlt) as [st Hst0].
    rewrite (Hst i st Hst0) in Hi. inversion Hi; subst x.
    pose proof (Forall_lookup_1 _ _ _ _ H Hst0) as Hr. cbv beta in Hr.
    destruct (Active st); [|exact Hr].
    unfold deactivate, flushAt. destruct (StartedAt st); exact Hr.
  - rewrite StopAll_lastActive. unfold activeIDs.
    apply Forall_fmap, Forall_forall. intros st Hin. cbn.
    apply list_elem_of_In, filter_In in Hin as [Hin _].
    apply list_elem_of_In in Hin. rewrite Forall_forall in H. apply (H st Hin).
Qed.

(** X17. Quitting, and what the next start finds. In the normal mode "q"
    or "ctrl+c" stops every stream, remembers the ids of the streams that
    were active, saves, and returns the quit command. When the save
    succeeds, the seconds fit their [int64] and the ids and names are
    valid UTF-8, [LoadStore] of the same path gives back exactly the
    stopped store, unless its validation rejects the totals. *)
Theorem quit_then_restart (L : Library) (key : string) (m : Main.model L) (w : World) :
  keyIn key ["q"; "ctrl+c"] = true ->
  Main.confirmDel m = false ->
  Main.adding m = false ->
  wellTyped (Main.store m) ->
  Forall (fun st => Utf8.valid (ID st) /\ Utf8.valid (Name st))
    (Streams (Main.store m)) ->
  exists m',
    (Main.Update (KeyMsg key) m w).1 = Some (m', Main.Quit) /\
    Main.store m' = (StopAll (Main.store m) w).1 /\
    Main.cursor m' = Main.cursor m /\
    HasActive (Main.store m') = false /\
    LastActive (Main.store m') = activeIDs (Streams (Main.store m)) /\
    (Main.Update (KeyMsg key) m w).2 =
      (Save (Main.store m') (StopAll (Main.store m) w).2).2 /\
    ((Save (Main.store m') (StopAll (Main.store m) w).2).1 = None ->
     (LoadStore (FilePath (Main.store m)) (Main.Update (KeyMsg key) m w).2).1 =
       match (validate (Main.store m') (Main.Update (KeyMsg key) m w).2).1 with
       | Some err => Err err
       | None => Ok (Main.store m')
       end).
Proof.
  intros Hk Hcd Had Hwt Hvalid. cbn [Main.Update]. rewrite Hcd, Had.
  assert (E : Main.updateNormal key m w =
            (Some (Main.setStore (StopAll (Main.store m) w).1 (Main.setPendingD false m),
                   Main.Quit),
             (Save (StopAll (Main.store m) w).1 (StopAll (Main.store m) w).2).2)).
  { apply keyIn_cases in Hk. unfold Main.updateNormal.
    repeat (apply elem_of_cons in Hk as [->|Hk];
            [cbn [String.eqb Ascii.eqb Bool.eqb negb keyIn existsb orb];
             cbn [Main.store Main.setPendingD]; run; reflexivity|]).
    inversion Hk. }
  rewrite E. cbn [fst snd]. eexists. split; [reflexivity|].
  cbn [Main.store Main.cursor Main.setStore Main.setPendingD].
  split; [reflexivity|]. split; [reflexivity|].
  split; [apply StopAll_HasActive|]. split; [apply StopAll_lastActive|].
  split; [reflexivity|]. intros Hsave.
  pose proof (StopAll_validText (Main.store m) w Hvalid) as Hv.
  set (s' := (StopAll (Main.store m) w).1) in *.
  destruct (Save_ok s' _ Hsave) as [Hdisk _].
  rewrite <- (StopAll_FilePath (Main.store m) w). fold s'.
  rewrite (LoadStore_persisted s' (FilePath s') _ (StopAll_wellTyped _ w Hwt) Hdisk).
  rewrite store_eta.
  destruct (validate s' _).1; [reflexivity|].
  rewrite repair_started.
  - assert (Es : setStreams (Streams s') s' = s') by (destruct s'; reflexivity).
    rewrite Es, (written_valid s' Hv). reflexivity.
  - pose proof (StopAll_HasActive (Main.store m) w) as Hi. fold s' in Hi.
    apply Forall_inactive_HasActive in Hi.
    eapply Forall_impl; [exact Hi|]. cbv beta. intros st -> ?. discriminate.
Qed.

(** "q" on [two_streams_store], where B is running: B is stopped, the
    store is saved, and loading the file gives the stopped store. *)
Lemma quit_then_restart_witness :
  exists m',
    (Main.Update (KeyMsg "q")
       (Main.mkModel plain_library two_streams_store 1 false false false false "" true 0 0)
       (steady_world 0 x00)).1 = Some (m', Main.Quit) /\
    HasActive (Main.store m') = false /\
    LastActive (Main.store m') = ["bbbbbb"] /\
    (LoadStore "urd.json"
       (Main.Update (KeyMsg "q")
          (Main.mkModel plain_library two_streams_store 1 false false false false "" true
             0 0)
          (steady_world 0 x00)).2).1 = Ok (Main.store m').
Proof.
  destruct (quit_then_restart plain_library "q"
              (Main.mkModel plain_library two_streams_store 1 false false false false ""
                 true 0 0)
              (steady_world 0 x00) eq_refl eq_refl eq_refl)
    as (m' & E & Hs & _ & Ha & Hl & _ & Hload).
  - repeat constructor.
  - repeat constructor.
  - exists m'. split; [exact E|]. split; [exact Ha|]. split; [exact Hl|].
    cbn [Main.store FilePath two_streams_store] in Hload.
    rewrite Hload.
    + rewrite Hs. vm_compute. reflexivity.
    + rewrite Hs. vm_compute. reflexivity.
Defined.

(** * The order of SortStreams *)

Lemma Elapsed_inactive (st : Stream) (w : World) :
  Active st = false -> Elapsed st w = (Int64.mul (Seconds st) Time.Second, w).
Proof.
  intros H. unfold Elapsed. rewrite H. destruct (StartedAt st); reflexivity.
Qed.

(** X19. The comparison [SortStreams] sorts with. An active stream comes
    before an inactive one and never the other way round, whatever the
    clock. Between two inactive streams it reads no clock and is the strict
    order of the accumulated time, longest first: no stream is before
    itself, two streams are never each before the other, and the order is
    transitive; as long as the seconds times 10^9 fit an [int64] it is the
    order of the seconds themselves. *)
Theorem lessStream_order (a b c : Stream) (w : World) :
  (Active a = true -> Active b = false ->
   lessStream a b w = (true, w) /\ lessStream b a w = (false, w)) /\
  (Active a = false -> Active b = false ->
   (lessStream a b w).2 = w /\
   (lessStream a a w).1 = false /\
   ((lessStream a b w).1 = true -> (lessStream b a w).1 = false) /\
   (Active c = false -> (lessStream a b w).1 = true -> (lessStream b c w).1 = true ->
    (lessStream a c w).1 = true) /\
   (Int64.inRange (Seconds a * Time.Second) = true ->
    Int64.inRange (Seconds b * Time.Second) = true ->
    (lessStream a b w).1 = (Seconds b <? Seconds a))).
Proof.
  split.
  - intros Ha Hb. unfold lessStream. rewrite Ha, Hb. cbn. auto.
  - intros Ha Hb.
    assert (E : forall x y, Active x = false -> Active y = false ->
              lessStream x y w =
                (Int64.mul (Seconds y) Time.Second <? Int64.mul (Seconds x) Time.Second, w)).
    { intros x y Hx Hy. unfold lessStream. rewrite Hx, Hy. cbn [eqb negb].
      run. rewrite (Elapsed_inactive x w Hx). cbn [fst snd].
      rewrite (Elapsed_inactive y w Hy). reflexivity. }
    rewrite (E a b Ha Hb), (E a a Ha Ha), (E b a Hb Ha). cbn [fst snd].
    split; [reflexivity|]. split; [apply Z.ltb_irrefl|]. split; [|split].
    + intros H. apply Z.ltb_lt in H. apply Z.ltb_ge. lia.
    + intros Hc. rewrite (E b c Hb Hc), (E a c Ha Hc). cbn [fst].
      intros H1 H2. apply Z.ltb_lt in H1, H2. apply Z.ltb_lt. lia.
    + intros Ra Rb. unfold Int64.mul.
      unfold Int64.inRange in Ra, Rb.
      apply andb_true_iff in Ra as [Ra1 Ra2]. apply andb_true_iff in Rb as [Rb1 Rb2].
      apply Z.leb_le in Ra1, Ra2, Rb1, Rb2.
      rewrite !Int64_wrap_small by lia. unfold Time.Second.
      destruct (Z.ltb_spec (Seconds b) (Seconds a));
        [apply Z.ltb_lt|apply Z.ltb_ge]; lia.
Qed.

(** * The periodic flush *)

Lemma backgroundLoop_spec (now : Z) (l : list Stream) :
  forall w : World,
    length (backgroundLoop now l w).1 = length l /\
    (forall i st, l !! i = Some st ->
       (backgroundLoop now l w).1 !! i =
         Some (if Active st
               then restarted now (flushAt (clock w (flushReads (take i l))) st)
               else st)) /\
    shifted (flushReads l) w (backgroundLoop now l w).2.
Proof.
  induction l as [|st l IH]; intros w.
  - cbn. repeat split. intros i st H. discriminate.
  - cbn [backgroundLoop flushReads]. destruct (Active st) eqn:Ha.
    + run.
      destruct (flushStream_active st w Ha) as [Hst Hw].
      destruct (flushStream st w) as [st1 w1]. cbn [fst snd] in *.
      specialize (IH w1). destruct (backgroundLoop now l w1) as [rest' w2].
      cbn [fst snd] in *. destruct IH as (IH2 & IH3 & IH4).
      split; [|split].
      * cbn [length]. rewrite IH2. reflexivity.
      * intros [|i] st0 H; cbn in H.
        -- inversion H; subst st0. rewrite Ha. cbn. rewrite Hst. reflexivity.
        -- rewrite lookup_cons, (IH3 i st0 H).
           cbn [take flushReads]. destruct Hw as [Hw _]. rewrite Hw. reflexivity.
      * apply (shifted_trans _ _ _ _ _ Hw IH4).
    + run. specialize (IH w). destruct (backgroundLoop now l w) as [rest' w2].
      cbn [fst snd] in *. destruct IH as (IH2 & IH3 & IH4).
      assert (Hr : running st = false) by (unfold running; rewrite Ha; reflexivity).
      rewrite Hr. cbn [Nat.add].
      split; [|split].
      * cbn [length]. rewrite IH2. reflexivity.
      * intros [|i] st0 H; cbn in H.
        -- inversion H; subst st0. rewrite Ha. reflexivity.
        -- rewrite lookup_cons, (IH3 i st0 H).
           cbn [take flushReads]. rewrite Hr. reflexivity.
      * exact IH4.
Qed.

(** X20. [SaveForBackground] in full. It reads the clock once, then goes
    through the streams: an inactive stream is left as it is; an active one
    gets the seconds from its start to the clock reading taken at its own
    flush (a later reading than the first), converted as
    [int64(d.Seconds())] converts them, added to its seconds, and
    its period restarted at the first reading; it stays active. Ids, names,
    creation times, the number and order of the streams, the sessions, the
    last-active ids and the path are unchanged, no file is touched before
    the save, and the error returned is that of [Save] on the store left. *)
Theorem SaveForBackground_spec (s : Store) (w : World) :
  length (Streams (SaveForBackground s w).1.1) = length (Streams s) /\
  (forall i st, Streams s !! i = Some st ->
     Streams (SaveForBackground s w).1.1 !! i =
       Some (if Active st
             then restarted (clock w 0%nat)
                    (flushAt (clock w (S (flushReads (take i (Streams s))))) st)
             else st)) /\
  Sessions (SaveForBackground s w).1.1 = Sessions s /\
  LastActive (SaveForBackground s w).1.1 = LastActive s /\
  FilePath (SaveForBackground s w).1.1 = FilePath s /\
  HasActive (SaveForBackground s w).1.1 = HasActive s /\
  exists w1, shifted (S (flushReads (Streams s))) w w1 /\
    SaveForBackground s w =
      ((SaveForBackground s w).1.1, (Save (SaveForBackground s w).1.1 w1).1,
       (Save (SaveForBackground s w).1.1 w1).2).
Proof.
  unfold SaveForBackground. run.
  destruct (backgroundLoop_spec (clock w 0%nat) (Streams s) (timeNow w).2)
    as (Hlen & Hst & Hw).
  cbn [Streams Sessions LastActive FilePath setStreams].
  split; [exact Hlen|]. split; [exact Hst|]. repeat (split; [reflexivity|]). split.
  - unfold HasActive. cbn [Streams].
    destruct (existsb Active (Streams s)) eqn:E.
    + apply existsb_exists in E as (st & Hin & Ha).
      apply list_elem_of_In, list_elem_of_lookup in Hin as [i Hi].
      specialize (Hst i st Hi). rewrite Ha in Hst.
      apply existsb_exists. eexists. split.
      * apply list_elem_of_In, list_elem_of_lookup. exists i. exact Hst.
      * cbn. unfold flushAt. destruct (StartedAt st); exact Ha.
    + apply Forall_inactive_HasActive. apply Forall_inactive_HasActive in E.
      apply Forall_lookup_2. intros i x Hi.
      assert (Hlt : (i < length (Streams s))%nat)
        by (rewrite <- Hlen; apply lookup_lt_is_Some_1; eauto).
      destruct (lookup_lt_is_Some_2 (Streams s) i Hlt) as [st Hst0].
      pose proof (Forall_lookup_1 _ _ _ _ E Hst0) as Ha. cbv beta in Ha.
      pose proof (Hst i st Hst0) as Hx. rewrite Ha in Hx.
      pose proof (eq_trans (eq_sym Hi) Hx) as Hxs. inversion Hxs. exact Ha.
  - eexists. split; [|reflexivity].
    apply (shifted_trans 1 _ w (timeNow w).2 _); [|exact Hw].
    repeat split.
Qed.

(** * Toggling from the keyboard *)

Lemma toggled_ID (now : Z) (st : Stream) : ID (toggled now st) = ID st.
Proof.
  unfold toggled, flushAt. destruct (Active st); [|reflexivity].
  destruct (StartedAt st); reflexivity.
Qed.

Lemma updateNormal_toggle_eq (L : Library) (key : string) (m : Main.model L) (w : World) :
  keyIn key ["enter"; " "] = true ->
  Main.updateNormal key m w =
    (let m0 := Main.setPendingD false m in
     if Main.len m0 =? 0 then ret (Some (m0, Main.CmdNil))
     else
       match index (Streams (Main.store m0)) (Main.cursor m0) with
       | None => ret None
       | Some st =>
           do s1 <- ToggleStream (ID st) (Main.store m0);
           Main.andThen (Main.sortAndFollow (Main.setStore s1 m0)) (fun m1 =>
             do _ <- Save (Main.store m1);
             ret (Some (Main.startTicking m1 true)))
       end) w.
Proof.
  intros H. apply keyIn_cases in H. unfold Main.updateNormal.
  repeat (apply elem_of_cons in H as [->|H]; [reflexivity|]).
  inversion H.
Qed.

Lemma ToggleStream_FilePath (id : string) (s : Store) (w : World) :
  FilePath (ToggleStream id s w).1 = FilePath s.
Proof.
  unfold ToggleStream. run.
  destruct (toggleLoop id (Streams s) w) as [sts w1]. cbn [fst snd].
  destruct (negb (HasActive s) && HasActive (setStreams sts s)); [run; reflexivity|].
  destruct (HasActive s && negb (HasActive (setStreams sts s))); reflexivity.
Qed.

(** X21. Enter or space in the normal mode, with the cursor on a stream (and
    a [sort.SliceStable] that permutes the slice): the store becomes what
    [ToggleStream] gives for the id of that stream, sorted again; the
    sessions are those [ToggleStream] leaves; the cursor follows the id, and
    when the ids are all different it is on the very stream that was under
    it, now toggled (an active stream flushed as [flushStream] does and
    deactivated, an idle one started); the tick is marked as running
    exactly when a stream is active afterwards, and a tick is asked for
    only when it was not running; then the sorted store is saved and
    nothing else is done: when that save succeeds the file holds the store
    of the model. *)
Theorem Update_toggle (L : Library) (key : string) (m : Main.model L) (w : World)
    (st : Stream) :
  permutes (SliceStable L) ->
  keyIn key ["enter"; " "] = true ->
  Main.confirmDel m = false ->
  Main.adding m = false ->
  0 <= Main.cursor m ->
  Streams (Main.store m) !! Z.to_nat (Main.cursor m) = Some st ->
  exists m' c,
    (Main.Update (KeyMsg key) m w).1 = Some (m', c) /\
    Streams (Main.store m') ≡ₚ Streams (ToggleStream (ID st) (Main.store m) w).1 /\
    Sessions (Main.store m') = Sessions (ToggleStream (ID st) (Main.store m) w).1 /\
    (exists st', index (Streams (Main.store m')) (Main.cursor m') = Some st' /\
       ID st' = ID st /\
       (NoDup (ID <$> Streams (Main.store m)) -> st' = toggled (clock w 0%nat) st)) /\
    Main.ticking m' = HasActive (Main.store m') /\
    (c = Main.tickCmd \/ c = Main.CmdNil) /\
    (c = Main.tickCmd -> Main.ticking m = false) /\
    let toggledStore := ToggleStream (ID st) (Main.store m) w in
    let sorted := SortStreams (SliceStable L) toggledStore.1 toggledStore.2 in
    Main.store m' = sorted.1 /\
    (Main.Update (KeyMsg key) m w).2 = (Save sorted.1 sorted.2).2 /\
    ((Save sorted.1 sorted.2).1 = None ->
     disk (Main.Update (KeyMsg key) m w).2 (FilePath (Main.store m)) =
       Holds (Doc (marshalStore (Main.store m')))).
Proof.
  intros Hperm Hk Hcd Had H0 Hst. cbn [Main.Update]. rewrite Hcd, Had.
  rewrite (updateNormal_toggle_eq L key m w Hk). cbv zeta.
  pose proof (lookup_lt_Some _ _ _ Hst) as Hlt.
  unfold Main.len. cbn [Main.store Main.cursor Main.setPendingD].
  destruct (Z.eqb_spec (Z.of_nat (length (Streams (Main.store m)))) 0) as [E|_]; [lia|].
  assert (Hidx : index (Streams (Main.store m)) (Main.cursor m) = Some st).
  { unfold index. destruct (Z.ltb_spec (Main.cursor m) 0); [lia|exact Hst]. }
  rewrite Hidx, !bind_run.
  pose proof (ToggleStream_length (ID st) (Main.store m) w) as Hlen.
  pose proof (ToggleStream_streams (ID st) (Main.store m) w) as Hts.
  pose proof (ToggleStream_FilePath (ID st) (Main.store m) w) as Hfp.
  cbv zeta.
  set (s1 := (ToggleStream (ID st) (Main.store m) w).1) in *.
  set (w1 := (ToggleStream (ID st) (Main.store m) w).2).
  set (m1 := Main.setStore s1 (Main.setPendingD false m)).
  assert (C1 : cursor_ok m1).
  { unfold cursor_ok, Main.len, m1. cbn [Main.cursor Main.store Main.setStore Main.setPendingD].
    rewrite Hlen. lia. }
  destruct (findID_Some (ID st) (Streams (Main.store m)) _ st Hst eq_refl) as (j & Hj & _).
  destruct (toggleLoop_found _ _ _ w Hj) as (x & Hx & Etl).
  rewrite Etl in Hts.
  pose proof (proj1 (findID_first _ _ _) Hj) as [(x' & Hx' & Hxid) _].
  assert (x' = x) by congruence. subst x'.
  assert (Hin : exists k y, Streams s1 !! k = Some y /\ ID y = ID st /\
            (NoDup (ID <$> Streams (Main.store m)) -> y = toggled (clock w 0%nat) st)).
  { exists j, (toggled (clock w 0%nat) x). rewrite Hts. split.
    - apply list_lookup_insert_eq. apply (lookup_lt_Some _ _ _ Hx).
    - split; [rewrite toggled_ID; exact Hxid|].
      intros Hn. f_equal. apply (NoDup_fmap_eq ID (Streams (Main.store m))); auto.
      + apply list_elem_of_lookup. eauto.
      + apply list_elem_of_lookup. eauto. }
  destruct Hin as (k & y & Hy & Hyid & Hynd).
  assert (Hids : ID <$> Streams s1 = ID <$> Streams (Main.store m)).
  { rewrite Hts, list_fmap_insert, toggled_ID.
    apply list_insert_id. rewrite list_lookup_fmap, Hx. reflexivity. }
  destruct (sortAndFollow_run L Hperm m1 w1 C1)
    as (m2 & E2 & C2 & Hs2 & Ht2 & _ & _ & _ & _ & Hf).
  destruct (SortStreams_run L Hperm s1 w1) as (Hp & Hse & _).
  pose proof (sortAndFollow_world L m1 w1 (proj1 C1)) as Hw2.
  cbn [Main.store Main.setStore m1] in Hs2, Hw2.
  rewrite !andThen_run, !E2. run. rewrite Hw2.
  destruct (startTicking_ok L m2 true) as (Es & Ec & _ & Hk1 & Hcmd).
  exists (Main.startTicking m2 true).1, (Main.startTicking m2 true).2.
  split; [destruct (Main.startTicking m2 true); reflexivity|].
  rewrite Es, Ec, Hs2. split; [exact Hp|]. split; [exact Hse|]. split; [|split; [|split; [|split]]].
  - destruct (index_Some (Streams (Main.store m1)) (Main.cursor m1)) as (z & Hz & _).
    { unfold m1.
      cbn [Main.cursor Main.store Main.setStore Main.setPendingD]. rewrite Hlen. lia. }
    destruct (Hf z Hz) as (st' & Hst' & Hid').
    rewrite Hs2 in Hst'. exists st'. split; [exact Hst'|].
    assert (Hzid : ID z = ID st).
    { apply index_inv in Hz as [_ Hz]. unfold m1 in Hz.
      cbn [Main.cursor Main.store Main.setStore Main.setPendingD] in Hz.
      assert (Hz' : (ID <$> Streams s1) !! Z.to_nat (Main.cursor m) = Some (ID z))
        by (rewrite list_lookup_fmap, Hz; reflexivity).
      rewrite Hids, list_lookup_fmap, Hst in Hz'. inversion Hz'. reflexivity. }
    split; [congruence|]. intros Hn. rewrite <- (Hynd Hn).
    apply (NoDup_fmap_eq ID (Streams s1)).
    + rewrite Hids. exact Hn.
    + rewrite <- Hp. apply index_inv in Hst' as [_ Hst']. apply list_elem_of_lookup. eauto.
    + apply list_elem_of_lookup. eauto.
    + congruence.
  - unfold Main.startTicking. rewrite Hs2.
    destruct (Main.ticking m2) eqn:Et, (HasActive (SortStreams (SliceStable L) s1 w1).1);
      cbn; rewrite ?Et; reflexivity.
  - unfold Main.startTicking.
    destruct (negb (Main.ticking m2) && HasActive (Main.store m2)); [left; reflexivity|].
    destruct (true && negb (HasActive (Main.store m2))); right; reflexivity.
  - intros G. destruct (Hcmd G) as [G1 _]. rewrite Ht2 in G1. exact G1.
  - split; [reflexivity|]. split; [reflexivity|].
    intros Hsave. destruct (Save_ok _ _ Hsave) as [Hd _].
    rewrite <- Hfp. unfold SortStreams in Hd |- *. rewrite bind_run, ret_run in Hd |- *.
    exact Hd.
Qed.

(** Space with the cursor on the idle first stream of
    [two_streams_store]: the stream under the cursor afterwards is that
    stream, started at the instant read, and the tick is marked. *)
Lemma Update_toggle_witness :
  exists m' c,
    (Main.Update (KeyMsg " ")
       (Main.mkModel plain_library two_streams_store 0 false false false false "" true 0 0)
       (steady_world 7000000000 x00)).1 = Some (m', c) /\
    index (Streams (Main.store m')) (Main.cursor m')
    = Some (mkStream "aaaaaa" "A" 5 true (Some 7000000000) 0) /\
    Main.ticking m' = HasActive (Main.store m').
Proof.
  destruct (Update_toggle plain_library " "
              (Main.mkModel plain_library two_streams_store 0 false false false false ""
                 true 0 0)
              (steady_world 7000000000 x00) (mkStream "aaaaaa" "A" 5 false None 0)
              insertionSort_permutes eq_refl eq_refl eq_refl)
    as (m' & c & E & _ & _ & (st' & Hst' & _ & Hnd) & Ht & _).
  - vm_compute. discriminate.
  - reflexivity.
  - exists m', c. split; [exact E|]. split; [|exact Ht].
    rewrite Hst'. f_equal. apply Hnd.
    apply (bool_decide_unpack (NoDup (ID <$> Streams two_streams_store))).
    vm_compute. exact I.
Defined.

(** * A store the engine writes and does not load *)

(** Two periods shorter than a second each bank no second, while their
    sessions add up to more than one second: with every stream stopped and
    the file saved without error, [LoadStore] rejects the store as
    inconsistent. *)
Example short_periods_fail_to_load :
  (scenario_short_periods brisk_world).1
  = (None, Err (ErrInconsistent "urd.json" 0 1000000000)).
Proof. vm_compute. reflexivity. Qed.
